(** * Canvas CLI: node resolution and A2UI JSONL validation

    A shallow embedding of [src/cli/canvas-cli.ts].

    JavaScript strings are sequences of UTF-16 code units; they are modelled
    as [list N], one number per code unit, and string literals of the source
    are written [js "..."].  Optional fields ([displayName?: string]) are
    [option]s, thrown [Error]s are values of [exn] carried on the left of a
    sum, and the calls that leave the process (gateway, file system, console)
    are recorded in a trace of [event]s. *)

From Stdlib Require Import List NArith Arith Bool Lia String Ascii Sorted Permutation.
From Stdlib Require DecimalString.
Import ListNotations.
Open Scope N_scope.
Open Scope list_scope.

(** ** JavaScript strings *)

Definition jsstring := list N.

Definition js (s : string) : jsstring :=
  List.map N_of_ascii (list_ascii_of_string s).

Arguments js : simpl never.

Definition jsstring_eqb (a b : jsstring) : bool :=
  if list_eq_dec N.eq_dec a b then true else false.

(** [s.length] *)
Definition str_length (s : jsstring) : nat := List.length s.

(** [!s] on a string: only the empty string is falsy. *)
Definition is_empty (s : jsstring) : bool :=
  match s with [] => true | _ => false end.

(** [s.startsWith(p)] *)
Fixpoint startsWith (s p : jsstring) : bool :=
  match p, s with
  | [], _ => true
  | _ :: _, [] => false
  | a :: p', b :: s' => (a =? b) && startsWith s' p'
  end.

(** [parts.join(sep)] *)
Fixpoint join (sep : jsstring) (parts : list jsstring) : jsstring :=
  match parts with
  | [] => []
  | [p] => p
  | p :: rest => p ++ sep ++ join sep rest
  end.

(** [String(n)] for a non-negative integer: its decimal digits. *)
Definition Number_toString (n : nat) : jsstring :=
  js (DecimalString.NilZero.string_of_uint (Nat.to_uint n)).

(** The code units removed by [String.prototype.trim]: WhiteSpace and
    LineTerminator of ECMA-262. *)
Definition is_js_space (c : N) : bool :=
  ((9 <=? c) && (c <=? 13)) || (c =? 32) || (c =? 160) || (c =? 5760)
  || ((8192 <=? c) && (c <=? 8202)) || (c =? 8232) || (c =? 8233)
  || (c =? 8239) || (c =? 8287) || (c =? 12288) || (c =? 65279).

Fixpoint dropWhile {A} (p : A -> bool) (l : list A) : list A :=
  match l with
  | [] => []
  | x :: r => if p x then dropWhile p r else l
  end.

(** Removes the longest suffix whose elements all satisfy [p]. *)
Fixpoint dropWhileEnd {A} (p : A -> bool) (l : list A) : list A :=
  match l with
  | [] => []
  | x :: r =>
      match dropWhileEnd p r with
      | [] => if p x then [] else [x]
      | r' => x :: r'
      end
  end.

(** [s.trim()] *)
Definition trim (s : jsstring) : jsstring :=
  dropWhileEnd is_js_space (dropWhile is_js_space s).

(** [String.prototype.toLowerCase], one code unit at a time.  The code units
    whose lower-case form contains an ASCII letter are [A]-[Z], U+0130
    (which becomes [i] followed by U+0307) and the Kelvin sign U+212A (which
    becomes [k]); the Latin-1 capitals move by 32.  Every other code unit is
    mapped by JavaScript to code units outside ASCII and is left as it is
    here: both callers only compare the result with ASCII text
    (the class [[a-z0-9]] and the prefix [mac]). *)
Definition lower_unit (c : N) : list N :=
  if (65 <=? c) && (c <=? 90) then [c + 32]
  else if c =? 304 then [105; 775]
  else if c =? 8490 then [107]
  else if (192 <=? c) && (c <=? 222) && negb (c =? 215) then [c + 32]
  else [c].

Definition toLowerCase (s : jsstring) : jsstring := flat_map lower_unit s.

(** ** normalizeNodeKey (canvas-cli.ts 122-128) *)

(** The character class [[a-z0-9]]. *)
Definition is_alnum (c : N) : bool :=
  ((97 <=? c) && (c <=? 122)) || ((48 <=? c) && (c <=? 57)).

Definition dash : N := 45.
Definition is_dash (c : N) : bool := c =? dash.

(** [.replace(/[^a-z0-9]+/g, "-")]: every maximal run of code units outside
    [[a-z0-9]] becomes one dash.  [in_run] tells that the previous code unit
    belonged to the run being replaced. *)
Fixpoint replace_runs (in_run : bool) (s : jsstring) : jsstring :=
  match s with
  | [] => []
  | c :: r =>
      if is_alnum c then c :: replace_runs false r
      else if in_run then replace_runs true r
      else dash :: replace_runs true r
  end.

Definition normalizeNodeKey (value : jsstring) : jsstring :=
  dropWhileEnd is_dash                      (* .replace(/-+$/, "") *)
    (dropWhile is_dash                      (* .replace(/^-+/, "") *)
       (replace_runs false                  (* .replace(/[^a-z0-9]+/g, "-") *)
          (toLowerCase value))).            (* .toLowerCase() *)

(** ** Thrown values *)

(** An [Error] object: its [name] ([Error], [SyntaxError]) and [message]. *)
Record exn := Exn { exn_name : jsstring; exn_message : jsstring }.

(** [new Error(message)] *)
Definition Error (message : jsstring) : exn := Exn (js "Error") message.

(** [String(err)], that is [Error.prototype.toString]. *)
Definition String_of_exn (err : exn) : jsstring :=
  if is_empty (exn_name err) then exn_message err
  else if is_empty (exn_message err) then exn_name err
  else exn_name err ++ js ": " ++ exn_message err.

(** ** JSON values, JSON.parse and JSON.stringify *)

(** A parsed JSON value.  A number keeps its lexeme: the CLI never looks at
    its value.  An object keeps its members in source order, duplicates
    included; the CLI only asks whether a key is present. *)
#[warnings="-register-all"]
Inductive json :=
| JNull
| JBool (b : bool)
| JNumber (lexeme : jsstring)
| JString (s : jsstring)
| JArray (items : list json)
| JObject (members : list (jsstring * json)).

(** JSON white space: tab, line feed, carriage return, space. *)
Definition is_json_ws (c : N) : bool :=
  (c =? 9) || (c =? 10) || (c =? 13) || (c =? 32).

Definition skip_ws (s : jsstring) : jsstring := dropWhile is_json_ws s.

Definition is_digit (c : N) : bool := (48 <=? c) && (c <=? 57).

Definition hex_value (c : N) : option N :=
  if (48 <=? c) && (c <=? 57) then Some (c - 48)
  else if (97 <=? c) && (c <=? 102) then Some (c - 87)
  else if (65 <=? c) && (c <=? 70) then Some (c - 55)
  else None.

Definition hex4 (a b c d : N) : option N :=
  match hex_value a, hex_value b, hex_value c, hex_value d with
  | Some x, Some y, Some z, Some w => Some (((x * 16 + y) * 16 + z) * 16 + w)
  | _, _, _, _ => None
  end.

(** The code unit a single-character escape stands for. *)
Definition simple_escape (e : N) : option N :=
  if e =? 34 then Some 34            (* quotation mark *)
  else if e =? 92 then Some 92       (* reverse solidus *)
  else if e =? 47 then Some 47       (* solidus *)
  else if e =? 98 then Some 8        (* b: backspace *)
  else if e =? 102 then Some 12      (* f: form feed *)
  else if e =? 110 then Some 10      (* n: line feed *)
  else if e =? 114 then Some 13      (* r: carriage return *)
  else if e =? 116 then Some 9       (* t: tab *)
  else None.

Definition prepend (c : N) (r : option (jsstring * jsstring))
  : option (jsstring * jsstring) :=
  match r with
  | Some (str, rest) => Some (c :: str, rest)
  | None => None
  end.

(** The characters of a string literal after its opening quote, up to and
    including the closing quote; yields the decoded string and what follows. *)
Fixpoint parse_string_body (s : jsstring) : option (jsstring * jsstring) :=
  match s with
  | [] => None
  | c :: r =>
      if c =? 34 then Some ([], r)
      else if c =? 92 then
        match r with
        | [] => None
        | e :: r1 =>
            if e =? 117 then
              match r1 with
              | h1 :: h2 :: h3 :: h4 :: r2 =>
                  match hex4 h1 h2 h3 h4 with
                  | Some u => prepend u (parse_string_body r2)
                  | None => None
                  end
              | _ => None
              end
            else
              match simple_escape e with
              | Some u => prepend u (parse_string_body r1)
              | None => None
              end
        end
      else if c <? 32 then None
      else prepend c (parse_string_body r)
  end.

Fixpoint span_digits (s : jsstring) : jsstring * jsstring :=
  match s with
  | [] => ([], [])
  | c :: r =>
      if is_digit c then let '(d, rest) := span_digits r in (c :: d, rest)
      else ([], s)
  end.

(** A JSON number: an optional minus sign, an integer part without leading
    zero, an optional fraction and an optional exponent. *)
Definition parse_number (s : jsstring) : option (jsstring * jsstring) :=
  let '(sign, s1) :=
    match s with
    | c :: r => if c =? 45 then ([c], r) else ([], s)
    | [] => ([], s)
    end in
  let int_part :=
    match s1 with
    | c :: r =>
        if c =? 48 then Some ([c], r)
        else if is_digit c then
          let '(d, rest) := span_digits r in Some (c :: d, rest)
        else None
    | [] => None
    end in
  match int_part with
  | None => None
  | Some (int, s2) =>
      let frac_part :=
        match s2 with
        | c :: r =>
            if c =? 46 then
              match span_digits r with
              | ([], _) => None
              | (d, rest) => Some (c :: d, rest)
              end
            else Some ([], s2)
        | [] => Some ([], s2)
        end in
      match frac_part with
      | None => None
      | Some (frac, s3) =>
          let exp_part :=
            match s3 with
            | c :: r =>
                if (c =? 101) || (c =? 69) then
                  let '(esign, r1) :=
                    match r with
                    | x :: r' =>
                        if (x =? 43) || (x =? 45) then ([x], r') else ([], r)
                    | [] => ([], r)
                    end in
                  match span_digits r1 with
                  | ([], _) => None
                  | (d, rest) => Some (c :: esign ++ d, rest)
                  end
                else Some ([], s3)
            | [] => Some ([], s3)
            end in
          match exp_part with
          | None => None
          | Some (ex, s4) => Some (sign ++ int ++ frac ++ ex, s4)
          end
      end
  end.

(** A string, [true], [false], [null] or a number at the start of [s]. *)
Definition parse_scalar (s : jsstring) : option (json * jsstring) :=
  match s with
  | [] => None
  | c :: r =>
      if c =? 34 then
        match parse_string_body r with
        | Some (str, rest) => Some (JString str, rest)
        | None => None
        end
      else if startsWith s (js "true") then Some (JBool true, skipn 4 s)
      else if startsWith s (js "false") then Some (JBool false, skipn 5 s)
      else if startsWith s (js "null") then Some (JNull, skipn 4 s)
      else
        match parse_number s with
        | Some (lexeme, rest) => Some (JNumber lexeme, rest)
        | None => None
        end
  end.

Arguments parse_scalar : simpl never.

(** One JSON value with the white space before it.  [fuel] bounds the
    nesting of the calls; [JSON_parse] supplies more than a text of that
    length can use. *)
Fixpoint parse_value (fuel : nat) (s : jsstring) : option (json * jsstring) :=
  match fuel with
  | O => None
  | S fuel' =>
      match skip_ws s with
      | [] => None
      | c :: r =>
          if c =? 123 then                                    (* { *)
            match skip_ws r with
            | [] => None
            | c1 :: r1 =>
                if c1 =? 125 then Some (JObject [], r1)
                else
                  match parse_members fuel' r with
                  | Some (ms, rest) => Some (JObject ms, rest)
                  | None => None
                  end
            end
          else if c =? 91 then                                (* [ *)
            match skip_ws r with
            | [] => None
            | c1 :: r1 =>
                if c1 =? 93 then Some (JArray [], r1)
                else
                  match parse_elements fuel' r with
                  | Some (vs, rest) => Some (JArray vs, rest)
                  | None => None
                  end
            end
          else parse_scalar (c :: r)
      end
  end

(** The members of an object after its opening brace, closing brace included. *)
with parse_members (fuel : nat) (s : jsstring)
  : option (list (jsstring * json) * jsstring) :=
  match fuel with
  | O => None
  | S fuel' =>
      match skip_ws s with
      | [] => None
      | q :: r =>
          if q =? 34 then
            match parse_string_body r with
            | None => None
            | Some (key, r1) =>
                match skip_ws r1 with
                | [] => None
                | colon :: r2 =>
                    if colon =? 58 then
                      match parse_value fuel' r2 with
                      | None => None
                      | Some (v, r3) =>
                          match skip_ws r3 with
                          | [] => None
                          | d :: r4 =>
                              if d =? 44 then
                                match parse_members fuel' r4 with
                                | Some (ms, r5) => Some ((key, v) :: ms, r5)
                                | None => None
                                end
                              else if d =? 125 then Some ([(key, v)], r4)
                              else None
                          end
                      end
                    else None
                end
            end
          else None
      end
  end

(** The elements of an array after its opening bracket, closing bracket
    included. *)
with parse_elements (fuel : nat) (s : jsstring)
  : option (list json * jsstring) :=
  match fuel with
  | O => None
  | S fuel' =>
      match parse_value fuel' s with
      | None => None
      | Some (v, r1) =>
          match skip_ws r1 with
          | [] => None
          | d :: r2 =>
              if d =? 44 then
                match parse_elements fuel' r2 with
                | Some (vs, r3) => Some (v :: vs, r3)
                | None => None
                end
              else if d =? 93 then Some ([v], r2)
              else None
          end
      end
  end.

(** The [SyntaxError] thrown by [JSON.parse].  Its message is chosen by the
    JavaScript engine; nothing below depends on its wording. *)
Definition JSON_SyntaxError : exn :=
  Exn (js "SyntaxError") (js "Unexpected token in JSON").

(** [JSON.parse(text)]: the value, or the thrown [SyntaxError]. *)
Definition JSON_parse (text : jsstring) : exn + json :=
  match parse_value (2 * List.length text + 2) text with
  | Some (v, rest) =>
      if is_empty (skip_ws rest) then inr v else inl JSON_SyntaxError
  | None => inl JSON_SyntaxError
  end.

Definition hex_digit (n : N) : N := if n <? 10 then 48 + n else 87 + n.

(** A four-digit unicode escape with lower-case hexadecimal digits. *)
Definition unicode_escape (c : N) : jsstring :=
  js "\u" ++ [hex_digit (c / 4096 mod 16); hex_digit (c / 256 mod 16);
              hex_digit (c / 16 mod 16); hex_digit (c mod 16)].

Definition is_lead_surrogate (c : N) : bool := (55296 <=? c) && (c <=? 56319).
Definition is_trail_surrogate (c : N) : bool := (56320 <=? c) && (c <=? 57343).

(** The body of QuoteJSONString: quotes, backslashes and control characters
    are escaped, and so is every surrogate that is not part of a pair. *)
Fixpoint quote_units (s : jsstring) : jsstring :=
  match s with
  | [] => []
  | c :: r =>
      if c =? 8 then js "\b" ++ quote_units r
      else if c =? 9 then js "\t" ++ quote_units r
      else if c =? 10 then js "\n" ++ quote_units r
      else if c =? 12 then js "\f" ++ quote_units r
      else if c =? 13 then js "\r" ++ quote_units r
      else if c =? 34 then [92; 34] ++ quote_units r
      else if c =? 92 then [92; 92] ++ quote_units r
      else if c <? 32 then unicode_escape c ++ quote_units r
      else if is_lead_surrogate c then
        match r with
        | d :: r' =>
            if is_trail_surrogate d then c :: d :: quote_units r'
            else unicode_escape c ++ quote_units r
        | [] => unicode_escape c
        end
      else if is_trail_surrogate c then unicode_escape c ++ quote_units r
      else c :: quote_units r
  end.

Definition JSON_quote (s : jsstring) : jsstring := [34] ++ quote_units s ++ [34].

(** [JSON.stringify(value)] without indentation.  The members of an object
    are written in the order they are listed, which is the order JavaScript
    uses when no key looks like an array index. *)
Fixpoint JSON_stringify (v : json) : jsstring :=
  match v with
  | JNull => js "null"
  | JBool true => js "true"
  | JBool false => js "false"
  | JNumber lexeme => lexeme
  | JString s => JSON_quote s
  | JArray items => js "[" ++ join (js ",") (List.map JSON_stringify items) ++ js "]"
  | JObject members =>
      js "{"
      ++ join (js ",")
           (List.map (fun m => JSON_quote (fst m) ++ js ":" ++ JSON_stringify (snd m))
              members)
      ++ js "}"
  end.

(** ** validateA2UIJsonl (canvas-cli.ts 59-67, 157-208) *)

Definition A2UI_ACTION_KEYS : list jsstring :=
  [js "beginRendering"; js "surfaceUpdate"; js "dataModelUpdate";
   js "deleteSurface"; js "createSurface"].

Inductive A2UIVersion := v0_8 | v0_9.

(** The line feed character, written [\n] in the source's string literals. *)
Definition LF : jsstring := [10].

Definition cons_to_first (c : N) (lines : list jsstring) : list jsstring :=
  match lines with
  | [] => [[c]]
  | l :: rest => (c :: l) :: rest
  end.

(** [jsonl.split(/\r?\n/)]: a line ends at a line feed; a carriage return
    right before the line feed belongs to the separator. *)
Fixpoint split_lines (s : jsstring) : list jsstring :=
  match s with
  | [] => [[]]
  | c :: r =>
      if c =? 10 then [] :: split_lines r
      else
        match r with
        | d :: r' =>
            if (c =? 13) && (d =? 10) then [] :: split_lines r'
            else cons_to_first c (split_lines r)
        | [] => [[c]]
        end
  end.

(** [key in record] for a record that [JSON.parse] produced.  The prototype
    of such a record is [Object.prototype], which has none of the action
    keys, so only the record's own members count. *)
Definition key_in (key : jsstring) (record : list (jsstring * json)) : bool :=
  existsb (fun m => jsstring_eqb (fst m) key) record.

(** The variables the [forEach] callback updates. *)
Record scan := Scan {
  errors : list jsstring;
  sawV08 : bool;
  sawV09 : bool;
  messageCount : nat
}.

Definition push_error (e : jsstring) (st : scan) : scan :=
  Scan (errors st ++ [e]) (sawV08 st) (sawV09 st) (messageCount st).

(** The prefix [line ${idx + 1}: ] of a per-line error. *)
Definition line_tag (idx : nat) : jsstring :=
  js "line " ++ Number_toString (idx + 1) ++ js ": ".

Arguments line_tag : simpl never.

Definition expected_object : jsstring := js "expected JSON object".

Definition expected_one_key : jsstring :=
  js "expected exactly one action key (" ++ join (js ", ") A2UI_ACTION_KEYS
  ++ js ")".

Definition actionKeys_of (record : list (jsstring * json)) : list jsstring :=
  filter (fun key => key_in key record) A2UI_ACTION_KEYS.

Arguments actionKeys_of : simpl never.

(** The callback of [lines.forEach((line, idx) => ...)]. *)
Definition visit_line (st : scan) (line : jsstring) (idx : nat) : scan :=
  let trimmed := trim line in
  if is_empty trimmed then st
  else
    let st := Scan (errors st) (sawV08 st) (sawV09 st) (messageCount st + 1) in
    match JSON_parse trimmed with
    | inl err => push_error (line_tag idx ++ String_of_exn err) st
    | inr (JObject record) =>
        let actionKeys := actionKeys_of record in
        if negb (Nat.eqb (List.length actionKeys) 1) then
          push_error (line_tag idx ++ expected_one_key) st
        else if jsstring_eqb (nth 0 actionKeys []) (js "createSurface") then
          Scan (errors st) (sawV08 st) true (messageCount st)
        else
          Scan (errors st) true (sawV09 st) (messageCount st)
    | inr _ => push_error (line_tag idx ++ expected_object) st
    end.

(** [items.forEach(callback)], the callback threading its variables. *)
Fixpoint forEach {A St : Type} (callback : St -> A -> nat -> St)
  (items : list A) (idx : nat) (st : St) : St :=
  match items with
  | [] => st
  | x :: rest => forEach callback rest (S idx) (callback st x idx)
  end.

Definition no_messages : jsstring := js "no JSONL messages found".
Definition mixed_versions : jsstring :=
  js "mixed A2UI v0.8 and v0.9 messages in one file".

(** The state when [forEach] returns. *)
Definition scan_lines (jsonl : jsstring) : scan :=
  forEach visit_line (split_lines jsonl) 0%nat (Scan [] false false 0%nat).

(** The two checks after the loop, each pushing onto [errors]. *)
Definition stream_checks (st : scan) : scan :=
  let st := if Nat.eqb (messageCount st) 0 then push_error no_messages st else st in
  if sawV08 st && sawV09 st then push_error mixed_versions st else st.

(** [errors] when the function reaches [if (errors.length > 0)]. *)
Definition collected_errors (jsonl : jsstring) : list jsstring :=
  errors (stream_checks (scan_lines jsonl)).

Definition invalid_jsonl (errs : list jsstring) : exn :=
  Error (js "Invalid A2UI JSONL:" ++ LF ++ js "- "
         ++ join (LF ++ js "- ") errs).

Definition validateA2UIJsonl (jsonl : jsstring) : exn + (A2UIVersion * nat) :=
  let st := stream_checks (scan_lines jsonl) in
  if Nat.ltb 0 (List.length (errors st)) then inl (invalid_jsonl (errors st))
  else inr (if sawV09 st then v0_9 else v0_8, messageCount st).

(** ** buildA2UITextJsonl (canvas-cli.ts 130-155) *)

Definition buildA2UITextJsonl (text : jsstring) : jsstring :=
  let surfaceId := JString (js "main") in
  let rootId := JString (js "root") in
  let textId := JString (js "text") in
  let payloads :=
    [ JObject
        [(js "surfaceUpdate",
          JObject
            [(js "surfaceId", surfaceId);
             (js "components",
              JArray
                [ JObject
                    [(js "id", rootId);
                     (js "component",
                      JObject
                        [(js "Column",
                          JObject
                            [(js "children",
                              JObject [(js "explicitList", JArray [textId])])])])];
                  JObject
                    [(js "id", textId);
                     (js "component",
                      JObject
                        [(js "Text",
                          JObject
                            [(js "text",
                              JObject [(js "literalString", JString text)]);
                             (js "usageHint", JString (js "body"))])])] ])])];
      JObject
        [(js "beginRendering",
          JObject [(js "surfaceId", surfaceId); (js "root", rootId)])] ] in
  join LF (List.map JSON_stringify payloads).

(** ** Node records (canvas-cli.ts 32-57) *)

Record NodeListNode := {
  nodeId : jsstring;
  displayName : option jsstring;
  platform : option jsstring;
  remoteIp : option jsstring;
  caps : option (list jsstring);
  connected : option bool
}.

Record PendingRequest := {
  pending_requestId : jsstring;
  pending_nodeId : jsstring;
  pending_displayName : option jsstring;
  pending_remoteIp : option jsstring
}.

Record PairedNode := {
  paired_nodeId : jsstring;
  paired_displayName : option jsstring;
  paired_remoteIp : option jsstring
}.

Record PairingList := {
  pending : list PendingRequest;
  paired : list PairedNode
}.

(** ** pickDefaultNode (canvas-cli.ts 225-244) *)

(** [Array.isArray(n.caps) ? n.caps.includes("canvas") : true] *)
Definition has_canvas (n : NodeListNode) : bool :=
  match caps n with
  | Some cs => existsb (jsstring_eqb (js "canvas")) cs
  | None => true
  end.

(** The truthiness of [n.connected]. *)
Definition is_connected (n : NodeListNode) : bool :=
  match connected n with
  | Some true => true
  | _ => false
  end.

(** [n.platform?.toLowerCase().startsWith("mac") && typeof n.nodeId ===
    "string" && n.nodeId.startsWith("mac-")] *)
Definition is_local (n : NodeListNode) : bool :=
  match platform n with
  | Some p => startsWith (toLowerCase p) (js "mac")
  | None => false
  end
  && startsWith (nodeId n) (js "mac-").

(** The local [candidates] of [pickDefaultNode]: the connected capable nodes
    if there are any, all capable nodes otherwise. *)
Definition default_candidates (nodes : list NodeListNode) : list NodeListNode :=
  let withCanvas := filter has_canvas nodes in
  let connected := filter is_connected withCanvas in
  if Nat.ltb 0 (List.length connected) then connected else withCanvas.

Definition pickDefaultNode (nodes : list NodeListNode) : option NodeListNode :=
  let withCanvas := filter has_canvas nodes in
  if Nat.eqb (List.length withCanvas) 0 then None
  else
    let connected := filter is_connected withCanvas in
    let candidates :=
      if Nat.ltb 0 (List.length connected) then connected else withCanvas in
    match candidates with
    | [only] => Some only
    | _ =>
        let local := filter is_local candidates in
        match local with
        | [only] => Some only
        | _ => None
        end
    end.

(** ** resolveNodeId (canvas-cli.ts 246-280) *)

(** [a || b] on an optional string: [a] unless it is absent or empty. *)
Definition or_else (a : option jsstring) (b : jsstring) : jsstring :=
  match a with
  | Some s => if is_empty s then b else s
  | None => b
  end.

(** [n.displayName || n.remoteIp || n.nodeId] *)
Definition node_label (n : NodeListNode) : jsstring :=
  or_else (displayName n) (or_else (remoteIp n) (nodeId n)).

(** The predicate of [nodes.filter((n) => ...)] at lines 258-265. *)
Definition node_matches (q : jsstring) (n : NodeListNode) : bool :=
  let qNorm := normalizeNodeKey q in
  if jsstring_eqb (nodeId n) q then true
  else if match remoteIp n with
          | Some ip => jsstring_eqb ip q
          | None => false
          end then true
  else
    let name := match displayName n with Some d => d | None => [] end in
    if negb (is_empty name) && jsstring_eqb (normalizeNodeKey name) qNorm
    then true
    else if Nat.leb 6 (str_length q) && startsWith (nodeId n) q then true
    else false.

Definition node_required : exn :=
  Error (js "node required (use --node or ensure only one connected node is available)").

Definition unknown_node (q : jsstring) (nodes : list NodeListNode) : exn :=
  let known :=
    join (js ", ")
      (filter (fun s => negb (is_empty s)) (List.map node_label nodes)) in
  Error (js "unknown node: " ++ q
         ++ (if is_empty known then [] else js " (known: " ++ known ++ js ")")).

Definition ambiguous_node (q : jsstring) (matches : list NodeListNode) : exn :=
  Error (js "ambiguous node: " ++ q ++ js " (matches: "
         ++ join (js ", ") (List.map node_label matches) ++ js ")").

(** [String(query ?? "")] for a query that is absent or a string. *)
Definition query_text (query : option jsstring) : jsstring :=
  match query with
  | Some s => s
  | None => []
  end.

(** [resolveNodeId] from line 248 on: [nodes] is what [await loadNodes(opts)]
    returned, [query] is absent ([undefined]) or a string. *)
Definition resolveNodeId_in (nodes : list NodeListNode) (query : option jsstring)
  : exn + jsstring :=
  let q := trim (query_text query) in
  if is_empty q then
    match pickDefaultNode nodes with
    | Some picked => inr (nodeId picked)
    | None => inl node_required
    end
  else
    let matches := filter (node_matches q) nodes in
    match matches with
    | [only] => inr (nodeId only)
    | [] => inl (unknown_node q nodes)
    | _ => inl (ambiguous_node q matches)
    end.

(** ** Effects: gateway calls, file reads and console output *)

(** The options of a [canvas] sub-command that the modelled code reads. *)
Record CanvasOpts := {
  opt_json : bool;
  opt_node : option jsstring;
  opt_jsonl : option jsstring;
  opt_text : option jsstring
}.

(** What leaves the process, in the order it happens. *)
Inductive event :=
| GatewayCall (method : jsstring) (params : json)
| RuntimeLog (text : jsstring)
| RuntimeError (text : jsstring)
| RuntimeExit (code : nat).

(** A gateway reply as far as the CLI inspects it: a field is [None] when
    the reply is not an object or has no array under that name. *)
Record reply := {
  reply_nodes : option (list NodeListNode);
  reply_pending : option (list PendingRequest);
  reply_paired : option (list PairedNode)
}.

(** A computation that performs events and then returns or throws. *)
Definition Eff (A : Type) : Type := (list event * (exn + A))%type.

Definition ret {A} (a : A) : Eff A := ([], inr a).
Definition throw {A} (e : exn) : Eff A := ([], inl e).
Definition emit (ev : event) : Eff unit := ([ev], inr tt).

Definition bind {A B} (m : Eff A) (k : A -> Eff B) : Eff B :=
  match m with
  | (t, inl e) => (t, inl e)
  | (t, inr a) => let '(t', r) := k a in (t ++ t', r)
  end.

(** [try { m } catch (err) { handler(err) }] *)
Definition try_catch {A} (m : Eff A) (handler : exn -> Eff A) : Eff A :=
  match m with
  | (t, inl e) => let '(t', r) := handler e in (t ++ t', r)
  | (t, inr a) => (t, inr a)
  end.

(** A pure step that returns or throws. *)
Definition lift {A} (r : exn + A) : Eff A := ([], r).

Notation "x <- m ;; k" := (bind m (fun x => k))
  (at level 61, m at next level, right associativity).
Notation "m ;;; k" := (bind m (fun _ => k))
  (at level 61, right associativity).

Definition trace_of {A} (m : Eff A) : list event := fst m.

Definition is_gateway_call (ev : event) : bool :=
  match ev with
  | GatewayCall _ _ => true
  | _ => false
  end.

Section Runtime.

(** The collaborators outside this file: the gateway transport
    ([callGateway] of gateway/call.js), [fs.readFile] and the idempotency
    key generator. *)
Variable callGateway : jsstring -> json -> exn + reply.
Variable readFile : jsstring -> exn + jsstring.
Variable randomIdempotencyKey : jsstring.

(** [callGatewayCli(method, opts, params)]; the progress indicator around
    the call prints nothing that is modelled. *)
Definition callGatewayCli (method : jsstring) (opts : CanvasOpts) (params : json)
  : Eff reply :=
  emit (GatewayCall method params) ;;; lift (callGateway method params).

Definition parseNodeList (value : reply) : list NodeListNode :=
  match reply_nodes value with
  | Some nodes => nodes
  | None => []
  end.

Definition parsePairingList (value : reply) : PairingList :=
  {| pending := match reply_pending value with Some p => p | None => [] end;
     paired := match reply_paired value with Some p => p | None => [] end |}.

Definition loadNodes (opts : CanvasOpts) : Eff (list NodeListNode) :=
  try_catch
    (res <- callGatewayCli (js "node.list") opts (JObject []) ;;
     ret (parseNodeList res))
    (fun _ =>
       res <- callGatewayCli (js "node.pair.list") opts (JObject []) ;;
       ret (List.map
              (fun n =>
                 {| nodeId := paired_nodeId n;
                    displayName := paired_displayName n;
                    platform := None;
                    remoteIp := paired_remoteIp n;
                    caps := None;
                    connected := None |})
              (paired (parsePairingList res)))).

Definition resolveNodeId (opts : CanvasOpts) (query : option jsstring)
  : Eff jsstring :=
  nodes <- loadNodes opts ;;
  lift (resolveNodeId_in nodes query).

(** [invokeCanvas(opts, command, params)]; an absent [params] leaves the
    property out of the envelope. *)
Definition invokeCanvas (opts : CanvasOpts) (command : jsstring)
  (params : option json) : Eff unit :=
  nodeId <- resolveNodeId opts (opt_node opts) ;;
  _ <- callGatewayCli (js "node.invoke") opts
         (JObject
            ([(js "nodeId", JString nodeId); (js "command", JString command)]
             ++ match params with
                | Some p => [(js "params", p)]
                | None => []
                end
             ++ [(js "idempotencyKey", JString randomIdempotencyKey)])) ;;
  ret tt.

Definition unsupported_version : exn :=
  Error (js "Detected A2UI v0.9 JSONL (createSurface). Clawdbot currently supports v0.8 only.").

(** The action of [canvas a2ui push] (canvas-cli.ts 497-524). *)
Definition a2ui_push (opts : CanvasOpts) : Eff unit :=
  try_catch
    (let hasJsonl :=
       match opt_jsonl opts with
       | Some p => negb (is_empty p)
       | None => false
       end in
     let hasText :=
       match opt_text opts with
       | Some _ => true
       | None => false
       end in
     (if Bool.eqb hasJsonl hasText
      then throw (Error (js "provide exactly one of --jsonl or --text"))
      else ret tt) ;;;
     jsonl <- (match opt_text opts with
               | Some text => ret (buildA2UITextJsonl text)
               | None =>
                   lift (readFile
                           (match opt_jsonl opts with Some p => p | None => [] end))
               end) ;;
     checked <- lift (validateA2UIJsonl jsonl) ;;
     let '(version, messageCount) := checked in
     (match version with
      | v0_9 => throw unsupported_version
      | v0_8 => ret tt
      end) ;;;
     invokeCanvas opts (js "canvas.a2ui.pushJSONL")
       (Some (JObject [(js "jsonl", JString jsonl)])) ;;;
     if negb (opt_json opts) then
       emit (RuntimeLog
               (js "canvas a2ui push ok (v0.8, " ++ Number_toString messageCount
                ++ js " message"
                ++ (if Nat.eqb messageCount 1 then [] else js "s") ++ js ")"))
     else ret tt)
    (fun err =>
       emit (RuntimeError (js "canvas a2ui push failed: " ++ String_of_exn err)) ;;;
       emit (RuntimeExit 1)).

End Runtime.

(** * Notions used in the statements *)

(** ** Keys produced by normalizeNodeKey *)

(** The shape of a key: its first code unit, if any, is in [[a-z0-9]]. *)
Definition head_alnum (s : jsstring) : Prop :=
  match s with
  | [] => True
  | d :: _ => is_alnum d = true
  end.

(** Every code unit is in [[a-z0-9]] or is a dash, and a dash is never
    followed by another dash. *)
Fixpoint separated (s : jsstring) : Prop :=
  match s with
  | [] => True
  | c :: r => (is_alnum c = true \/ (c = dash /\ head_alnum r)) /\ separated r
  end.


(** ** Fuel of the JSON parser *)

(** What a successful parse consumed bounds the fuel it needs. *)
Definition fuel_bound {A} (parse : nat -> jsstring -> option (A * jsstring))
  (f : nat) : Prop :=
  forall s a rest,
    parse f s = Some (a, rest) ->
    (List.length rest < List.length s)%nat
    /\ forall f', (2 * (List.length s - List.length rest) <= f')%nat ->
                  parse f' s = Some (a, rest).

(** ** Lines of a stream, as the specification speaks of them *)

(** Test inputs are written with apostrophes where the JSON text has
    quotation marks. *)
Definition jsq (s : string) : jsstring :=
  List.map (fun c => if c =? 39 then 34 else c) (js s).

Definition is_blank (line : jsstring) : bool := is_empty (trim line).

(** The number of non-blank lines. *)
Definition count_nonblank (lines : list jsstring) : nat :=
  List.length (filter (fun l => negb (is_blank l)) lines).

(** How many of the five action keys a record contains. *)
Definition action_key_count (record : list (jsstring * json)) : nat :=
  List.length (actionKeys_of record).


(** A non-blank line that is an object with exactly one action key, [key]. *)
Definition well_formed_with (line key : jsstring) : Prop :=
  trim line <> []
  /\ exists record,
       JSON_parse (trim line) = inr (JObject record)
       /\ actionKeys_of record = [key].

(** The text of the violation a line causes, if it causes one. *)
Definition line_defect (line : jsstring) : option jsstring :=
  if is_blank line then None
  else
    match JSON_parse (trim line) with
    | inl err => Some (String_of_exn err)
    | inr (JObject record) =>
        if Nat.eqb (action_key_count record) 1 then None
        else Some expected_one_key
    | inr _ => Some expected_object
    end.

(** The action key of a line that causes no violation and is not blank. *)
Definition line_action (line : jsstring) : option jsstring :=
  if is_blank line then None
  else
    match JSON_parse (trim line) with
    | inr (JObject record) =>
        match actionKeys_of record with
        | [key] => Some key
        | _ => None
        end
    | _ => None
    end.

Definition version_A_keys : list jsstring :=
  [js "beginRendering"; js "surfaceUpdate"; js "dataModelUpdate";
   js "deleteSurface"].

Definition uses_v09 (line : jsstring) : bool :=
  match line_action line with
  | Some key => jsstring_eqb key (js "createSurface")
  | None => false
  end.

Definition uses_v08 (line : jsstring) : bool :=
  match line_action line with
  | Some key => negb (jsstring_eqb key (js "createSurface"))
  | None => false
  end.

(** The defects of the lines from index [idx] on, in line order: the
    0-based index of the line and the text of its violation. *)
Fixpoint line_defects (idx : nat) (lines : list jsstring)
  : list (nat * jsstring) :=
  match lines with
  | [] => []
  | l :: rest =>
      match line_defect l with
      | Some reason => [(idx, reason)]
      | None => []
      end ++ line_defects (S idx) rest
  end.

(** A violation with its 1-based line number in front. *)
Definition tagged (d : nat * jsstring) : jsstring :=
  line_tag (fst d) ++ snd d.

(** The stream-level violations: empty stream, then mixed versions. *)
Definition stream_violations (lines : list jsstring) : list jsstring :=
  (if Nat.eqb (count_nonblank lines) 0 then [no_messages] else [])
  ++ (if existsb uses_v08 lines && existsb uses_v09 lines
      then [mixed_versions] else []).

(** ** Sample streams *)

(** Two version-A messages. *)
Definition stream_A : jsstring :=
  jsq "{'beginRendering':{'surfaceId':'main','root':'root'}}" ++ LF
  ++ jsq "{'surfaceUpdate':{'surfaceId':'main','components':[]}}".

(** A [createSurface] line followed by a version-A line. *)
Definition stream_mixed : jsstring :=
  jsq "{'createSurface':{}}" ++ LF ++ jsq "{'beginRendering':{}}".

(** Only [createSurface] messages. *)
Definition stream_B : jsstring :=
  jsq "{'createSurface':{'surfaceId':'main'}}" ++ LF
  ++ jsq "{'createSurface':{'surfaceId':'side'}}".

(** Six lines; the second does not parse and the fifth is an array. *)
Definition stream_broken : jsstring :=
  jsq "{'beginRendering':{}}" ++ LF ++ jsq "{'surfaceUpdate':" ++ LF
  ++ js "   " ++ LF ++ jsq "{'deleteSurface':{}}" ++ LF ++ jsq "[1, 2]" ++ LF
  ++ jsq "{'dataModelUpdate':{}}".

(** Three non-blank lines, none of which parses. *)
Definition stream_garbage : jsstring :=
  js "not json" ++ LF ++ LF ++ jsq "{'beginRendering':" ++ LF ++ js "]".

(** ** Sample directories *)

Definition bare_node (id : jsstring) : NodeListNode :=
  {| nodeId := id; displayName := None; platform := None; remoteIp := None;
     caps := None; connected := None |}.

(** Scenario D of the specification. *)
Definition studio_directory : list NodeListNode :=
  [ {| nodeId := js "mac-123"; displayName := Some (js "Studio Mac");
       platform := None; remoteIp := None;
       caps := Some [js "canvas"]; connected := Some true |};
    {| nodeId := js "pc-7"; displayName := None;
       platform := None; remoteIp := None;
       caps := Some [js "canvas"]; connected := Some false |} ].

(** One capable node, nobody connected. *)
Definition idle_directory : list NodeListNode :=
  [ {| nodeId := js "cam-1"; displayName := None; platform := None;
       remoteIp := None; caps := Some [js "camera"]; connected := None |};
    {| nodeId := js "pc-7"; displayName := None; platform := None;
       remoteIp := None; caps := Some [js "canvas"]; connected := Some false |} ].

(** No node offers the canvas. *)
Definition camera_directory : list NodeListNode :=
  [ {| nodeId := js "cam-1"; displayName := None; platform := None;
       remoteIp := None; caps := Some [js "camera"]; connected := Some true |} ].

(** Two connected canvas nodes, neither of them a local Mac. *)
Definition twin_directory : list NodeListNode :=
  [ {| nodeId := js "pc-7"; displayName := None; platform := Some (js "linux");
       remoteIp := None; caps := Some [js "canvas"]; connected := Some true |};
    {| nodeId := js "pc-8"; displayName := None; platform := Some (js "linux");
       remoteIp := None; caps := Some [js "canvas"]; connected := Some true |} ].

(** The id of the second node is the normalized display name of the first. *)
Definition namesake_directory : list NodeListNode :=
  [ {| nodeId := js "node-a"; displayName := Some (js "Node B");
       platform := None; remoteIp := None; caps := None; connected := None |};
    bare_node (js "node-b") ].


Definition tablet_directory : list NodeListNode :=
  [ {| nodeId := js "tablet-4f2a91"; displayName := Some (js "Kitchen");
       platform := None; remoteIp := Some (js "10.0.0.5");
       caps := None; connected := None |};
    bare_node (js "pc-7") ].

(** ** A sample runtime *)

(** A gateway that answers every call with the directory of scenario D. *)
Definition studio_gateway (method : jsstring) (params : json) : exn + reply :=
  inr {| reply_nodes := Some studio_directory;
         reply_pending := None;
         reply_paired := None |}.

(** [canvas a2ui push --jsonl payload.jsonl] *)
Definition push_file_opts : CanvasOpts :=
  {| opt_json := false; opt_node := None;
     opt_jsonl := Some (js "payload.jsonl"); opt_text := None |}.

(** [canvas a2ui push --text hello] *)
Definition push_text_opts : CanvasOpts :=
  {| opt_json := false; opt_node := None;
     opt_jsonl := None; opt_text := Some (js "hello") |}.

(** ** Versions of action keys *)

(** The protocol version an action key belongs to, as the callback decides
    it at lines 189-193. *)
Definition key_version (key : jsstring) : A2UIVersion :=
  if jsstring_eqb key (js "createSurface") then v0_9 else v0_8.

(** Two nodes whose display names have no ASCII letter or digit. *)
Definition symbol_directory : list NodeListNode :=
  [ {| nodeId := js "node-a"; displayName := Some (js "***");
       platform := None; remoteIp := None; caps := None; connected := None |};
    {| nodeId := js "node-b"; displayName := Some [24037; 20316; 23460];
       platform := None; remoteIp := None; caps := None; connected := None |} ].

(** ** The actions built on invokeCanvas alone (canvas-cli.ts 411-446, 527-543) *)

Section SimpleActions.

Variable callGateway : jsstring -> json -> exn + reply.
Variable randomIdempotencyKey : jsstring.

(** The action of [canvas hide]. *)
Definition canvas_hide (opts : CanvasOpts) : Eff unit :=
  try_catch
    (invokeCanvas callGateway randomIdempotencyKey opts (js "canvas.hide") None ;;;
     if negb (opt_json opts) then emit (RuntimeLog (js "canvas hide ok"))
     else ret tt)
    (fun err =>
       emit (RuntimeError (js "canvas hide failed: " ++ String_of_exn err)) ;;;
       emit (RuntimeExit 1)).

(** The action of [canvas navigate <url>]. *)
Definition canvas_navigate (url : jsstring) (opts : CanvasOpts) : Eff unit :=
  try_catch
    (invokeCanvas callGateway randomIdempotencyKey opts (js "canvas.navigate")
       (Some (JObject [(js "url", JString url)])) ;;;
     if negb (opt_json opts) then emit (RuntimeLog (js "canvas navigate ok"))
     else ret tt)
    (fun err =>
       emit (RuntimeError (js "canvas navigate failed: " ++ String_of_exn err)) ;;;
       emit (RuntimeExit 1)).

(** The action of [canvas a2ui reset]. *)
Definition a2ui_reset (opts : CanvasOpts) : Eff unit :=
  try_catch
    (invokeCanvas callGateway randomIdempotencyKey opts (js "canvas.a2ui.reset")
       None ;;;
     if negb (opt_json opts) then emit (RuntimeLog (js "canvas a2ui reset ok"))
     else ret tt)
    (fun err =>
       emit (RuntimeError (js "canvas a2ui reset failed: " ++ String_of_exn err)) ;;;
       emit (RuntimeExit 1)).

End SimpleActions.

(** ** Notions for the traces of actions *)

(** The envelope [{ nodeId, command, params, idempotencyKey }] given to
    [node.invoke]. *)
Definition invoke_envelope (key nodeId command : jsstring) (params : option json)
  : json :=
  JObject
    ([(js "nodeId", JString nodeId); (js "command", JString command)]
     ++ match params with
        | Some p => [(js "params", p)]
        | None => []
        end
     ++ [(js "idempotencyKey", JString key)]).

(** An action that invokes one command and reports the outcome under [name]. *)
Definition reported_invocation
  (callGateway : jsstring -> json -> exn + reply) (key : jsstring)
  (name command : jsstring) (params : option json) (opts : CanvasOpts)
  : Eff unit :=
  try_catch
    (invokeCanvas callGateway key opts command params ;;;
     if negb (opt_json opts) then emit (RuntimeLog (name ++ js " ok"))
     else ret tt)
    (fun err =>
       emit (RuntimeError (name ++ js " failed: " ++ String_of_exn err)) ;;;
       emit (RuntimeExit 1)).

(** The directory entry the pairing fallback makes of a paired node. *)
Definition node_of_paired (p : PairedNode) : NodeListNode :=
  {| nodeId := paired_nodeId p;
     displayName := paired_displayName p;
     platform := None;
     remoteIp := paired_remoteIp p;
     caps := None;
     connected := None |}.

(** A gateway whose [node.list] fails and whose [node.pair.list] knows one
    paired node and one pending request. *)
Definition pairing_gateway (method : jsstring) (params : json) : exn + reply :=
  if jsstring_eqb method (js "node.list") then inl (Error (js "unknown method"))
  else
    inr {| reply_nodes := None;
           reply_pending :=
             Some [ {| pending_requestId := js "req-1";
                       pending_nodeId := js "ipad-9";
                       pending_displayName := None;
                       pending_remoteIp := None |} ];
           reply_paired :=
             Some [ {| paired_nodeId := js "mac-123";
                       paired_displayName := Some (js "Studio Mac");
                       paired_remoteIp := None |} ] |}.

(** A gateway that fails on every call. *)
Definition dead_gateway (method : jsstring) (params : json) : exn + reply :=
  inl (Error (js "gateway closed")).

Definition plain_opts : CanvasOpts :=
  {| opt_json := false; opt_node := None; opt_jsonl := None; opt_text := None |}.

(** ** Round trips through JSON.stringify and JSON.parse *)

(** Values without numbers: the payloads the CLI builds have none. *)
Fixpoint number_free (v : json) : bool :=
  match v with
  | JNumber _ => false
  | JArray items => forallb number_free items
  | JObject members => forallb (fun m => number_free (snd m)) members
  | _ => true
  end.

(** [v], written by [JSON.stringify] and followed by any text, parses back
    to [v] and leaves that text. *)
Definition reparses (v : json) : Prop :=
  forall rest, exists f, parse_value f (JSON_stringify v ++ rest) = Some (v, rest).

(** One member of an object as [JSON.stringify] writes it. *)
Definition member_text (m : jsstring * json) : jsstring :=
  JSON_quote (fst m) ++ js ":" ++ JSON_stringify (snd m).

(** The first line [buildA2UITextJsonl] writes, up to the text ... *)
Definition text_prefix : jsstring :=
  jsq "{'surfaceUpdate':{'surfaceId':'main','components':[{'id':'root','component':{'Column':{'children':{'explicitList':['text']}}}},{'id':'text','component':{'Text':{'text':{'literalString':'".

(** ... and after it, first without and then with the last brace. *)
Definition text_suffix_init : jsstring :=
  jsq "'},'usageHint':'body'}}}]}".

Definition text_suffix : jsstring := text_suffix_init ++ js "}".

(** The second line [buildA2UITextJsonl] writes. *)
Definition text_second_line : jsstring :=
  jsq "{'beginRendering':{'surfaceId':'main','root':'root'}}".

(** The value of the first payload of [buildA2UITextJsonl]. *)
Definition text_payload_value (text : jsstring) : json :=
  JObject
    [(js "surfaceUpdate",
      JObject
        [(js "surfaceId", JString (js "main"));
         (js "components",
          JArray
            [ JObject
                [(js "id", JString (js "root"));
                 (js "component",
                  JObject
                    [(js "Column",
                      JObject
                        [(js "children",
                          JObject
                            [(js "explicitList",
                              JArray [JString (js "text")])])])])];
              JObject
                [(js "id", JString (js "text"));
                 (js "component",
                  JObject
                    [(js "Text",
                      JObject
                        [(js "text",
                          JObject [(js "literalString", JString text)]);
                         (js "usageHint", JString (js "body"))])])] ])])].

(** ** Notions for the push action *)

(** [Boolean(opts.jsonl)] and [typeof opts.text === "string"]. *)
Definition has_jsonl (opts : CanvasOpts) : bool :=
  match opt_jsonl opts with
  | Some p => negb (is_empty p)
  | None => false
  end.

Definition has_text (opts : CanvasOpts) : bool :=
  match opt_text opts with
  | Some _ => true
  | None => false
  end.

(** The payload the push action validates: built from [--text], or read
    from the file of [--jsonl]. *)
Definition push_payload (readFile : jsstring -> exn + jsstring)
  (opts : CanvasOpts) : exn + jsstring :=
  match opt_text opts with
  | Some text => inr (buildA2UITextJsonl text)
  | None => readFile (match opt_jsonl opts with Some p => p | None => [] end)
  end.

(** What the catch block of the push action does with [err]. *)
Definition push_failure (err : exn) : Eff unit :=
  ([RuntimeError (js "canvas a2ui push failed: " ++ String_of_exn err);
    RuntimeExit 1], inr tt).

Definition push_params (jsonl : jsstring) : option json :=
  Some (JObject [(js "jsonl", JString jsonl)]).

Definition push_ok_line (messageCount : nat) : jsstring :=
  js "canvas a2ui push ok (v0.8, " ++ Number_toString messageCount
  ++ js " message" ++ (if Nat.eqb messageCount 1 then [] else js "s") ++ js ")".

(** ** Line endings *)

(** The carriage return and line feed pair. *)
Definition CRLF : jsstring := [13; 10].

(** [l] without a carriage return at its very end. *)
Fixpoint strip_cr (l : jsstring) : jsstring :=
  match l with
  | [] => []
  | [c] => if c =? 13 then [] else [c]
  | c :: r => c :: strip_cr r
  end.

(** A stream of four lines, blank ones included, one ending in a carriage
    return of its own. *)
Definition sample_lines : list jsstring :=
  [ jsq "{'beginRendering':{}}"; []; jsq "{'surfaceUpdate':{}}" ++ [13];
    js "oops" ].

(** ** normalizeFormat (canvas-cli.ts 282-286) *)

Section Format.

(** [String.prototype.toLowerCase] of the engine.  [normalizeFormat] returns
    the lower-cased text itself, so the whole Unicode case mapping shows in
    its result; it is a parameter here, and what is proved of
    [normalizeFormat] holds for every mapping with the properties stated. *)
Variable String_toLowerCase : jsstring -> jsstring.

Definition normalizeFormat (format : jsstring) : jsstring :=
  let trimmed := String_toLowerCase (trim format) in
  if jsstring_eqb trimmed (js "jpg") then js "jpeg" else trimmed.

End Format.

(** ** Taglines (the tagline module, after canvas-cli.ts in the same file) *)

Definition DEFAULT_TAGLINE : jsstring :=
  js "Send, receive, and auto-reply on WhatsApp (web) and Telegram (bot).".

Section Taglines.

(** The exported array and map, as they are when the functions run (other
    modules may fill them), and the type of dates. *)
Variable Date : Type.
Variable TAGLINES : list jsstring.
Variable HOLIDAY_RULES : jsstring -> option (Date -> bool).

Definition isTaglineActive (tagline : jsstring) (date : Date) : bool :=
  match HOLIDAY_RULES tagline with
  | None => true
  | Some rule => rule date
  end.

(** [activeTaglines(options)]; [today] is [options.now()] or the current
    date. *)
Definition activeTaglines (today : Date) : list jsstring :=
  if Nat.eqb (List.length TAGLINES) 0 then [DEFAULT_TAGLINE]
  else
    let filtered := filter (fun tagline => isTaglineActive tagline today) TAGLINES in
    if Nat.ltb 0 (List.length filtered) then filtered else TAGLINES.

End Taglines.

(** ** The banner (banner.ts 11-45) *)

(** The options of the banner functions that are modelled. *)
Record BannerOptions := {
  banner_argv : option (list jsstring);
  banner_commit : option jsstring;
  banner_richTty : option bool
}.

(** What a call finds outside: the terminal, the arguments of the process,
    and what [resolveCommitHash], [pickTagline] and [isRich] answer. *)
Record BannerEnv := {
  env_isTTY : bool;
  env_argv : list jsstring;
  env_commitHash : option jsstring;
  env_tagline : jsstring;
  env_isRich : bool
}.

(** [argv.some((arg) => arg === "--json" || arg.startsWith("--json="))] *)
Definition hasJsonFlag (argv : list jsstring) : bool :=
  existsb (fun arg => jsstring_eqb arg (js "--json")
                      || startsWith arg (js "--json=")) argv.

Definition hasVersionFlag (argv : list jsstring) : bool :=
  existsb (fun arg => jsstring_eqb arg (js "--version")
                      || jsstring_eqb arg (js "-V")
                      || jsstring_eqb arg (js "-v")) argv.

(** The title: a lobster (a surrogate pair) and the name. *)
Definition banner_title : jsstring := [55358; 56734] ++ js " ClawdBot".

(** The em dash. *)
Definition em_dash : jsstring := [8212].

Section Banner.

(** The colouring functions of the terminal theme. *)
Variables (heading info muted accentDim : jsstring -> jsstring).

Definition formatCliBannerLine (env : BannerEnv) (version : jsstring)
  (options : BannerOptions) : jsstring :=
  let commit :=
    match banner_commit options with
    | Some c => Some c
    | None => env_commitHash env
    end in
  let commitLabel := match commit with Some c => c | None => js "unknown" end in
  let tagline := env_tagline env in
  let rich :=
    match banner_richTty options with
    | Some r => r
    | None => env_isRich env
    end in
  let title := banner_title in
  if rich then
    heading title ++ js " " ++ info version ++ js " "
    ++ muted (js "(" ++ commitLabel ++ js ")") ++ js " " ++ muted em_dash
    ++ js " " ++ accentDim tagline
  else
    title ++ js " " ++ version ++ js " (" ++ commitLabel ++ js ") " ++ em_dash
    ++ js " " ++ tagline.

(** [emitCliBanner(version, options)] from the value of [bannerEmitted]:
    what it writes to the standard output, if anything, and the new value. *)
Definition emitCliBanner (bannerEmitted : bool) (env : BannerEnv)
  (version : jsstring) (options : BannerOptions) : option jsstring * bool :=
  if bannerEmitted then (None, bannerEmitted)
  else
    let argv :=
      match banner_argv options with
      | Some a => a
      | None => env_argv env
      end in
    if negb (env_isTTY env) then (None, bannerEmitted)
    else if hasJsonFlag argv then (None, bannerEmitted)
    else if hasVersionFlag argv then (None, bannerEmitted)
    else
      let line := formatCliBannerLine env version options in
      (Some (LF ++ line ++ LF ++ LF), true).

(** A call of [emitCliBanner] with what it finds outside. *)
Record BannerCall := {
  call_env : BannerEnv;
  call_version : jsstring;
  call_options : BannerOptions
}.

(** Successive calls in one process: everything written, and the final
    value of [bannerEmitted]. *)
Fixpoint emit_all (bannerEmitted : bool) (calls : list BannerCall)
  : list jsstring * bool :=
  match calls with
  | [] => ([], bannerEmitted)
  | c :: rest =>
      let '(written, emitted) :=
        emitCliBanner bannerEmitted (call_env c) (call_version c)
          (call_options c) in
      let '(more, final) := emit_all emitted rest in
      (match written with Some w => w :: more | None => more end, final)
  end.

(** A call that is allowed to print: a terminal, and neither a JSON flag
    nor a version flag among the arguments it looks at. *)
Definition banner_allowed (c : BannerCall) : bool :=
  let argv :=
    match banner_argv (call_options c) with
    | Some a => a
    | None => env_argv (call_env c)
    end in
  env_isTTY (call_env c) && negb (hasJsonFlag argv) && negb (hasVersionFlag argv).

End Banner.

(** ** Sample taglines and banner calls *)

(** A rule that holds on day 359 only. *)
Definition sample_rules (tagline : jsstring) : option (nat -> bool) :=
  if jsstring_eqb tagline (js "Ho ho ho") then Some (Nat.eqb 359) else None.

Definition sample_taglines : list jsstring := [js "Ho ho ho"; js "Claws out"].

Definition tty_env : BannerEnv :=
  {| env_isTTY := true; env_argv := [js "node"; js "clawdbot"; js "canvas"];
     env_commitHash := None; env_tagline := DEFAULT_TAGLINE;
     env_isRich := false |}.

Definition no_banner_options : BannerOptions :=
  {| banner_argv := None; banner_commit := None; banner_richTty := None |}.

(** A call with its own arguments, here a push of a JSONL file as JSON. *)
Definition json_call : BannerCall :=
  {| call_env := tty_env; call_version := js "1.2.3";
     call_options :=
       {| banner_argv := Some [js "a2ui"; js "push"; js "--jsonl"; js "p.jsonl";
                               js "--json"];
          banner_commit := None; banner_richTty := None |} |}.

Definition plain_call : BannerCall :=
  {| call_env := tty_env; call_version := js "1.2.3";
     call_options := no_banner_options |}.
(** * Properties *)

(** ** Lists and strings *)

Lemma dropWhile_head_false {A} (p : A -> bool) (l : list A) x r :
  dropWhile p l = x :: r -> p x = false.
Proof.
  induction l as [|y l IH]; simpl; [discriminate|].
  destruct (p y) eqn:E; [exact IH|].
  intros H; injection H as -> _; exact E.
Qed.

Lemma dropWhile_fixed {A} (p : A -> bool) (l : list A) :
  match l with [] => True | x :: _ => p x = false end -> dropWhile p l = l.
Proof. destruct l as [|x l]; simpl; [reflexivity|]. now intros ->. Qed.

Lemma dropWhileEnd_head {A} (p : A -> bool) (l : list A) x r :
  dropWhileEnd p l = x :: r -> exists r0, l = x :: r0.
Proof.
  destruct l as [|y l]; simpl; [discriminate|].
  destruct (dropWhileEnd p l) as [|z l'].
  - destruct (p y); [discriminate|]. intros H; injection H as -> _. now exists l.
  - intros H; injection H as -> _. now exists l.
Qed.

Lemma dropWhileEnd_idem {A} (p : A -> bool) (l : list A) :
  dropWhileEnd p (dropWhileEnd p l) = dropWhileEnd p l.
Proof.
  induction l as [|x l IH]; simpl; [reflexivity|].
  destruct (dropWhileEnd p l) as [|z l'] eqn:E.
  - destruct (p x) eqn:Px; simpl; [reflexivity|]. now rewrite Px.
  - simpl in *. now rewrite IH.
Qed.

Lemma is_empty_true (s : jsstring) : is_empty s = true <-> s = [].
Proof. destruct s; simpl; split; congruence. Qed.

Lemma jsstring_eqb_eq (a b : jsstring) : jsstring_eqb a b = true <-> a = b.
Proof.
  unfold jsstring_eqb. destruct (list_eq_dec N.eq_dec a b); split; congruence.
Qed.

Lemma jsstring_eqb_neq (a b : jsstring) : jsstring_eqb a b = false <-> a <> b.
Proof.
  unfold jsstring_eqb. destruct (list_eq_dec N.eq_dec a b); split; congruence.
Qed.

(** ** JSON.parse: the fuel suffices *)

Lemma dropWhile_length {A} (p : A -> bool) (l : list A) :
  (List.length (dropWhile p l) <= List.length l)%nat.
Proof.
  induction l as [|x l IH]; simpl; [lia|]. destruct (p x); simpl; lia.
Qed.

Lemma skip_ws_length s : (List.length (skip_ws s) <= List.length s)%nat.
Proof. apply dropWhile_length. Qed.

Lemma prepend_some c r str rest :
  prepend c r = Some (str, rest) ->
  exists str', r = Some (str', rest) /\ str = c :: str'.
Proof.
  destruct r as [[s' r']|]; simpl; [|discriminate].
  intros H; injection H as <- <-. eauto.
Qed.

Lemma parse_string_body_shorter n :
  forall s str rest,
    (List.length s <= n)%nat ->
    parse_string_body s = Some (str, rest) ->
    (List.length rest < List.length s)%nat.
Proof.
  induction n as [|n IH]; intros s str rest Hn H;
    destruct s as [|c r]; simpl in *; try discriminate; try lia.
  destruct (c =? 34).
  { injection H as _ <-. lia. }
  destruct (c =? 92).
  - destruct r as [|e r1]; [discriminate|].
    destruct (e =? 117).
    + destruct r1 as [|h1 [|h2 [|h3 [|h4 r2]]]]; try discriminate.
      destruct (hex4 h1 h2 h3 h4); [|discriminate].
      apply prepend_some in H. destruct H as (str' & H & _).
      apply IH in H; simpl in *; lia.
    + destruct (simple_escape e); [|discriminate].
      apply prepend_some in H. destruct H as (str' & H & _).
      apply IH in H; simpl in *; lia.
  - destruct (c <? 32); [discriminate|].
    apply prepend_some in H. destruct H as (str' & H & _).
    apply IH in H; simpl in *; lia.
Qed.

Lemma parse_string_body_length s str rest :
  parse_string_body s = Some (str, rest) ->
  (List.length rest < List.length s)%nat.
Proof. apply (parse_string_body_shorter (List.length s)). lia. Qed.

Lemma span_digits_length s :
  (List.length (snd (span_digits s)) <= List.length s)%nat.
Proof.
  induction s as [|c r IH]; simpl; [lia|].
  destruct (is_digit c); simpl; [|lia].
  destruct (span_digits r); simpl in *; lia.
Qed.

Lemma parse_number_length s lexeme rest :
  parse_number s = Some (lexeme, rest) ->
  (List.length rest < List.length s)%nat.
Proof.
  unfold parse_number.
  set (signed := match s with
                 | c :: r => if c =? 45 then ([c], r) else ([], s)
                 | [] => ([], s) end).
  assert (Hs : (List.length (snd signed) <= List.length s)%nat).
  { subst signed. destruct s as [|c r]; simpl; [lia|].
    destruct (c =? 45); simpl; lia. }
  destruct signed as [sign s1]. simpl in Hs.
  destruct s1 as [|c r]; [discriminate|].
  assert (Hint : forall int s2,
             (if c =? 48 then Some ([c], r)
              else if is_digit c
                   then let '(d, rest) := span_digits r in Some (c :: d, rest)
                   else None) = Some (int, s2) ->
             (List.length s2 <= List.length r)%nat).
  { intros int s2. destruct (c =? 48).
    - intros H; injection H as _ <-. lia.
    - destruct (is_digit c); [|discriminate].
      pose proof (span_digits_length r) as Hl.
      destruct (span_digits r) as [d rest']. intros H; injection H as _ <-.
      exact Hl. }
  destruct (if c =? 48 then Some ([c], r) else _) as [[int s2]|] eqn:Ei;
    [|discriminate].
  specialize (Hint _ _ eq_refl).
  assert (Hfrac : forall frac s3,
             match s2 with
             | c0 :: r0 =>
                 if c0 =? 46
                 then match span_digits r0 with
                      | ([], _) => None
                      | (d, rest) => Some (c0 :: d, rest)
                      end
                 else Some ([], s2)
             | [] => Some ([], s2)
             end = Some (frac, s3) ->
             (List.length s3 <= List.length s2)%nat).
  { intros frac s3. destruct s2 as [|c0 r0].
    - intros H; injection H as _ <-. lia.
    - destruct (c0 =? 46).
      + pose proof (span_digits_length r0) as Hl.
        destruct (span_digits r0) as [[|d0 d] rest']; [discriminate|].
        intros H; injection H as _ <-. simpl in *. lia.
      + intros H; injection H as _ <-. lia. }
  destruct (match s2 with [] => _ | _ => _ end) as [[frac s3]|] eqn:Ef;
    [|discriminate].
  specialize (Hfrac _ _ eq_refl).
  simpl in Hs.
  destruct s3 as [|c3 r3].
  - intros H; injection H as _ <-. simpl in *. lia.
  - destruct ((c3 =? 101) || (c3 =? 69)).
    + set (esigned := match r3 with
                      | x :: r' => if (x =? 43) || (x =? 45) then ([x], r') else ([], r3)
                      | [] => ([], r3) end).
      assert (He : (List.length (snd esigned) <= List.length r3)%nat).
      { subst esigned. destruct r3 as [|x r']; simpl; [lia|].
        destruct ((x =? 43) || (x =? 45)); simpl; lia. }
      destruct esigned as [esign r1]. simpl in He.
      pose proof (span_digits_length r1) as Hl.
      destruct (span_digits r1) as [[|d0 d] rest']; [discriminate|].
      intros H; injection H as _ <-. simpl in *. lia.
    + intros H; injection H as _ <-. simpl in *. lia.
Qed.

Lemma skipn_length_lt {A} n (l : list A) :
  (0 < n)%nat -> l <> [] -> (List.length (skipn n l) < List.length l)%nat.
Proof.
  intros Hn Hl. rewrite length_skipn. destruct l; [congruence|].
  cbn [List.length]. lia.
Qed.

Lemma parse_scalar_length s v rest :
  parse_scalar s = Some (v, rest) -> (List.length rest < List.length s)%nat.
Proof.
  unfold parse_scalar. destruct s as [|c r]; [discriminate|].
  destruct (c =? 34).
  { destruct (parse_string_body r) as [[str rest']|] eqn:E; [|discriminate].
    intros H; injection H as _ <-. apply parse_string_body_length in E.
    simpl. lia. }
  destruct (startsWith (c :: r) (js "true")).
  { intros H. replace rest with (skipn 4 (c :: r)) by congruence.
    apply skipn_length_lt; [lia | discriminate]. }
  destruct (startsWith (c :: r) (js "false")).
  { intros H. replace rest with (skipn 5 (c :: r)) by congruence.
    apply skipn_length_lt; [lia | discriminate]. }
  destruct (startsWith (c :: r) (js "null")).
  { intros H. replace rest with (skipn 4 (c :: r)) by congruence.
    apply skipn_length_lt; [lia | discriminate]. }
  destruct (parse_number (c :: r)) as [[lexeme rest']|] eqn:E; [|discriminate].
  intros H; injection H as _ <-. exact (parse_number_length _ _ _ E).
Qed.

Lemma parse_fuel f :
  fuel_bound parse_value f /\ fuel_bound parse_members f
  /\ fuel_bound parse_elements f.
Proof.
  unfold fuel_bound.
  induction f as [|f (IHv & IHm & IHe)];
    [split; [|split]; intros s a rest H; discriminate H|].
  split; [|split]; intros s a rest H.
  - simpl in H. pose proof (skip_ws_length s) as Hs.
    destruct (skip_ws s) as [|c r] eqn:Es; [discriminate|]. simpl in Hs.
    destruct (c =? 123) eqn:Ec.
    { pose proof (skip_ws_length r) as Hr.
      destruct (skip_ws r) as [|c1 r1] eqn:Er; [discriminate|]. simpl in Hr.
      destruct (c1 =? 125) eqn:Ec1.
      - injection H as <- <-. split; [lia|].
        intros [|f'] Hf; [lia|]. simpl. now rewrite Es, Ec, Er, Ec1.
      - destruct (parse_members f r) as [[ms rest']|] eqn:Em; [|discriminate].
        injection H as <- <-. destruct (IHm _ _ _ Em) as [Hl Hf'].
        split; [lia|].
        intros [|f'] Hf; [lia|]. simpl. rewrite Es, Ec, Er, Ec1.
        rewrite Hf' by lia. reflexivity. }
    destruct (c =? 91) eqn:Ec'.
    { pose proof (skip_ws_length r) as Hr.
      destruct (skip_ws r) as [|c1 r1] eqn:Er; [discriminate|]. simpl in Hr.
      destruct (c1 =? 93) eqn:Ec1.
      - injection H as <- <-. split; [lia|].
        intros [|f'] Hf; [lia|]. simpl. now rewrite Es, Ec, Ec', Er, Ec1.
      - destruct (parse_elements f r) as [[vs rest']|] eqn:Em; [|discriminate].
        injection H as <- <-. destruct (IHe _ _ _ Em) as [Hl Hf'].
        split; [lia|].
        intros [|f'] Hf; [lia|]. simpl. rewrite Es, Ec, Ec', Er, Ec1.
        rewrite Hf' by lia. reflexivity. }
    pose proof (parse_scalar_length _ _ _ H) as Hl. simpl in Hl.
    split; [lia|].
    intros [|f'] Hf; [lia|]. simpl. now rewrite Es, Ec, Ec'.
  - simpl in H. pose proof (skip_ws_length s) as Hs.
    destruct (skip_ws s) as [|q r] eqn:Es; [discriminate|]. simpl in Hs.
    destruct (q =? 34) eqn:Eq; [|discriminate].
    destruct (parse_string_body r) as [[key r1]|] eqn:Ek; [|discriminate].
    pose proof (parse_string_body_length _ _ _ Ek) as Hk.
    pose proof (skip_ws_length r1) as Hr1.
    destruct (skip_ws r1) as [|colon r2] eqn:Er1; [discriminate|]. simpl in Hr1.
    destruct (colon =? 58) eqn:Ecolon; [|discriminate].
    destruct (parse_value f r2) as [[v r3]|] eqn:Ev; [|discriminate].
    destruct (IHv _ _ _ Ev) as [Hv Hv'].
    pose proof (skip_ws_length r3) as Hr3.
    destruct (skip_ws r3) as [|d r4] eqn:Er3; [discriminate|]. simpl in Hr3.
    destruct (d =? 44) eqn:Ed.
    + destruct (parse_members f r4) as [[ms r5]|] eqn:Em; [|discriminate].
      injection H as <- <-. destruct (IHm _ _ _ Em) as [Hm Hm'].
      split; [lia|].
      intros [|f'] Hf; [lia|]. simpl. rewrite Es, Eq, Ek, Er1, Ecolon.
      rewrite Hv' by lia. rewrite Er3, Ed. rewrite Hm' by lia. reflexivity.
    + destruct (d =? 125) eqn:Ed'; [|discriminate].
      injection H as <- <-. split; [lia|].
      intros [|f'] Hf; [lia|]. simpl. rewrite Es, Eq, Ek, Er1, Ecolon.
      rewrite Hv' by lia. now rewrite Er3, Ed, Ed'.
  - simpl in H.
    destruct (parse_value f s) as [[v r1]|] eqn:Ev; [|discriminate].
    destruct (IHv _ _ _ Ev) as [Hv Hv'].
    pose proof (skip_ws_length r1) as Hr1.
    destruct (skip_ws r1) as [|d r2] eqn:Er1; [discriminate|]. simpl in Hr1.
    destruct (d =? 44) eqn:Ed.
    + destruct (parse_elements f r2) as [[vs r3]|] eqn:Ee; [|discriminate].
      injection H as <- <-. destruct (IHe _ _ _ Ee) as [He He'].
      split; [lia|].
      intros [|f'] Hf; [lia|]. simpl.
      rewrite Hv' by lia. rewrite Er1, Ed. rewrite He' by lia. reflexivity.
    + destruct (d =? 93) eqn:Ed'; [|discriminate].
      injection H as <- <-. split; [lia|].
      intros [|f'] Hf; [lia|]. simpl.
      rewrite Hv' by lia. now rewrite Er1, Ed, Ed'.
Qed.

(** [JSON_parse] supplies enough fuel: whatever some amount of fuel parses,
    [JSON_parse] parses. *)
Lemma JSON_parse_fuel_suffices fuel text v rest :
  parse_value fuel text = Some (v, rest) ->
  skip_ws rest = [] ->
  JSON_parse text = inr v.
Proof.
  intros H Hrest. unfold JSON_parse.
  destruct (proj1 (parse_fuel fuel) _ _ _ H) as [_ Hf].
  rewrite Hf by lia. now rewrite Hrest.
Qed.

(** ** normalizeNodeKey *)

Ltac split_ranges :=
  repeat match goal with
    | |- context [N.leb ?a ?b] => destruct (N.leb_spec a b)
    | |- context [N.eqb ?a ?b] => destruct (N.eqb_spec a b)
    | H : context [N.leb ?a ?b] |- _ => destruct (N.leb_spec a b)
    end;
  simpl in *; try reflexivity; try discriminate; try lia.

Lemma lower_unit_alnum c : is_alnum c = true -> lower_unit c = [c].
Proof. unfold is_alnum, lower_unit. intros H. split_ranges. Qed.

Lemma dash_not_alnum : is_alnum dash = false.
Proof. reflexivity. Qed.

Lemma replace_runs_separated s :
  forall in_run,
    separated (replace_runs in_run s)
    /\ (in_run = true -> head_alnum (replace_runs in_run s)).
Proof.
  induction s as [|c r IH]; intros b; simpl; [auto|].
  destruct (is_alnum c) eqn:Ec.
  - simpl. destruct (IH false) as [Hs _]. auto.
  - destruct b.
    + apply IH.
    + destruct (IH true) as [Hs Hh]. simpl. split; [|discriminate].
      split; [right; auto | exact Hs].
Qed.

Lemma separated_toLowerCase s : separated s -> toLowerCase s = s.
Proof.
  induction s as [|c r IH]; simpl; [reflexivity|].
  intros [Hc Hr]. unfold toLowerCase in *. simpl. rewrite (IH Hr).
  destruct Hc as [Hc | [-> _]]; [now rewrite lower_unit_alnum | reflexivity].
Qed.

Lemma separated_replace_runs s :
  separated s ->
  replace_runs false s = s /\ (head_alnum s -> replace_runs true s = s).
Proof.
  induction s as [|c r IH]; simpl; [auto|].
  intros [Hc Hr]. destruct (IH Hr) as [IHf IHt].
  destruct Hc as [Hc | [-> Hh]].
  - rewrite Hc, IHf. auto.
  - rewrite dash_not_alnum. rewrite (IHt Hh). split; [reflexivity|].
    intros H; discriminate H.
Qed.

Lemma separated_dropWhile p s : separated s -> separated (dropWhile p s).
Proof.
  induction s as [|c r IH]; simpl; [auto|].
  intros H. destruct (p c); [apply IH, H | exact H].
Qed.

Lemma separated_dropWhileEnd p s : separated s -> separated (dropWhileEnd p s).
Proof.
  induction s as [|c r IH]; simpl; [auto|].
  intros [Hc Hr]. specialize (IH Hr).
  destruct (dropWhileEnd p r) as [|d r'] eqn:E.
  - destruct (p c); simpl; [exact I|].
    split; [|exact I]. destruct Hc as [Hc | [-> _]]; auto.
  - split; [|exact IH].
    destruct (dropWhileEnd_head p r d r' E) as [r0 ->].
    destruct Hc as [Hc | [-> Hh]]; auto.
Qed.

Lemma normalizeNodeKey_separated s : separated (normalizeNodeKey s).
Proof.
  unfold normalizeNodeKey.
  apply separated_dropWhileEnd, separated_dropWhile, replace_runs_separated.
Qed.

Lemma normalizeNodeKey_no_leading_dash s :
  match normalizeNodeKey s with [] => True | x :: _ => is_dash x = false end.
Proof.
  unfold normalizeNodeKey.
  set (u := dropWhile is_dash _).
  destruct (dropWhileEnd is_dash u) as [|x r] eqn:E; [exact I|].
  destruct (dropWhileEnd_head _ _ _ _ E) as [r0 Hu].
  exact (dropWhile_head_false _ _ _ _ Hu).
Qed.

(** C5. The query normalization is idempotent: normalizing a key that is
    already normalized leaves it unchanged, for every string; and
    [My Node!!] and [my-node] have the same key. *)
Theorem normalizeNodeKey_idempotent :
  (forall s : jsstring,
      normalizeNodeKey (normalizeNodeKey s) = normalizeNodeKey s)
  /\ normalizeNodeKey (js "My Node!!") = normalizeNodeKey (js "my-node").
Proof.
  split; [|reflexivity].
  intros s.
  pose proof (normalizeNodeKey_separated s) as Hsep.
  pose proof (normalizeNodeKey_no_leading_dash s) as Hhead.
  unfold normalizeNodeKey at 1.
  rewrite (separated_toLowerCase _ Hsep).
  rewrite (proj1 (separated_replace_runs _ Hsep)).
  rewrite (dropWhile_fixed _ _ Hhead).
  unfold normalizeNodeKey. apply dropWhileEnd_idem.
Qed.

(** ** validateA2UIJsonl *)

Lemma push_error_errors e st : errors (push_error e st) = errors st ++ [e].
Proof. reflexivity. Qed.

Lemma filter_length_one {A} (p : A -> bool) (l : list A) :
  List.length (filter p l) = 1%nat -> exists k, filter p l = [k].
Proof.
  destruct (filter p l) as [|k [|k' r]]; simpl; try discriminate.
  intros _. now exists k.
Qed.

(** One call of the callback, in terms of the line it is given. *)
Lemma visit_line_spec st line idx :
  visit_line st line idx =
    Scan (errors st ++ List.map tagged (line_defects idx [line]))
         (sawV08 st || uses_v08 line)
         (sawV09 st || uses_v09 line)
         (messageCount st + (if is_blank line then 0 else 1)).
Proof.
  unfold visit_line, uses_v08, uses_v09, line_action, line_defects, line_defect,
    is_blank, action_key_count, tagged, push_error.
  destruct (is_empty (trim line)) eqn:Eb.
  - simpl. rewrite app_nil_r, !orb_false_r, Nat.add_0_r. now destruct st.
  - destruct (JSON_parse (trim line)) as [err | v]; simpl.
    + rewrite !orb_false_r. reflexivity.
    + destruct v; simpl; rewrite ?orb_false_r; try reflexivity.
      destruct (Nat.eqb (List.length (actionKeys_of members)) 1) eqn:En; simpl.
      * apply Nat.eqb_eq in En.
        destruct (filter_length_one _ _ En) as [k Hk].
        fold (actionKeys_of members) in Hk. rewrite Hk. simpl.
        rewrite app_nil_r.
        destruct (jsstring_eqb k (js "createSurface")); simpl;
          rewrite ?orb_false_r, ?orb_true_r; reflexivity.
      * destruct (actionKeys_of members) as [|k [|k' r]]; simpl in *;
          try discriminate; rewrite ?orb_false_r; reflexivity.
Qed.

(** The whole loop, in terms of the lines it walks over. *)
Lemma forEach_visit_line lines :
  forall idx st,
    forEach visit_line lines idx st =
      Scan (errors st ++ List.map tagged (line_defects idx lines))
           (sawV08 st || existsb uses_v08 lines)
           (sawV09 st || existsb uses_v09 lines)
           (messageCount st + count_nonblank lines).
Proof.
  induction lines as [|l rest IH]; intros idx st.
  - simpl. unfold count_nonblank. simpl.
    rewrite app_nil_r, !orb_false_r, Nat.add_0_r. now destruct st.
  - simpl forEach. rewrite IH, visit_line_spec. simpl.
    unfold count_nonblank. simpl.
    rewrite app_nil_r, map_app, <- !app_assoc, <- !orb_assoc.
    f_equal. destruct (is_blank l); simpl; lia.
Qed.

Lemma scan_lines_spec jsonl :
  scan_lines jsonl =
    Scan (List.map tagged (line_defects 0 (split_lines jsonl)))
         (existsb uses_v08 (split_lines jsonl))
         (existsb uses_v09 (split_lines jsonl))
         (count_nonblank (split_lines jsonl)).
Proof. unfold scan_lines. now rewrite forEach_visit_line. Qed.

Lemma collected_errors_spec jsonl :
  collected_errors jsonl =
    List.map tagged (line_defects 0 (split_lines jsonl))
    ++ stream_violations (split_lines jsonl).
Proof.
  unfold collected_errors, stream_checks, stream_violations.
  rewrite scan_lines_spec. simpl.
  destruct (Nat.eqb (count_nonblank (split_lines jsonl)) 0); simpl;
    destruct (existsb uses_v08 (split_lines jsonl)
              && existsb uses_v09 (split_lines jsonl)); simpl;
    rewrite ?app_nil_r, <- ?app_assoc; reflexivity.
Qed.

Lemma validate_fails jsonl :
  collected_errors jsonl <> [] ->
  validateA2UIJsonl jsonl = inl (invalid_jsonl (collected_errors jsonl)).
Proof.
  unfold validateA2UIJsonl, collected_errors.
  destruct (errors (stream_checks (scan_lines jsonl))); [congruence|reflexivity].
Qed.

Lemma stream_checks_keeps st :
  sawV08 (stream_checks st) = sawV08 st
  /\ sawV09 (stream_checks st) = sawV09 st
  /\ messageCount (stream_checks st) = messageCount st.
Proof.
  unfold stream_checks.
  destruct (Nat.eqb (messageCount st) 0); simpl;
    destruct (sawV08 st && sawV09 st); simpl; auto.
Qed.

Lemma validate_succeeds jsonl :
  collected_errors jsonl = [] ->
  validateA2UIJsonl jsonl =
    inr (if existsb uses_v09 (split_lines jsonl) then v0_9 else v0_8,
         count_nonblank (split_lines jsonl)).
Proof.
  intros H. unfold validateA2UIJsonl. fold (collected_errors jsonl).
  rewrite H. simpl.
  destruct (stream_checks_keeps (scan_lines jsonl)) as (_ & -> & ->).
  now rewrite scan_lines_spec.
Qed.


Lemma in_line_defects lines :
  forall idx i reason,
    In (i, reason) (line_defects idx lines) <->
    (idx <= i)%nat
    /\ exists line, nth_error lines (i - idx) = Some line
                    /\ line_defect line = Some reason.
Proof.
  induction lines as [|l rest IH]; intros idx i reason; simpl.
  - split; [tauto|]. intros (_ & line & H & _). now destruct (i - idx)%nat.
  - rewrite in_app_iff, IH. split.
    + intros [H | (Hle & line & Hn & Hd)].
      * destruct (line_defect l) as [r|] eqn:E; simpl in H; [|tauto].
        destruct H as [H|[]]. injection H as <- <-.
        split; [lia|]. exists l. rewrite Nat.sub_diag. auto.
      * split; [lia|]. exists line. split; [|exact Hd].
        replace (i - idx)%nat with (S (i - S idx)) by lia. exact Hn.
    + intros (Hle & line & Hn & Hd).
      destruct (Nat.eq_dec i idx) as [-> | Hne].
      * rewrite Nat.sub_diag in Hn. simpl in Hn. injection Hn as ->.
        left. rewrite Hd. now left.
      * right. split; [lia|]. exists line. split; [|exact Hd].
        replace (i - idx)%nat with (S (i - S idx)) in Hn by lia. exact Hn.
Qed.



Lemma line_action_well_formed line key :
  well_formed_with line key <-> line_action line = Some key.
Proof.
  unfold well_formed_with, line_action, is_blank. split.
  - intros (Hb & record & -> & ->).
    destruct (is_empty (trim line)) eqn:Eb; [|reflexivity].
    apply is_empty_true in Eb. contradiction.
  - destruct (is_empty (trim line)) eqn:Eb; [discriminate|].
    intros H. split; [intros E; rewrite E in Eb; discriminate|].
    destruct (JSON_parse (trim line)) as [err | v]; [discriminate|].
    destruct v; try discriminate.
    exists members. split; [reflexivity|].
    destruct (actionKeys_of members) as [|k [|k' r]]; try discriminate.
    now injection H as ->.
Qed.

Lemma line_action_no_defect line key :
  line_action line = Some key -> line_defect line = None.
Proof.
  unfold line_action, line_defect, action_key_count.
  destruct (is_blank line); [reflexivity|].
  destruct (JSON_parse (trim line)) as [err | v]; [discriminate|].
  destruct v; try discriminate.
  destruct (actionKeys_of members) as [|k [|k' r]]; try discriminate.
  reflexivity.
Qed.

Lemma is_blank_false line : is_blank line = false <-> trim line <> [].
Proof.
  unfold is_blank. rewrite <- is_empty_true.
  destruct (is_empty (trim line)); split; congruence.
Qed.

Lemma blank_no_defect line : is_blank line = true -> line_defect line = None.
Proof. unfold line_defect. now intros ->. Qed.

Lemma line_defects_none lines :
  (forall line, In line lines -> line_defect line = None) ->
  forall idx, line_defects idx lines = [].
Proof.
  induction lines as [|l rest IH]; intros H idx; simpl; [reflexivity|].
  rewrite (H l (or_introl eq_refl)). simpl. apply IH.
  intros line Hin. apply H. now right.
Qed.

Lemma count_nonblank_pos lines :
  (exists line, In line lines /\ trim line <> []) <->
  (0 < count_nonblank lines)%nat.
Proof.
  unfold count_nonblank. split.
  - intros (line & Hin & Hb).
    assert (Hf : In line (filter (fun l => negb (is_blank l)) lines)).
    { apply filter_In. split; [exact Hin|].
      apply is_blank_false in Hb. now rewrite Hb. }
    destruct (filter _ lines); [destruct Hf | simpl; lia].
  - destruct (filter (fun l => negb (is_blank l)) lines) as [|l r] eqn:E;
      simpl; [lia|]. intros _.
    assert (Hf : In l (filter (fun l => negb (is_blank l)) lines))
      by (rewrite E; now left).
    apply filter_In in Hf. destruct Hf as [Hin Hb].
    exists l. split; [exact Hin|]. apply is_blank_false.
    now destruct (is_blank l).
Qed.

Lemma version_A_key_not_createSurface key :
  In key version_A_keys -> jsstring_eqb key (js "createSurface") = false.
Proof.
  unfold version_A_keys. simpl.
  intros [<- | [<- | [<- | [<- | []]]]]; reflexivity.
Qed.

Lemma tagged_not_no_messages d : tagged d <> no_messages.
Proof. unfold tagged, line_tag, no_messages. cbv [js]. simpl. discriminate. Qed.

Lemma no_defect_well_formed line :
  trim line <> [] -> line_defect line = None ->
  exists key, well_formed_with line key.
Proof.
  intros Hb Hd. apply is_blank_false in Hb.
  unfold line_defect, action_key_count in Hd. rewrite Hb in Hd.
  destruct (JSON_parse (trim line)) as [err | v] eqn:Ep; [discriminate|].
  destruct v; try discriminate.
  destruct (Nat.eqb (List.length (actionKeys_of members)) 1) eqn:En;
    [|discriminate].
  apply Nat.eqb_eq in En.
  destruct (actionKeys_of members) as [|k [|k' r]] eqn:Ek; try discriminate.
  exists k. split; [now apply is_blank_false|].
  exists members. auto.
Qed.

Lemma line_defects_nil lines :
  forall idx, line_defects idx lines = [] ->
              forall line, In line lines -> line_defect line = None.
Proof.
  induction lines as [|l rest IH]; intros idx H line Hin; [destruct Hin|].
  simpl in H. apply app_eq_nil in H. destruct H as [Hl Hrest].
  destruct Hin as [<- | Hin]; [now destruct (line_defect l)|].
  exact (IH _ Hrest _ Hin).
Qed.

Lemma uses_v08_nonblank lines :
  existsb uses_v08 lines = true -> (0 < count_nonblank lines)%nat.
Proof.
  intros H. apply existsb_exists in H. destruct H as (line & Hin & Hu).
  apply count_nonblank_pos. exists line. split; [exact Hin|].
  unfold uses_v08 in Hu. destruct (line_action line) as [key|] eqn:Ea;
    [|discriminate].
  apply line_action_well_formed in Ea. apply Ea.
Qed.


(** C8. Validating the empty string fails with the empty-stream violation.
    So does every input without a non-blank line, and an input none of
    whose non-blank lines parses never succeeds.  A validation that succeeds
    reports the number of non-blank lines as its message count, that number
    is at least one, and every one of these lines parses as a JSON
    object. *)
Theorem validate_never_succeeds_without_messages :
  validateA2UIJsonl [] = inl (invalid_jsonl [no_messages])
  /\ (forall jsonl,
        count_nonblank (split_lines jsonl) = 0%nat ->
        validateA2UIJsonl jsonl = inl (invalid_jsonl [no_messages]))
  /\ (forall jsonl,
        (forall line, In line (split_lines jsonl) -> trim line <> [] ->
                      exists err, JSON_parse (trim line) = inl err) ->
        forall version count, validateA2UIJsonl jsonl <> inr (version, count))
  /\ (forall jsonl version count,
        validateA2UIJsonl jsonl = inr (version, count) ->
        count = count_nonblank (split_lines jsonl)
        /\ (1 <= count)%nat
        /\ forall line, In line (split_lines jsonl) -> trim line <> [] ->
                        exists record,
                          JSON_parse (trim line) = inr (JObject record)).
Proof.
  assert (Hsuccess : forall jsonl version count,
             validateA2UIJsonl jsonl = inr (version, count) ->
             count = count_nonblank (split_lines jsonl)
             /\ (1 <= count)%nat
             /\ forall line, In line (split_lines jsonl) -> trim line <> [] ->
                             exists record,
                               JSON_parse (trim line) = inr (JObject record)).
  { intros jsonl version count H.
    destruct (collected_errors jsonl) as [|e errs] eqn:E;
      [|rewrite validate_fails in H; [discriminate | congruence]].
    rewrite (validate_succeeds _ E) in H. injection H as _ <-.
    rewrite collected_errors_spec in E. apply app_eq_nil in E.
    destruct E as [Ed Es]. apply map_eq_nil in Ed.
    split; [reflexivity|]. split.
    - unfold stream_violations in Es.
      destruct (count_nonblank (split_lines jsonl)); [discriminate | lia].
    - intros line Hin Hb.
      destruct (no_defect_well_formed line Hb (line_defects_nil _ _ Ed _ Hin))
        as (key & _ & record & Hp & _).
      now exists record. }
  split; [reflexivity|]. split; [|split; [|exact Hsuccess]].
  - intros jsonl Hzero.
    assert (E : collected_errors jsonl = [no_messages]).
    { rewrite collected_errors_spec.
      rewrite line_defects_none.
      - unfold stream_violations. rewrite Hzero.
        destruct (existsb uses_v08 (split_lines jsonl)) eqn:E8;
          [|reflexivity].
        apply uses_v08_nonblank in E8. lia.
      - intros line Hin. apply blank_no_defect.
        destruct (is_blank line) eqn:Eb; [reflexivity|].
        apply is_blank_false in Eb.
        assert (0 < count_nonblank (split_lines jsonl))%nat
          by (apply count_nonblank_pos; eauto).
        lia. }
    rewrite validate_fails; rewrite E; [reflexivity | discriminate].
  - intros jsonl Hnone version count H.
    destruct (Hsuccess _ _ _ H) as (-> & Hpos & Hall).
    assert (Hex : exists line, In line (split_lines jsonl) /\ trim line <> [])
      by (apply count_nonblank_pos; lia).
    destruct Hex as (line & Hin & Hb).
    destruct (Hall line Hin Hb) as [record Hp].
    destruct (Hnone line Hin Hb) as [err He]. congruence.
Qed.

(** C10. As soon as the input has one non-blank line the empty-stream
    violation is not reported: every non-blank line is counted as a message
    whether or not it parses.  When every non-blank line fails to parse, the
    collected errors are exactly the per-line violations, one per non-blank
    line, and validation fails with them. *)
Theorem nonblank_input_is_not_an_empty_stream (jsonl : jsstring) :
  (exists line, In line (split_lines jsonl) /\ trim line <> []) ->
  ~ In no_messages (collected_errors jsonl)
  /\ messageCount (scan_lines jsonl) = count_nonblank (split_lines jsonl)
  /\ (0 < messageCount (scan_lines jsonl))%nat
  /\ ((forall line,
          In line (split_lines jsonl) -> trim line <> [] ->
          exists err, JSON_parse (trim line) = inl err) ->
      collected_errors jsonl =
        List.map tagged (line_defects 0 (split_lines jsonl))
      /\ List.length (collected_errors jsonl) = count_nonblank (split_lines jsonl)
      /\ (forall e, In e (collected_errors jsonl) ->
            exists idx line err,
              nth_error (split_lines jsonl) idx = Some line
              /\ JSON_parse (trim line) = inl err
              /\ e = line_tag idx ++ String_of_exn err)
      /\ validateA2UIJsonl jsonl = inl (invalid_jsonl (collected_errors jsonl))).
Proof.
  intros Hne. pose proof (proj1 (count_nonblank_pos _) Hne) as Hpos.
  assert (Hcount : messageCount (scan_lines jsonl)
                   = count_nonblank (split_lines jsonl))
    by now rewrite scan_lines_spec.
  assert (Hstream : forall e, In e (stream_violations (split_lines jsonl)) ->
                              e = mixed_versions).
  { unfold stream_violations. intros e.
    destruct (count_nonblank (split_lines jsonl)); [lia|]. simpl.
    destruct (existsb uses_v08 _ && existsb uses_v09 _); simpl; intuition. }
  split; [|split; [exact Hcount | split; [lia|]]].
  - rewrite collected_errors_spec. intros H. apply in_app_or in H.
    destruct H as [H | H].
    + apply in_map_iff in H. destruct H as (d & Hd & _).
      exact (tagged_not_no_messages d Hd).
    + apply Hstream in H. discriminate H.
  - intros Hbad.
    assert (Hdef : forall line, In line (split_lines jsonl) ->
               line_action line = None
               /\ ((is_blank line = true /\ line_defect line = None)
                   \/ (is_blank line = false
                       /\ exists err, JSON_parse (trim line) = inl err
                            /\ line_defect line = Some (String_of_exn err)))).
    { intros line Hin. unfold line_defect, line_action.
      destruct (is_blank line) eqn:Eb; [auto|].
      destruct (Hbad line Hin (proj1 (is_blank_false _) Eb)) as [err Hp].
      rewrite Hp. split; [reflexivity|]. right. eauto. }
    assert (Hv8 : existsb uses_v08 (split_lines jsonl) = false).
    { apply not_true_is_false. intros H. apply existsb_exists in H.
      destruct H as (line & Hin & Hu). unfold uses_v08 in Hu.
      now rewrite (proj1 (Hdef line Hin)) in Hu. }
    assert (Herr : collected_errors jsonl
                   = List.map tagged (line_defects 0 (split_lines jsonl))).
    { rewrite collected_errors_spec. unfold stream_violations. rewrite Hv8.
      destruct (count_nonblank (split_lines jsonl)); [lia|].
      simpl. apply app_nil_r. }
    split; [exact Herr|]. split; [|split].
    + rewrite Herr, length_map. clear - Hdef.
      generalize 0%nat. unfold count_nonblank.
      induction (split_lines jsonl) as [|l rest IH]; intros idx;
        simpl; [reflexivity|].
      rewrite length_app, IH by (intros; apply Hdef; now right).
      destruct (Hdef l (or_introl eq_refl))
        as [_ [[-> ->] | (-> & err & _ & ->)]]; reflexivity.
    + intros e He. rewrite Herr in He. apply in_map_iff in He.
      destruct He as ([idx reason] & <- & Hd).
      apply in_line_defects in Hd. rewrite Nat.sub_0_r in Hd.
      destruct Hd as (_ & line & Hn & Hr).
      pose proof (nth_error_In _ _ Hn) as Hin.
      destruct (Hdef line Hin) as [_ [[_ Hl] | (_ & err & Hp & Hl)]];
        rewrite Hl in Hr; [discriminate|].
      injection Hr as <-. exists idx, line, err. auto.
    + apply validate_fails. rewrite Herr.
      destruct Hne as (line & Hin & Hb).
      apply is_blank_false in Hb.
      destruct (Hdef line Hin) as [_ [[Hl _] | (_ & err & Hp & Hl)]];
        [congruence|].
      destruct (In_nth_error _ _ Hin) as [idx Hn].
      assert (Hd : In (idx, String_of_exn err)
                      (line_defects 0 (split_lines jsonl))).
      { apply in_line_defects. split; [lia|]. rewrite Nat.sub_0_r. eauto. }
      intros E. apply (in_map tagged) in Hd. rewrite E in Hd. destruct Hd.
Qed.

Lemma well_formed_stream_no_defects lines :
  (forall line, In line lines -> trim line <> [] ->
                exists key, well_formed_with line key) ->
  forall idx, line_defects idx lines = [].
Proof.
  intros H. apply line_defects_none. intros line Hin.
  destruct (is_blank line) eqn:Eb; [now apply blank_no_defect|].
  destruct (H line Hin (proj1 (is_blank_false _) Eb)) as [key Hk].
  apply line_action_well_formed in Hk. exact (line_action_no_defect _ _ Hk).
Qed.

(** C2, amended.  Take an input whose non-blank lines are all objects with
    exactly one action key.  If it has at least one non-blank line and every
    action key is a version-A key, validation succeeds with version v0.8 and
    a message count equal to the number of non-blank lines.  If one line
    uses [createSurface] and another a version-A key, validation fails, and
    the mixed-versions violation is the only one reported. *)
Theorem well_formed_stream_verdict (jsonl : jsstring) :
  (forall line, In line (split_lines jsonl) -> trim line <> [] ->
                exists key, well_formed_with line key) ->
  ((exists line, In line (split_lines jsonl) /\ trim line <> []) ->
   (forall line key, In line (split_lines jsonl) ->
                     well_formed_with line key -> In key version_A_keys) ->
   validateA2UIJsonl jsonl = inr (v0_8, count_nonblank (split_lines jsonl)))
  /\ ((exists line, In line (split_lines jsonl)
                    /\ well_formed_with line (js "createSurface")) ->
      (exists line key, In line (split_lines jsonl)
                        /\ well_formed_with line key
                        /\ In key version_A_keys) ->
      validateA2UIJsonl jsonl = inl (invalid_jsonl [mixed_versions])).
Proof.
  intros Hwf. pose proof (well_formed_stream_no_defects _ Hwf 0%nat) as Hnone.
  split.
  - intros Hne HA. apply count_nonblank_pos in Hne.
    assert (H9 : existsb uses_v09 (split_lines jsonl) = false).
    { apply not_true_is_false. intros H. apply existsb_exists in H.
      destruct H as (line & Hin & Hu). unfold uses_v09 in Hu.
      destruct (line_action line) as [key|] eqn:Ea; [|discriminate].
      apply line_action_well_formed in Ea.
      rewrite (version_A_key_not_createSurface _ (HA _ _ Hin Ea)) in Hu.
      discriminate. }
    rewrite validate_succeeds; [now rewrite H9|].
    rewrite collected_errors_spec, Hnone. unfold stream_violations.
    rewrite H9, andb_false_r.
    destruct (count_nonblank (split_lines jsonl)); [lia | reflexivity].
  - intros (l9 & Hin9 & Hw9) (l8 & key & Hin8 & Hw8 & Hkey).
    assert (H9 : existsb uses_v09 (split_lines jsonl) = true).
    { apply existsb_exists. exists l9. split; [exact Hin9|].
      unfold uses_v09. apply line_action_well_formed in Hw9.
      now rewrite Hw9. }
    assert (H8 : existsb uses_v08 (split_lines jsonl) = true).
    { apply existsb_exists. exists l8. split; [exact Hin8|].
      unfold uses_v08. apply line_action_well_formed in Hw8.
      now rewrite Hw8, (version_A_key_not_createSurface _ Hkey). }
    assert (Hpos : (0 < count_nonblank (split_lines jsonl))%nat).
    { apply count_nonblank_pos. exists l9. split; [exact Hin9 | apply Hw9]. }
    assert (E : collected_errors jsonl = [mixed_versions]).
    { rewrite collected_errors_spec, Hnone. unfold stream_violations.
      rewrite H8, H9.
      destruct (count_nonblank (split_lines jsonl)); [lia | reflexivity]. }
    rewrite validate_fails; rewrite E; [reflexivity | discriminate].
Qed.

(** C2 as stated fails on the empty input: it has no non-blank line, so all
    of them are well formed and all action keys are version-A keys, yet
    validation does not succeed. *)
Lemma empty_input_is_not_a_version_A_stream :
  (forall line, In line (split_lines []) -> trim line <> [] ->
                exists key, well_formed_with line key)
  /\ (forall line key, In line (split_lines []) ->
                       well_formed_with line key -> In key version_A_keys)
  /\ validateA2UIJsonl [] <> inr (v0_8, count_nonblank (split_lines [])).
Proof.
  split; [|split].
  - intros line [<- | []] H. now destruct H.
  - intros line key [<- | []] [H _]. now destruct H.
  - discriminate.
Qed.

Ltac line_is_well_formed key :=
  exists key; split;
  [ vm_compute; discriminate
  | eexists; split; vm_compute; reflexivity ].

Lemma well_formed_stream_verdict_witness :
  validateA2UIJsonl stream_A = inr (v0_8, 2%nat)
  /\ validateA2UIJsonl stream_mixed = inl (invalid_jsonl [mixed_versions]).
Proof.
  split.
  - refine (proj1 (well_formed_stream_verdict stream_A _) _ _).
    + intros line [<- | [<- | []]] _;
        [ line_is_well_formed (js "beginRendering")
        | line_is_well_formed (js "surfaceUpdate") ].
    + exists (jsq "{'beginRendering':{'surfaceId':'main','root':'root'}}").
      split; [now left | vm_compute; discriminate].
    + intros line key [<- | [<- | []]] (_ & record & Hp & Hk);
        vm_compute in Hp; injection Hp as <-; vm_compute in Hk;
        injection Hk as <-; vm_compute; tauto.
  - refine (proj2 (well_formed_stream_verdict stream_mixed _) _ _).
    + intros line [<- | [<- | []]] _;
        [ line_is_well_formed (js "createSurface")
        | line_is_well_formed (js "beginRendering") ].
    + exists (jsq "{'createSurface':{}}"). split; [now left|].
      split; [vm_compute; discriminate|]. eexists. split; vm_compute; reflexivity.
    + exists (jsq "{'beginRendering':{}}"), (js "beginRendering").
      split; [right; now left|]. split; [|now left].
      split; [vm_compute; discriminate|]. eexists. split; vm_compute; reflexivity.
Defined.


Lemma validate_never_succeeds_without_messages_witness :
  validateA2UIJsonl (js "  " ++ LF ++ [13; 10; 9])
  = inl (invalid_jsonl [no_messages])
  /\ (forall version count,
        validateA2UIJsonl stream_garbage <> inr (version, count))
  /\ 2%nat = count_nonblank (split_lines stream_A) /\ (1 <= 2)%nat.
Proof.
  split; [|split].
  - exact (proj1 (proj2 validate_never_succeeds_without_messages)
             (js "  " ++ LF ++ [13; 10; 9]) eq_refl).
  - apply (proj1 (proj2 (proj2 validate_never_succeeds_without_messages))).
    intros line [<- | [<- | [<- | [<- | []]]]] Hb;
      try (exfalso; apply Hb; vm_compute; reflexivity);
      eexists; vm_compute; reflexivity.
  - assert (H : validateA2UIJsonl stream_A = inr (v0_8, 2%nat))
      by (vm_compute; reflexivity).
    destruct (proj2 (proj2 (proj2 validate_never_succeeds_without_messages))
                stream_A v0_8 2%nat H) as (Hc & Hp & _).
    split; [exact Hc | exact Hp].
Defined.

Lemma nonblank_input_is_not_an_empty_stream_witness :
  ~ In no_messages (collected_errors stream_garbage)
  /\ List.length (collected_errors stream_garbage) = 3%nat.
Proof.
  assert (Hne : exists line,
             In line (split_lines stream_garbage) /\ trim line <> []).
  { exists (js "not json"). split; [now left | vm_compute; discriminate]. }
  destruct (nonblank_input_is_not_an_empty_stream stream_garbage Hne)
    as (Hno & _ & _ & Hall).
  split; [exact Hno|].
  refine (proj1 (proj2 (Hall _))).
  intros line [<- | [<- | [<- | [<- | []]]]] Hb;
    try (exfalso; apply Hb; vm_compute; reflexivity);
    eexists; vm_compute; reflexivity.
Defined.

(** ** pickDefaultNode and resolveNodeId *)

Lemma filter_filter {A} (p q : A -> bool) (l : list A) :
  filter p (filter q l) = filter (fun x => p x && q x) l.
Proof.
  induction l as [|x l IH]; simpl; [reflexivity|].
  destruct (q x); simpl; rewrite ?andb_true_r, ?andb_false_r;
    [destruct (p x)|]; now rewrite IH.
Qed.

Lemma filter_none {A} (p : A -> bool) (l : list A) :
  (forall x, In x l -> p x = false) -> filter p l = [].
Proof.
  induction l as [|x l IH]; simpl; intros H; [reflexivity|].
  rewrite (H x (or_introl eq_refl)). apply IH. intros y Hy. apply H. now right.
Qed.

Lemma pickDefaultNode_single_connected nodes n :
  filter (fun m => is_connected m && has_canvas m) nodes = [n] ->
  pickDefaultNode nodes = Some n.
Proof.
  intros H. rewrite <- filter_filter in H. unfold pickDefaultNode.
  destruct (filter has_canvas nodes) as [|c cs] eqn:E; [discriminate|].
  simpl List.length at 1. simpl Nat.eqb. cbv iota.
  now rewrite H.
Qed.

Lemma pickDefaultNode_single_capable nodes n :
  (forall m, In m nodes -> is_connected m = false) ->
  filter has_canvas nodes = [n] ->
  pickDefaultNode nodes = Some n.
Proof.
  intros Hnc H. unfold pickDefaultNode. rewrite H.
  rewrite filter_none; [reflexivity|].
  intros m [<- | []]. apply Hnc.
  assert (Hin : In n (filter has_canvas nodes)) by (rewrite H; now left).
  now apply filter_In in Hin.
Qed.

(** C4. With an empty or absent query: if exactly one node is both connected
    and capable, default resolution returns its id; and if no node is
    connected and exactly one node is capable, default resolution returns
    the id of that node. *)
Theorem default_resolution_picks_the_single_candidate
  (nodes : list NodeListNode) (query : option jsstring) (n : NodeListNode) :
  query = None \/ query = Some [] ->
  (filter (fun m => is_connected m && has_canvas m) nodes = [n] ->
   resolveNodeId_in nodes query = inr (nodeId n))
  /\ ((forall m, In m nodes -> is_connected m = false) ->
      filter has_canvas nodes = [n] ->
      resolveNodeId_in nodes query = inr (nodeId n)).
Proof.
  intros Hq.
  assert (Hd : resolveNodeId_in nodes query =
               match pickDefaultNode nodes with
               | Some picked => inr (nodeId picked)
               | None => inl node_required
               end)
    by (destruct Hq as [-> | ->]; reflexivity).
  rewrite Hd. split.
  - intros H. now rewrite (pickDefaultNode_single_connected _ _ H).
  - intros Hnc H. now rewrite (pickDefaultNode_single_capable _ _ Hnc H).
Qed.

Lemma default_resolution_picks_the_single_candidate_witness :
  resolveNodeId_in studio_directory None = inr (js "mac-123")
  /\ resolveNodeId_in idle_directory (Some []) = inr (js "pc-7").
Proof.
  split.
  - refine (proj1 (default_resolution_picks_the_single_candidate
                     studio_directory None
                     (nth 0 studio_directory (bare_node [])) _) _);
      [now left | reflexivity].
  - refine (proj2 (default_resolution_picks_the_single_candidate
                     idle_directory (Some [])
                     (nth 1 idle_directory (bare_node [])) _) _ _);
      [now right | | reflexivity].
    intros m [<- | [<- | []]]; reflexivity.
Defined.

Lemma resolveNodeId_in_default nodes query :
  trim (query_text query) = [] ->
  resolveNodeId_in nodes query =
    match pickDefaultNode nodes with
    | Some picked => inr (nodeId picked)
    | None => inl node_required
    end.
Proof. unfold resolveNodeId_in. now intros ->. Qed.

Lemma resolveNodeId_in_explicit nodes query :
  trim (query_text query) <> [] ->
  resolveNodeId_in nodes query =
    match filter (node_matches (trim (query_text query))) nodes with
    | [only] => inr (nodeId only)
    | [] => inl (unknown_node (trim (query_text query)) nodes)
    | matches => inl (ambiguous_node (trim (query_text query)) matches)
    end.
Proof.
  unfold resolveNodeId_in. intros H.
  destruct (trim (query_text query)) as [|c q]; [congruence|]. simpl is_empty.
  cbv iota. now destruct (filter _ nodes) as [|a [|b r]].
Qed.

(** The four ways a node matches an explicit query. *)
Lemma node_matches_iff q n :
  node_matches q n = true <->
  nodeId n = q
  \/ remoteIp n = Some q
  \/ (exists name, displayName n = Some name /\ name <> []
                   /\ normalizeNodeKey name = normalizeNodeKey q)
  \/ ((6 <= str_length q)%nat /\ startsWith (nodeId n) q = true).
Proof.
  unfold node_matches.
  destruct (jsstring_eqb (nodeId n) q) eqn:Eid.
  { apply jsstring_eqb_eq in Eid. tauto. }
  apply jsstring_eqb_neq in Eid.
  assert (Hip : match remoteIp n with
                | Some ip => jsstring_eqb ip q
                | None => false
                end = true <-> remoteIp n = Some q).
  { destruct (remoteIp n) as [ip|]; [|split; discriminate].
    rewrite jsstring_eqb_eq. split; congruence. }
  destruct (match remoteIp n with Some ip => jsstring_eqb ip q | None => false end).
  { split; [intros _; right; left; now apply Hip | reflexivity]. }
  assert (Hname :
    negb (is_empty match displayName n with Some d => d | None => [] end)
    && jsstring_eqb
         (normalizeNodeKey match displayName n with Some d => d | None => [] end)
         (normalizeNodeKey q) = true
    <-> exists name, displayName n = Some name /\ name <> []
                     /\ normalizeNodeKey name = normalizeNodeKey q).
  { rewrite andb_true_iff, negb_true_iff, jsstring_eqb_eq. split.
    - intros [He Hk]. destruct (displayName n) as [d|]; [|discriminate].
      exists d. split; [reflexivity|]. split; [|exact Hk].
      intros ->. discriminate.
    - intros (name & -> & Hn & Hk). split; [|exact Hk].
      destruct name; [congruence | reflexivity]. }
  destruct (negb _ && _).
  { split; [intros _; right; right; left; now apply Hname | reflexivity]. }
  destruct (Nat.leb 6 (str_length q) && startsWith (nodeId n) q) eqn:Ep.
  - apply andb_true_iff in Ep. destruct Ep as [Hl Hs].
    apply Nat.leb_le in Hl. split; [intros _ | reflexivity].
    right; right; right. auto.
  - split; [discriminate|].
    intros [H | [H | [H | [Hl Hs]]]].
    + contradiction.
    + apply Hip in H. discriminate.
    + apply Hname in H. discriminate.
    + apply Nat.leb_le in Hl. rewrite Hl, Hs in Ep. discriminate.
Qed.

(** C7, amended.  Default selection has a single failure: when no node is
    capable, and when several candidates are left after the connected
    filter and the local-platform tie-break does not single one out,
    resolution fails with the same [node required] error. *)
Theorem default_selection_fails_with_node_required
  (nodes : list NodeListNode) (query : option jsstring) :
  trim (query_text query) = [] ->
  (filter has_canvas nodes = [] ->
   resolveNodeId_in nodes query = inl node_required)
  /\ ((2 <= List.length (default_candidates nodes))%nat ->
      List.length (filter is_local (default_candidates nodes)) <> 1%nat ->
      resolveNodeId_in nodes query = inl node_required).
Proof.
  intros Hq. rewrite (resolveNodeId_in_default _ _ Hq).
  unfold pickDefaultNode, default_candidates. split.
  - now intros ->.
  - destruct (Nat.eqb (List.length (filter has_canvas nodes)) 0);
      [reflexivity|].
    destruct (if Nat.ltb 0 (List.length (filter is_connected (filter has_canvas nodes)))
              then filter is_connected (filter has_canvas nodes)
              else filter has_canvas nodes) as [|a [|b r]] eqn:E;
      simpl List.length at 1; intros H2 H1; try lia.
    destruct (filter is_local (a :: b :: r)) as [|x [|y l]];
      simpl in H1; congruence.
Qed.

(** C7 as stated fails: a directory without a capable node and a directory
    with two tied candidates make resolution fail with one and the same
    error, so the two failure modes are not distinguished. *)
Lemma default_failures_are_not_distinguished :
  filter has_canvas camera_directory = []
  /\ (2 <= List.length (default_candidates twin_directory))%nat
  /\ filter is_local (default_candidates twin_directory) = []
  /\ resolveNodeId_in camera_directory None = inl node_required
  /\ resolveNodeId_in twin_directory None = inl node_required
  /\ ~ (resolveNodeId_in camera_directory None
        <> resolveNodeId_in twin_directory None).
Proof.
  split; [reflexivity|].
  split; [change (2 <= 2)%nat; lia|].
  split; [reflexivity|].
  split; [reflexivity|].
  split; [reflexivity|].
  intros H. apply H. reflexivity.
Qed.

Lemma default_selection_fails_with_node_required_witness :
  resolveNodeId_in camera_directory (Some (js "  ")) = inl node_required
  /\ resolveNodeId_in twin_directory None = inl node_required.
Proof.
  split.
  - refine (proj1 (default_selection_fails_with_node_required
                     camera_directory (Some (js "  ")) _) _); reflexivity.
  - refine (proj2 (default_selection_fails_with_node_required
                     twin_directory None _) _ _);
      [reflexivity | change (2 <= 2)%nat; lia | discriminate].
Defined.

Lemma ambiguous_is_not_unknown q matches nodes :
  ambiguous_node q matches <> unknown_node q nodes.
Proof.
  unfold ambiguous_node, unknown_node, Error. intros H. injection H as H.
  change (js "ambiguous node: ") with ([97] ++ js "mbiguous node: ") in H.
  change (js "unknown node: ") with ([117] ++ js "nknown node: ") in H.
  simpl in H. discriminate H.
Qed.




(** C6, amended.  When the trimmed query is non-empty and equals the exact
    id or the exact remote address of a node, that node matches whatever
    the display names are, and resolution never fails with the
    unknown-node error: it returns the node's id when the node is the only
    match, and fails with the ambiguous-node error, listing all matches,
    when another node matches too. *)
Theorem exact_id_or_address_matches
  (nodes : list NodeListNode) (query : jsstring) (n : NodeListNode) :
  trim query <> [] ->
  In n nodes ->
  nodeId n = trim query \/ remoteIp n = Some (trim query) ->
  node_matches (trim query) n = true
  /\ (List.length (filter (node_matches (trim query)) nodes) = 1%nat ->
      resolveNodeId_in nodes (Some query) = inr (nodeId n))
  /\ (List.length (filter (node_matches (trim query)) nodes) <> 1%nat ->
      resolveNodeId_in nodes (Some query)
      = inl (ambiguous_node (trim query)
               (filter (node_matches (trim query)) nodes)))
  /\ resolveNodeId_in nodes (Some query)
     <> inl (unknown_node (trim query) nodes).
Proof.
  intros Hq Hin Hexact.
  assert (Hm : node_matches (trim query) n = true)
    by (apply node_matches_iff; tauto).
  assert (Hf : In n (filter (node_matches (trim query)) nodes))
    by (apply filter_In; auto).
  rewrite (resolveNodeId_in_explicit nodes (Some query) Hq). simpl query_text.
  split; [exact Hm|].
  destruct (filter (node_matches (trim query)) nodes) as [|a [|b r]];
    [destruct Hf | |].
  - destruct Hf as [-> | []].
    split; [reflexivity|]. split; [intros H; now elim H | discriminate].
  - split; [discriminate|]. split; [reflexivity|].
    intros H.
    apply (ambiguous_is_not_unknown (trim query) (a :: b :: r) nodes).
    congruence.
Qed.

(** C6 as stated fails: the query [node-b] is the exact id of the second
    node, but the display name of the first node normalizes to the same
    text, so two nodes match and resolution fails as ambiguous. *)
Lemma exact_id_can_be_ambiguous :
  (exists n, In n namesake_directory /\ nodeId n = js "node-b")
  /\ resolveNodeId_in namesake_directory (Some (js "node-b"))
     = inl (ambiguous_node (js "node-b") namesake_directory)
  /\ resolveNodeId_in namesake_directory (Some (js "node-b"))
     <> inr (js "node-b").
Proof.
  split; [exists (bare_node (js "node-b")); split; [right; now left | reflexivity]|].
  split; [reflexivity | discriminate].
Qed.

Lemma exact_id_or_address_matches_witness :
  resolveNodeId_in tablet_directory (Some (js " 10.0.0.5 "))
  = inr (js "tablet-4f2a91").
Proof.
  refine (proj1 (proj2 (exact_id_or_address_matches tablet_directory
                          (js " 10.0.0.5 ")
                          (nth 0 tablet_directory (bare_node [])) _ _ _)) _).
  - discriminate.
  - now left.
  - right. reflexivity.
  - reflexivity.
Defined.

(** ** The a2ui push action *)

Lemma createSurface_stream_is_v0_9 jsonl :
  (exists line, In line (split_lines jsonl) /\ trim line <> []) ->
  (forall line, In line (split_lines jsonl) -> trim line <> [] ->
                well_formed_with line (js "createSurface")) ->
  validateA2UIJsonl jsonl = inr (v0_9, count_nonblank (split_lines jsonl)).
Proof.
  intros Hne Hall.
  assert (Hnone : line_defects 0 (split_lines jsonl) = []).
  { apply well_formed_stream_no_defects. intros line Hin Hb.
    exists (js "createSurface"). auto. }
  assert (H9 : existsb uses_v09 (split_lines jsonl) = true).
  { destruct Hne as (line & Hin & Hb). apply existsb_exists.
    exists line. split; [exact Hin|]. unfold uses_v09.
    now rewrite (proj1 (line_action_well_formed _ _) (Hall line Hin Hb)). }
  assert (H8 : existsb uses_v08 (split_lines jsonl) = false).
  { apply not_true_is_false. intros H. apply existsb_exists in H.
    destruct H as (line & Hin & Hu). unfold uses_v08 in Hu.
    destruct (is_blank line) eqn:Eb.
    - unfold line_action in Hu. now rewrite Eb in Hu.
    - apply is_blank_false in Eb.
      rewrite (proj1 (line_action_well_formed _ _) (Hall line Hin Eb)) in Hu.
      discriminate Hu. }
  apply count_nonblank_pos in Hne.
  rewrite validate_succeeds; [now rewrite H9|].
  rewrite collected_errors_spec, Hnone. unfold stream_violations. rewrite H8.
  destruct (count_nonblank (split_lines jsonl)); [lia | reflexivity].
Qed.

Section PushAction.

Variable callGateway : jsstring -> json -> exn + reply.
Variable readFile : jsstring -> exn + jsstring.
Variable randomIdempotencyKey : jsstring.
Variables (opts : CanvasOpts) (path jsonl : jsstring).

Hypothesis no_text : opt_text opts = None.
Hypothesis from_file : opt_jsonl opts = Some path.
Hypothesis path_given : path <> [].
Hypothesis file_read : readFile path = inr jsonl.

Let push := a2ui_push callGateway readFile randomIdempotencyKey opts.

(** What the action does once the payload is read, by validation result. *)
Lemma a2ui_push_after_validation :
  push =
    try_catch
      (checked <- lift (validateA2UIJsonl jsonl) ;;
       let '(version, messageCount) := checked in
       (match version with
        | v0_9 => throw unsupported_version
        | v0_8 => ret tt
        end) ;;;
       invokeCanvas callGateway randomIdempotencyKey opts
         (js "canvas.a2ui.pushJSONL")
         (Some (JObject [(js "jsonl", JString jsonl)])) ;;;
       if negb (opt_json opts) then
         emit (RuntimeLog
                 (js "canvas a2ui push ok (v0.8, "
                  ++ Number_toString messageCount ++ js " message"
                  ++ (if Nat.eqb messageCount 1 then [] else js "s")
                  ++ js ")"))
       else ret tt)
      (fun err =>
         emit (RuntimeError
                 (js "canvas a2ui push failed: " ++ String_of_exn err)) ;;;
         emit (RuntimeExit 1)).
Proof.
  unfold push, a2ui_push. rewrite no_text, from_file.
  destruct path as [|c p]; [congruence|]. simpl is_empty. simpl negb.
  simpl Bool.eqb. cbv iota. rewrite file_read.
  unfold bind at 1. unfold ret at 1. cbv iota beta.
  unfold bind at 1. unfold lift at 1. cbv iota beta.
  destruct (bind (lift (validateA2UIJsonl jsonl)) _) as [t r].
  reflexivity.
Qed.

(** A payload that fails validation is reported and never forwarded. *)
Lemma a2ui_push_invalid err :
  validateA2UIJsonl jsonl = inl err ->
  push = ([RuntimeError (js "canvas a2ui push failed: " ++ String_of_exn err);
           RuntimeExit 1], inr tt).
Proof.
  intros H. rewrite a2ui_push_after_validation, H. reflexivity.
Qed.

Lemma a2ui_push_v0_9 count :
  validateA2UIJsonl jsonl = inr (v0_9, count) ->
  push = ([RuntimeError (js "canvas a2ui push failed: "
                         ++ String_of_exn unsupported_version);
           RuntimeExit 1], inr tt).
Proof.
  intros H. rewrite a2ui_push_after_validation, H. reflexivity.
Qed.

End PushAction.

Lemma unsupported_version_is_not_invalid_jsonl errs :
  exn_message unsupported_version <> exn_message (invalid_jsonl errs).
Proof.
  unfold unsupported_version, invalid_jsonl, Error. simpl exn_message.
  change (js "Detected A2UI v0.9 JSONL (createSurface). Clawdbot currently supports v0.8 only.")
    with ([68] ++ js "etected A2UI v0.9 JSONL (createSurface). Clawdbot currently supports v0.8 only.").
  change (js "Invalid A2UI JSONL:") with ([73] ++ js "nvalid A2UI JSONL:").
  simpl. discriminate.
Qed.

(** C9. A payload read from the file given with [--jsonl] that is
    structurally valid and consists only of [createSurface] messages
    validates as v0.9; the push action then reports the unsupported-version
    error, whose message differs from every aggregated validation failure,
    exits with status 1, and performs no gateway call. *)
Theorem unsupported_version_is_rejected_before_dispatch
  (callGateway : jsstring -> json -> exn + reply)
  (readFile : jsstring -> exn + jsstring)
  (randomIdempotencyKey : jsstring)
  (opts : CanvasOpts) (path jsonl : jsstring) :
  opt_text opts = None ->
  opt_jsonl opts = Some path ->
  path <> [] ->
  readFile path = inr jsonl ->
  (exists line, In line (split_lines jsonl) /\ trim line <> []) ->
  (forall line, In line (split_lines jsonl) -> trim line <> [] ->
                well_formed_with line (js "createSurface")) ->
  validateA2UIJsonl jsonl = inr (v0_9, count_nonblank (split_lines jsonl))
  /\ a2ui_push callGateway readFile randomIdempotencyKey opts
     = ([RuntimeError (js "canvas a2ui push failed: "
                       ++ String_of_exn unsupported_version);
         RuntimeExit 1], inr tt)
  /\ (forall errs,
         exn_message unsupported_version <> exn_message (invalid_jsonl errs))
  /\ (forall method params,
         ~ In (GatewayCall method params)
              (trace_of (a2ui_push callGateway readFile randomIdempotencyKey
                           opts))).
Proof.
  intros Htext Hfile Hpath Hread Hne Hall.
  pose proof (createSurface_stream_is_v0_9 jsonl Hne Hall) as Hv.
  pose proof (a2ui_push_v0_9 callGateway readFile randomIdempotencyKey
                opts path jsonl Htext Hfile Hpath Hread _ Hv) as Hpush.
  split; [exact Hv|]. split; [exact Hpush|].
  split; [exact unsupported_version_is_not_invalid_jsonl|].
  intros method params. rewrite Hpush. simpl.
  intros [H | [H | []]]; discriminate H.
Qed.

Lemma unsupported_version_is_rejected_before_dispatch_witness :
  a2ui_push studio_gateway (fun _ => inr stream_B) (js "key-1") push_file_opts
  = ([RuntimeError (js "canvas a2ui push failed: "
                    ++ String_of_exn unsupported_version);
      RuntimeExit 1], inr tt).
Proof.
  refine (proj1 (proj2 (unsupported_version_is_rejected_before_dispatch
                          studio_gateway (fun _ => inr stream_B) (js "key-1")
                          push_file_opts (js "payload.jsonl") stream_B
                          _ _ _ _ _ _))).
  - reflexivity.
  - reflexivity.
  - discriminate.
  - reflexivity.
  - exists (jsq "{'createSurface':{'surfaceId':'main'}}").
    split; [now left | vm_compute; discriminate].
  - intros line [<- | [<- | []]] _;
      (split; [vm_compute; discriminate
              | eexists; split; vm_compute; reflexivity]).
Defined.

(** ** The scenarios of the specification, evaluated *)

Example normalizeNodeKey_studio :
  normalizeNodeKey (js "Studio Mac") = js "studio-mac".
Proof. reflexivity. Qed.

Example trim_padded : trim (js "  mac  ") = js "mac".
Proof. reflexivity. Qed.

Example split_lines_crlf :
  split_lines (js "a" ++ [13; 10] ++ js "b" ++ LF ++ [13]) = [js "a"; js "b"; [13]].
Proof. reflexivity. Qed.

Example JSON_parse_nested :
  JSON_parse (jsq " {'a': [1, -2.5e3, true, null, 'xA\n'], 'b': {}} ")
  = inr (JObject
           [(js "a", JArray [JNumber (js "1"); JNumber (js "-2.5e3"); JBool true;
                             JNull; JString (js "xA" ++ LF)]);
            (js "b", JObject [])]).
Proof. vm_compute. reflexivity. Qed.

Example JSON_parse_rejects_trailing_comma :
  JSON_parse (jsq "{'a': 1,}") = inl JSON_SyntaxError.
Proof. vm_compute. reflexivity. Qed.

Example scenario_A : validateA2UIJsonl stream_A = inr (v0_8, 2%nat).
Proof. vm_compute. reflexivity. Qed.

Example scenario_B :
  validateA2UIJsonl stream_mixed = inl (invalid_jsonl [mixed_versions]).
Proof. vm_compute. reflexivity. Qed.

Example scenario_D :
  resolveNodeId_in studio_directory (Some (js "studio mac")) = inr (js "mac-123").
Proof. reflexivity. Qed.

Example broken_stream_reports_lines_2_and_5 :
  collected_errors stream_broken
  = [js "line 2: SyntaxError: Unexpected token in JSON";
     js "line 5: expected JSON object"].
Proof. vm_compute. reflexivity. Qed.

Example text_payload_validates :
  validateA2UIJsonl (buildA2UITextJsonl (jsq "say 'hi'")) = inr (v0_8, 2%nat).
Proof. vm_compute. reflexivity. Qed.

(** A version-A payload is forwarded: the directory is fetched, the node is
    resolved and the command is invoked once. *)
Example push_of_version_A_reaches_the_gateway :
  a2ui_push studio_gateway (fun _ => inr stream_A) (js "key-1") push_file_opts
  = ([GatewayCall (js "node.list") (JObject []);
      GatewayCall (js "node.invoke")
        (JObject [(js "nodeId", JString (js "mac-123"));
                  (js "command", JString (js "canvas.a2ui.pushJSONL"));
                  (js "params", JObject [(js "jsonl", JString stream_A)]);
                  (js "idempotencyKey", JString (js "key-1"))]);
      RuntimeLog (js "canvas a2ui push ok (v0.8, 2 messages)")],
     inr tt).
Proof. vm_compute. reflexivity. Qed.

Example push_of_broken_stream_is_not_forwarded :
  a2ui_push studio_gateway (fun _ => inr stream_broken) (js "key-1")
    push_file_opts
  = ([RuntimeError
        (js "canvas a2ui push failed: "
         ++ String_of_exn (invalid_jsonl (collected_errors stream_broken)));
      RuntimeExit 1], inr tt).
Proof. vm_compute. reflexivity. Qed.

(** * Further properties *)

(** ** validateA2UIJsonl: when it succeeds and how much it reports *)

Lemma well_formed_with_functional line key key' :
  well_formed_with line key -> well_formed_with line key' -> key = key'.
Proof.
  intros H H'. apply line_action_well_formed in H, H'. congruence.
Qed.

Lemma line_defects_length lines :
  forall idx, (List.length (line_defects idx lines) <= count_nonblank lines)%nat.
Proof.
  unfold count_nonblank.
  induction lines as [|l rest IH]; intros idx; simpl; [lia|].
  rewrite length_app. specialize (IH (S idx)).
  destruct (is_blank l) eqn:Eb; simpl.
  - rewrite (blank_no_defect _ Eb). simpl. lia.
  - destruct (line_defect l); simpl; lia.
Qed.

Lemma key_version_v0_8 key : key_version key = v0_8 <-> key <> js "createSurface".
Proof.
  unfold key_version. rewrite <- jsstring_eqb_neq.
  destruct (jsstring_eqb key (js "createSurface")); split; congruence.
Qed.

Lemma key_version_v0_9 key : key_version key = v0_9 <-> key = js "createSurface".
Proof.
  unfold key_version. rewrite <- jsstring_eqb_eq.
  destruct (jsstring_eqb key (js "createSurface")); split; congruence.
Qed.

Lemma uses_v09_exists lines :
  existsb uses_v09 lines = true <->
  exists line, In line lines /\ well_formed_with line (js "createSurface").
Proof.
  rewrite existsb_exists. split.
  - intros (line & Hin & Hu). exists line. split; [exact Hin|].
    unfold uses_v09 in Hu. destruct (line_action line) as [k|] eqn:Ea;
      [|discriminate].
    apply jsstring_eqb_eq in Hu. subst k. now apply line_action_well_formed.
  - intros (line & Hin & Hw). exists line. split; [exact Hin|].
    unfold uses_v09. apply line_action_well_formed in Hw. now rewrite Hw.
Qed.

Lemma uses_v08_exists lines :
  existsb uses_v08 lines = true <->
  exists line key, In line lines /\ well_formed_with line key
                   /\ key <> js "createSurface".
Proof.
  rewrite existsb_exists. split.
  - intros (line & Hin & Hu). unfold uses_v08 in Hu.
    destruct (line_action line) as [k|] eqn:Ea; [|discriminate].
    exists line, k. split; [exact Hin|].
    split; [now apply line_action_well_formed|].
    apply jsstring_eqb_neq. now destruct (jsstring_eqb k (js "createSurface")).
  - intros (line & k & Hin & Hw & Hk). exists line. split; [exact Hin|].
    unfold uses_v08. apply line_action_well_formed in Hw. rewrite Hw.
    apply jsstring_eqb_neq in Hk. now rewrite Hk.
Qed.

(** When validation succeeds, stated on the lines of the input. *)
Lemma validate_succeeds_on_well_formed jsonl version count :
  (forall line, In line (split_lines jsonl) -> trim line <> [] ->
                exists key, well_formed_with line key) ->
  count = count_nonblank (split_lines jsonl) ->
  (0 < count)%nat ->
  (forall line key, In line (split_lines jsonl) ->
                    well_formed_with line key -> key_version key = version) ->
  validateA2UIJsonl jsonl = inr (version, count).
Proof.
  set (lines := split_lines jsonl).
  pose proof (uses_v09_exists lines) as Hv9.
  pose proof (uses_v08_exists lines) as Hv8.
  intros Hwf -> Hpos Hver.
  pose proof (well_formed_stream_no_defects _ Hwf 0%nat) as Hnone.
  fold lines in Hnone, Hpos |- *.
  assert (E9 : existsb uses_v09 lines
               = match version with v0_9 => true | v0_8 => false end).
  { destruct (existsb uses_v09 lines).
    - destruct (proj1 Hv9 eq_refl) as (line & Hin & Hw).
      rewrite <- (Hver _ _ Hin Hw). reflexivity.
    - destruct version; [reflexivity|].
      apply count_nonblank_pos in Hpos. destruct Hpos as (line & Hin & Hb).
      destruct (Hwf line Hin Hb) as [key Hw].
      pose proof (Hver _ _ Hin Hw) as Hk. apply key_version_v0_9 in Hk.
      subst key. apply Hv9. eauto. }
  assert (Hmix : existsb uses_v08 lines && existsb uses_v09 lines = false).
  { rewrite E9. destruct (existsb uses_v08 lines); [|reflexivity]. simpl.
    destruct (proj1 Hv8 eq_refl) as (line & key & Hin & Hw & Hk).
    pose proof (Hver _ _ Hin Hw) as Hkv.
    destruct version; [reflexivity|].
    apply key_version_v0_9 in Hkv. contradiction. }
  rewrite validate_succeeds.
  + fold lines. rewrite E9. now destruct version.
  + rewrite collected_errors_spec. fold lines. rewrite Hnone.
    unfold stream_violations. rewrite Hmix.
    destruct (count_nonblank lines); [lia | reflexivity].
Qed.

(** X1. Validation succeeds with a version and a count exactly when every
    non-blank line is an object with one action key, the count is the
    number of non-blank lines and is positive, and every action key belongs
    to the returned version. *)
Theorem validate_success_characterised
  (jsonl : jsstring) (version : A2UIVersion) (count : nat) :
  validateA2UIJsonl jsonl = inr (version, count) <->
  (forall line, In line (split_lines jsonl) -> trim line <> [] ->
                exists key, well_formed_with line key)
  /\ count = count_nonblank (split_lines jsonl)
  /\ (0 < count)%nat
  /\ (forall line key, In line (split_lines jsonl) ->
                       well_formed_with line key -> key_version key = version).
Proof.
  split; [|intros (Hwf & Hc & Hpos & Hver);
           now apply validate_succeeds_on_well_formed].
  set (lines := split_lines jsonl).
  pose proof (uses_v09_exists lines) as Hv9.
  pose proof (uses_v08_exists lines) as Hv8.
  intros H.
  destruct (collected_errors jsonl) as [|e errs] eqn:E;
    [|rewrite validate_fails in H; [discriminate | congruence]].
  rewrite (validate_succeeds _ E) in H. fold lines in H.
  rewrite collected_errors_spec in E. fold lines in E.
  apply app_eq_nil in E. destruct E as [Ed Es].
  apply map_eq_nil in Ed. unfold stream_violations in Es.
  destruct (Nat.eqb (count_nonblank lines) 0) eqn:Ec; [discriminate|].
  apply Nat.eqb_neq in Ec. simpl in Es.
  assert (Hwf : forall line, In line lines -> trim line <> [] ->
                  exists key, well_formed_with line key).
  { intros line Hin Hb. apply no_defect_well_formed; [exact Hb|].
    exact (line_defects_nil _ _ Ed _ Hin). }
  destruct (existsb uses_v08 lines);
    destruct (existsb uses_v09 lines); simpl in Es; try discriminate;
    injection H as <- <-; (split; [exact Hwf|]);
    (split; [reflexivity|]); (split; [lia|]); intros line key Hin Hw.
  + apply key_version_v0_8. intros ->.
    assert (false = true) by (apply Hv9; eauto). discriminate.
  + apply key_version_v0_9.
    destruct (list_eq_dec N.eq_dec key (js "createSurface")) as [-> | Hne];
      [reflexivity|].
    assert (false = true) by (apply Hv8; eauto). discriminate.
  + apply key_version_v0_8. intros ->.
    assert (false = true) by (apply Hv9; eauto). discriminate.
Qed.

Lemma validate_success_characterised_witness :
  (forall line key, In line (split_lines stream_B) ->
                    well_formed_with line key -> key_version key = v0_9)
  /\ validateA2UIJsonl stream_B = inr (v0_9, 2%nat).
Proof.
  assert (H : validateA2UIJsonl stream_B = inr (v0_9, 2%nat))
    by (vm_compute; reflexivity).
  split; [|exact H].
  exact (proj2 (proj2 (proj2
           (proj1 (validate_success_characterised stream_B v0_9 2%nat) H)))).
Defined.

(** X2. The validator reports at most one violation per non-blank line and
    at most one stream-level violation: the empty-stream and the
    mixed-versions violations never occur together. *)
Theorem validate_error_budget (jsonl : jsstring) :
  (List.length (collected_errors jsonl)
   <= count_nonblank (split_lines jsonl) + 1)%nat
  /\ ~ (In no_messages (collected_errors jsonl)
        /\ In mixed_versions (collected_errors jsonl)).
Proof.
  rewrite collected_errors_spec.
  set (lines := split_lines jsonl).
  pose proof (line_defects_length lines 0%nat) as Hd.
  unfold stream_violations.
  destruct (Nat.eqb (count_nonblank lines) 0) eqn:Ec.
  - apply Nat.eqb_eq in Ec.
    assert (E8 : existsb uses_v08 lines = false).
    { destruct (existsb uses_v08 lines) eqn:E8; [|reflexivity].
      apply uses_v08_nonblank in E8. lia. }
    rewrite E8. simpl. split.
    + rewrite length_app, length_map. simpl. lia.
    + intros [_ H]. apply in_app_or in H. destruct H as [H | [H | []]].
      * apply in_map_iff in H. destruct H as (d & Hd' & Hin).
        assert (Hl : List.length (line_defects 0 lines) = 0%nat) by lia.
        destruct (line_defects 0 lines); [destruct Hin | discriminate].
      * discriminate H.
  - split.
    + rewrite length_app, length_map. simpl.
      destruct (existsb uses_v08 lines && existsb uses_v09 lines); simpl; lia.
    + intros [H _]. apply in_app_or in H. destruct H as [H | H].
      * apply in_map_iff in H. destruct H as (d & Hd' & _).
        exact (tagged_not_no_messages d Hd').
      * simpl in H.
        destruct (existsb uses_v08 lines && existsb uses_v09 lines);
          simpl in H; [destruct H as [H | []]; discriminate H | destruct H].
Qed.

(** ** normalizeNodeKey: the shape of a key *)

Lemma dropWhileEnd_last {A} (p : A -> bool) (l : list A) :
  forall r x, dropWhileEnd p l = r ++ [x] -> p x = false.
Proof.
  induction l as [|y l IH]; intros r x; simpl.
  - destruct r; discriminate.
  - destruct (dropWhileEnd p l) as [|z l'] eqn:E.
    + destruct (p y) eqn:Py; [destruct r; discriminate|].
      destruct r as [|a [|b r]]; simpl; intros H; try discriminate.
      now injection H as <-.
    + destruct r as [|a r]; simpl; intros H; [discriminate|].
      injection H as _ H. exact (IH r x H).
Qed.

Lemma separated_chars s :
  separated s -> Forall (fun c => is_alnum c = true \/ c = dash) s.
Proof.
  induction s as [|c r IH]; simpl; [constructor|].
  intros [Hc Hr]. constructor; [tauto | auto].
Qed.

Lemma separated_no_double_dash a b : ~ separated (a ++ dash :: dash :: b).
Proof.
  induction a as [|c a IH]; simpl.
  - intros [[H | [_ H]] _]; [discriminate H | discriminate H].
  - intros [_ H]. exact (IH H).
Qed.

(** X3. A normalized key consists of the characters a-z, 0-9 and the dash
    only; it neither starts nor ends with a dash and never has two dashes in
    a row. *)
Theorem normalizeNodeKey_shape (s : jsstring) :
  Forall (fun c => is_alnum c = true \/ c = dash) (normalizeNodeKey s)
  /\ (forall r, normalizeNodeKey s <> dash :: r)
  /\ (forall r, normalizeNodeKey s <> r ++ [dash])
  /\ (forall a b, normalizeNodeKey s <> a ++ dash :: dash :: b).
Proof.
  pose proof (normalizeNodeKey_separated s) as Hsep.
  split; [exact (separated_chars _ Hsep)|]. split; [|split].
  - intros r E. pose proof (normalizeNodeKey_no_leading_dash s) as H.
    rewrite E in H. discriminate H.
  - intros r E. unfold normalizeNodeKey in E.
    apply dropWhileEnd_last in E. discriminate E.
  - intros a b E. rewrite E in Hsep. exact (separated_no_double_dash _ _ Hsep).
Qed.

Lemma replace_runs_no_alnum s :
  Forall (fun c => is_alnum c = false) s ->
  forall in_run, dropWhile is_dash (replace_runs in_run s) = [].
Proof.
  induction 1 as [|c r Hc Hr IH]; intros b; simpl; [reflexivity|].
  rewrite Hc. destruct b; [apply IH|]. simpl. apply IH.
Qed.

Lemma replace_runs_keeps_alnum s c :
  is_alnum c = true -> In c s -> forall in_run, In c (replace_runs in_run s).
Proof.
  intros Hc. induction s as [|d r IH]; intros Hin b; [destruct Hin|].
  simpl. destruct Hin as [-> | Hin].
  - rewrite Hc. now left.
  - destruct (is_alnum d); [right; now apply IH|].
    destruct b; [now apply IH | right; now apply IH].
Qed.

Lemma dropWhile_keeps {A} (p : A -> bool) (l : list A) x :
  p x = false -> In x l -> In x (dropWhile p l).
Proof.
  intros Hx. induction l as [|y l IH]; intros Hin; [destruct Hin|].
  simpl. destruct (p y) eqn:Py; [|exact Hin].
  destruct Hin as [-> | Hin]; [congruence | auto].
Qed.

Lemma dropWhileEnd_keeps {A} (p : A -> bool) (l : list A) x :
  p x = false -> In x l -> In x (dropWhileEnd p l).
Proof.
  intros Hx. induction l as [|y l IH]; intros Hin; [destruct Hin|].
  simpl. destruct Hin as [-> | Hin].
  - destruct (dropWhileEnd p l); [rewrite Hx|]; now left.
  - specialize (IH Hin). destruct (dropWhileEnd p l); [destruct IH | now right].
Qed.

Lemma alnum_not_dash c : is_alnum c = true -> is_dash c = false.
Proof.
  unfold is_dash, dash. intros H. destruct (N.eqb_spec c 45); [|reflexivity].
  subst c. discriminate H.
Qed.

Lemma normalizeNodeKey_empty_iff s :
  normalizeNodeKey s = [] <->
  Forall (fun c => is_alnum c = false) (toLowerCase s).
Proof.
  unfold normalizeNodeKey. split.
  - intros E. apply Forall_forall. intros c Hin.
    destruct (is_alnum c) eqn:Hc; [|reflexivity].
    pose proof (replace_runs_keeps_alnum _ _ Hc Hin false) as H1.
    apply (dropWhile_keeps is_dash _ _ (alnum_not_dash _ Hc)) in H1.
    apply (dropWhileEnd_keeps is_dash _ _ (alnum_not_dash _ Hc)) in H1.
    rewrite E in H1. destruct H1.
  - intros H. now rewrite (replace_runs_no_alnum _ H false).
Qed.

(** X4. A string has the empty key exactly when lower-casing leaves no
    character of a-z or 0-9 in it.  So a node whose non-empty display name
    has no such character matches every non-empty query that has none
    either, whatever the two texts are. *)
Theorem symbol_only_names_match_symbol_only_queries :
  (forall s, normalizeNodeKey s = [] <->
             Forall (fun c => is_alnum c = false) (toLowerCase s))
  /\ (forall q n name,
         displayName n = Some name -> name <> [] ->
         Forall (fun c => is_alnum c = false) (toLowerCase name) ->
         Forall (fun c => is_alnum c = false) (toLowerCase q) ->
         node_matches q n = true).
Proof.
  split; [exact normalizeNodeKey_empty_iff|].
  intros q n name Hd Hne Hname Hq. apply node_matches_iff.
  right; right; left. exists name. split; [exact Hd|]. split; [exact Hne|].
  rewrite (proj2 (normalizeNodeKey_empty_iff name) Hname).
  now rewrite (proj2 (normalizeNodeKey_empty_iff q) Hq).
Qed.

Lemma symbol_only_names_match_symbol_only_queries_witness :
  node_matches (js "?!") (nth 1 symbol_directory (bare_node [])) = true.
Proof.
  refine (proj2 symbol_only_names_match_symbol_only_queries (js "?!")
            (nth 1 symbol_directory (bare_node [])) [24037; 20316; 23460]
            _ _ _ _).
  - reflexivity.
  - discriminate.
  - repeat constructor.
  - repeat constructor.
Defined.

(** ** resolveNodeId: white space, soundness, order of the directory *)

Lemma trim_idempotent s : trim (trim s) = trim s.
Proof.
  unfold trim at 1.
  assert (Hhead : match trim s with
                  | [] => True
                  | x :: _ => is_js_space x = false
                  end).
  { unfold trim. destruct (dropWhileEnd _ _) as [|x r] eqn:E; [exact I|].
    destruct (dropWhileEnd_head _ _ _ _ E) as [r0 Hu].
    exact (dropWhile_head_false _ _ _ _ Hu). }
  rewrite (dropWhile_fixed _ _ Hhead). unfold trim. apply dropWhileEnd_idem.
Qed.

(** X5. Resolution ignores white space around the query: a query and its
    trimmed form resolve alike, and a query of white space only resolves
    like an absent query. *)
Theorem resolution_ignores_surrounding_space
  (nodes : list NodeListNode) (query : jsstring) :
  resolveNodeId_in nodes (Some query) = resolveNodeId_in nodes (Some (trim query))
  /\ (trim query = [] ->
      resolveNodeId_in nodes (Some query) = resolveNodeId_in nodes None).
Proof.
  unfold resolveNodeId_in. simpl query_text. rewrite trim_idempotent.
  split; [reflexivity|]. intros ->. reflexivity.
Qed.

Lemma resolution_ignores_surrounding_space_witness :
  resolveNodeId_in studio_directory (Some (js "   "))
  = resolveNodeId_in studio_directory None.
Proof.
  exact (proj2 (resolution_ignores_surrounding_space studio_directory (js "   "))
           eq_refl).
Defined.

Lemma filter_singleton_in {A} (p : A -> bool) (l : list A) x :
  filter p l = [x] -> In x l /\ p x = true.
Proof.
  intros H. apply filter_In. rewrite H. now left.
Qed.

Lemma pickDefaultNode_cases nodes n :
  pickDefaultNode nodes = Some n ->
  default_candidates nodes = [n]
  \/ ((2 <= List.length (default_candidates nodes))%nat
      /\ filter is_local (default_candidates nodes) = [n]).
Proof.
  unfold pickDefaultNode, default_candidates.
  destruct (Nat.eqb (List.length (filter has_canvas nodes)) 0); [discriminate|].
  destruct (if Nat.ltb 0 (List.length (filter is_connected (filter has_canvas nodes)))
            then filter is_connected (filter has_canvas nodes)
            else filter has_canvas nodes) as [|a [|b r]].
  - simpl. discriminate.
  - intros H. injection H as <-. now left.
  - destruct (filter is_local (a :: b :: r)) as [|x [|y l]]; try discriminate.
    intros H. injection H as <-. right. split; [simpl; lia | reflexivity].
Qed.

Lemma default_candidates_sound nodes n :
  In n (default_candidates nodes) ->
  In n nodes /\ has_canvas n = true
  /\ ((exists m, In m nodes /\ has_canvas m = true /\ is_connected m = true) ->
      is_connected n = true).
Proof.
  unfold default_candidates.
  destruct (filter is_connected (filter has_canvas nodes)) as [|c cs] eqn:E.
  - simpl. intros H. apply filter_In in H. destruct H as [Hin Hc].
    split; [exact Hin|]. split; [exact Hc|].
    intros (m & Hm & Hcap & Hcon).
    assert (Hf : In m (filter is_connected (filter has_canvas nodes))).
    { apply filter_In. split; [apply filter_In; auto | exact Hcon]. }
    rewrite E in Hf. destruct Hf.
  - simpl Nat.ltb. cbv iota. rewrite <- E. intros H.
    apply filter_In in H. destruct H as [H Hcon].
    apply filter_In in H. destruct H as [Hin Hc]. auto.
Qed.

(** X6. The node picked by default is a node of the directory that offers
    the canvas; it is connected whenever some canvas node is connected; and
    when it had to win the tie-break among several candidates it is a local
    Mac (platform starting with mac, id starting with mac-). *)
Theorem pickDefaultNode_sound (nodes : list NodeListNode) (n : NodeListNode) :
  pickDefaultNode nodes = Some n ->
  In n nodes
  /\ has_canvas n = true
  /\ ((exists m, In m nodes /\ has_canvas m = true /\ is_connected m = true) ->
      is_connected n = true)
  /\ ((2 <= List.length (default_candidates nodes))%nat -> is_local n = true).
Proof.
  intros H. apply pickDefaultNode_cases in H.
  assert (Hc : In n (default_candidates nodes)).
  { destruct H as [H | [_ H]]; [rewrite H; now left|].
    now apply filter_singleton_in in H. }
  destruct (default_candidates_sound _ _ Hc) as (Hin & Hcap & Hcon).
  repeat (split; [assumption|]).
  intros H2. destruct H as [H | [_ H]].
  - rewrite H in H2. simpl in H2. lia.
  - now apply filter_singleton_in in H.
Qed.

Lemma pickDefaultNode_sound_witness :
  is_connected (nth 0 studio_directory (bare_node [])) = true.
Proof.
  refine (proj1 (proj2 (proj2 (pickDefaultNode_sound studio_directory
            (nth 0 studio_directory (bare_node [])) eq_refl))) _).
  exists (nth 0 studio_directory (bare_node [])).
  split; [now left|]. split; reflexivity.
Defined.

Lemma resolveNodeId_in_inr nodes query id :
  resolveNodeId_in nodes query = inr id ->
  exists n, In n nodes /\ nodeId n = id
            /\ (trim (query_text query) = [] -> pickDefaultNode nodes = Some n)
            /\ (trim (query_text query) <> [] ->
                filter (node_matches (trim (query_text query))) nodes = [n]).
Proof.
  intros H. destruct (trim (query_text query)) as [|c q] eqn:Eq.
  - rewrite resolveNodeId_in_default in H by exact Eq.
    destruct (pickDefaultNode nodes) as [n|] eqn:Ep; [|discriminate].
    injection H as <-. exists n.
    destruct (pickDefaultNode_cases _ _ Ep) as [Hc | [_ Hc]].
    + assert (Hin : In n (default_candidates nodes)) by (rewrite Hc; now left).
      apply default_candidates_sound in Hin.
      split; [apply Hin|]. split; [reflexivity|]. split; congruence.
    + apply filter_singleton_in in Hc. destruct Hc as [Hin _].
      apply default_candidates_sound in Hin.
      split; [apply Hin|]. split; [reflexivity|]. split; congruence.
  - rewrite resolveNodeId_in_explicit in H by (rewrite Eq; discriminate).
    rewrite Eq in H.
    destruct (filter (node_matches (c :: q)) nodes) as [|n [|m r]] eqn:Ef;
      try discriminate.
    injection H as <-. exists n.
    destruct (filter_singleton_in _ _ _ Ef) as [Hin _].
    split; [exact Hin|]. split; [reflexivity|]. split; [discriminate | auto].
Qed.

(** X7. Resolution never invents an id: an id it returns is the id of a
    node of the directory.  For an explicit query that node matches the
    trimmed query and is the only element of the directory that does. *)
Theorem resolution_returns_a_directory_node
  (nodes : list NodeListNode) (query : option jsstring) (id : jsstring) :
  resolveNodeId_in nodes query = inr id ->
  exists n,
    In n nodes /\ nodeId n = id
    /\ (trim (query_text query) <> [] ->
        node_matches (trim (query_text query)) n = true
        /\ filter (node_matches (trim (query_text query))) nodes = [n]).
Proof.
  intros H. destruct (resolveNodeId_in_inr _ _ _ H) as (n & Hin & Hid & _ & He).
  exists n. split; [exact Hin|]. split; [exact Hid|].
  intros Hq. specialize (He Hq). split; [|exact He].
  now apply filter_singleton_in in He.
Qed.

Lemma resolution_returns_a_directory_node_witness :
  exists n, In n studio_directory /\ nodeId n = js "mac-123".
Proof.
  destruct (resolution_returns_a_directory_node studio_directory
              (Some (js "studio mac")) (js "mac-123") eq_refl)
    as (n & Hin & Hid & _).
  exists n. split; assumption.
Defined.

Lemma filter_Permutation {A} (p : A -> bool) (l l' : list A) :
  Permutation l l' -> Permutation (filter p l) (filter p l').
Proof.
  induction 1 as [|x l l' _ IH|x y l|l l' l'' _ IH1 _ IH2]; simpl.
  - constructor.
  - destruct (p x); [now constructor | exact IH].
  - destruct (p x), (p y); try apply Permutation_refl.
    apply perm_swap.
  - exact (Permutation_trans IH1 IH2).
Qed.

Lemma default_candidates_Permutation nodes nodes' :
  Permutation nodes nodes' ->
  Permutation (default_candidates nodes) (default_candidates nodes').
Proof.
  intros H. unfold default_candidates.
  pose proof (filter_Permutation has_canvas _ _ H) as Hc.
  pose proof (filter_Permutation is_connected _ _ Hc) as Hcon.
  rewrite <- (Permutation_length Hcon).
  now destruct (Nat.ltb 0 _).
Qed.

Lemma pickDefaultNode_by_candidates nodes :
  pickDefaultNode nodes =
    match default_candidates nodes with
    | [only] => Some only
    | candidates =>
        match filter is_local candidates with
        | [only] => Some only
        | _ => None
        end
    end.
Proof.
  unfold pickDefaultNode, default_candidates.
  destruct (filter has_canvas nodes) as [|c cs] eqn:E; [reflexivity|].
  simpl List.length at 1. simpl Nat.eqb. cbv iota.
  now destruct (if Nat.ltb 0 _ then _ else _) as [|a [|b r]].
Qed.

Lemma pickDefaultNode_Permutation nodes nodes' n :
  Permutation nodes nodes' ->
  pickDefaultNode nodes = Some n -> pickDefaultNode nodes' = Some n.
Proof.
  intros HP H. pose proof (default_candidates_Permutation _ _ HP) as Hc.
  rewrite pickDefaultNode_by_candidates.
  destruct (pickDefaultNode_cases _ _ H) as [E | [H2 E]].
  - rewrite E in Hc. apply Permutation_length_1_inv in Hc. now rewrite Hc.
  - pose proof (filter_Permutation is_local _ _ Hc) as Hl.
    rewrite E in Hl. apply Permutation_length_1_inv in Hl.
    rewrite (Permutation_length Hc) in H2.
    destruct (default_candidates nodes') as [|a [|b r]]; simpl in H2; try lia.
    now rewrite Hl.
Qed.

Lemma resolveNodeId_in_Permutation nodes nodes' query id :
  Permutation nodes nodes' ->
  resolveNodeId_in nodes query = inr id ->
  resolveNodeId_in nodes' query = inr id.
Proof.
  intros HP H. destruct (resolveNodeId_in_inr _ _ _ H) as (n & _ & <- & Hd & He).
  destruct (trim (query_text query)) as [|c q] eqn:Eq.
  - rewrite resolveNodeId_in_default by exact Eq.
    now rewrite (pickDefaultNode_Permutation _ _ _ HP (Hd eq_refl)).
  - rewrite resolveNodeId_in_explicit by (rewrite Eq; discriminate).
    rewrite Eq.
    pose proof (filter_Permutation (node_matches (c :: q)) _ _ HP) as Hf.
    rewrite He in Hf by discriminate.
    apply Permutation_length_1_inv in Hf. now rewrite Hf.
Qed.

(** X8. Whether resolution succeeds, and with which id, does not depend on
    the order in which the directory lists its nodes. *)
Theorem resolution_is_order_independent
  (nodes nodes' : list NodeListNode) (query : option jsstring) (id : jsstring) :
  Permutation nodes nodes' ->
  (resolveNodeId_in nodes query = inr id <->
   resolveNodeId_in nodes' query = inr id).
Proof.
  intros HP. split; apply resolveNodeId_in_Permutation;
    [exact HP | exact (Permutation_sym HP)].
Qed.

Lemma resolution_is_order_independent_witness :
  resolveNodeId_in (rev studio_directory) (Some (js "studio mac"))
  = inr (js "mac-123").
Proof.
  refine (proj1 (resolution_is_order_independent studio_directory
                   (rev studio_directory) (Some (js "studio mac"))
                   (js "mac-123") _) eq_refl).
  apply Permutation_rev.
Defined.

(** ** loadNodes, resolveNodeId and invokeCanvas *)

Lemma loadNodes_primary callGateway opts r :
  callGateway (js "node.list") (JObject []) = inr r ->
  loadNodes callGateway opts
  = ([GatewayCall (js "node.list") (JObject [])], inr (parseNodeList r)).
Proof.
  intros H. unfold loadNodes, callGatewayCli, bind, emit, lift, try_catch, ret.
  now rewrite H.
Qed.

Lemma loadNodes_fallback callGateway opts e :
  callGateway (js "node.list") (JObject []) = inl e ->
  loadNodes callGateway opts
  = ([GatewayCall (js "node.list") (JObject []);
      GatewayCall (js "node.pair.list") (JObject [])],
     match callGateway (js "node.pair.list") (JObject []) with
     | inl e' => inl e'
     | inr r => inr (List.map node_of_paired (paired (parsePairingList r)))
     end).
Proof.
  intros H. unfold loadNodes, callGatewayCli, bind, emit, lift, try_catch, ret.
  rewrite H. simpl.
  now destruct (callGateway (js "node.pair.list") (JObject [])).
Qed.

Lemma paired_nodes_plain ps :
  filter has_canvas (List.map node_of_paired ps) = List.map node_of_paired ps
  /\ filter is_connected (List.map node_of_paired ps) = []
  /\ filter is_local (List.map node_of_paired ps) = [].
Proof.
  induction ps as [|p ps (IH1 & IH2 & IH3)]; simpl; [auto|].
  now rewrite IH1, IH2, IH3.
Qed.

Lemma pickDefaultNode_of_paired ps :
  pickDefaultNode (List.map node_of_paired ps)
  = match ps with
    | [p] => Some (node_of_paired p)
    | _ => None
    end.
Proof.
  destruct (paired_nodes_plain ps) as (Hc & Hcon & Hloc).
  rewrite pickDefaultNode_by_candidates. unfold default_candidates.
  rewrite Hc, Hcon.
  change (if Nat.ltb 0 (List.length (@nil NodeListNode))
          then [] else List.map node_of_paired ps)
    with (List.map node_of_paired ps).
  destruct ps as [|p [|q r]]; [reflexivity | reflexivity |].
  cbn [List.map] in *. cbv iota. now rewrite Hloc.
Qed.

(** X9. When [node.list] fails, the directory is taken from the paired
    entries of [node.pair.list]: pending requests are left out, every paired
    node counts as capable and none as connected or local.  Default
    resolution then succeeds exactly when one node is paired, after the two
    gateway calls and no other. *)
Theorem default_resolution_on_pairing_fallback
  (callGateway : jsstring -> json -> exn + reply) (opts : CanvasOpts)
  (e : exn) (r : reply) :
  callGateway (js "node.list") (JObject []) = inl e ->
  callGateway (js "node.pair.list") (JObject []) = inr r ->
  resolveNodeId callGateway opts None
  = ([GatewayCall (js "node.list") (JObject []);
      GatewayCall (js "node.pair.list") (JObject [])],
     match paired (parsePairingList r) with
     | [p] => inr (paired_nodeId p)
     | _ => inl node_required
     end).
Proof.
  intros H1 H2. unfold resolveNodeId.
  rewrite (loadNodes_fallback _ _ _ H1), H2.
  unfold bind, lift. rewrite app_nil_r. f_equal.
  rewrite resolveNodeId_in_default by reflexivity.
  rewrite pickDefaultNode_of_paired.
  now destruct (paired (parsePairingList r)) as [|p [|q l]].
Qed.

Lemma default_resolution_on_pairing_fallback_witness :
  resolveNodeId pairing_gateway plain_opts None
  = ([GatewayCall (js "node.list") (JObject []);
      GatewayCall (js "node.pair.list") (JObject [])],
     inr (js "mac-123")).
Proof.
  exact (default_resolution_on_pairing_fallback pairing_gateway plain_opts
           (Error (js "unknown method"))
           {| reply_nodes := None;
              reply_pending :=
                Some [ {| pending_requestId := js "req-1";
                          pending_nodeId := js "ipad-9";
                          pending_displayName := None;
                          pending_remoteIp := None |} ];
              reply_paired :=
                Some [ {| paired_nodeId := js "mac-123";
                          paired_displayName := Some (js "Studio Mac");
                          paired_remoteIp := None |} ] |}
           eq_refl eq_refl).
Defined.

Lemma loadNodes_trace callGateway opts :
  forall method params,
    In (GatewayCall method params) (trace_of (loadNodes callGateway opts)) ->
    method = js "node.list" \/ method = js "node.pair.list".
Proof.
  intros method params.
  destruct (callGateway (js "node.list") (JObject [])) as [e | r] eqn:E.
  - rewrite (loadNodes_fallback _ _ _ E). simpl.
    intros [H | [H | []]]; injection H as <- _; auto.
  - rewrite (loadNodes_primary _ _ _ E). simpl.
    intros [H | []]; injection H as <- _; auto.
Qed.

(** The trace and result of [invokeCanvas], by what the directory fetch and
    the resolution gave. *)
Lemma invokeCanvas_unfold callGateway key opts command params :
  invokeCanvas callGateway key opts command params
  = match loadNodes callGateway opts with
    | (t, inl e) => (t, inl e)
    | (t, inr nodes) =>
        match resolveNodeId_in nodes (opt_node opts) with
        | inl e => (t, inl e)
        | inr id =>
            (t ++ [GatewayCall (js "node.invoke")
                     (invoke_envelope key id command params)],
             match callGateway (js "node.invoke")
                     (invoke_envelope key id command params) with
             | inl e => inl e
             | inr _ => inr tt
             end)
        end
    end.
Proof.
  unfold invokeCanvas, resolveNodeId, callGatewayCli, invoke_envelope,
    bind, emit, lift, ret.
  destruct (loadNodes callGateway opts) as [t [e | nodes]]; [reflexivity|].
  destruct (resolveNodeId_in nodes (opt_node opts)) as [e | id];
    [now rewrite app_nil_r|].
  simpl.
  destruct (callGateway (js "node.invoke") _); now rewrite !app_nil_r.
Qed.

(** X10. [invokeCanvas] sends a command only to a resolved node: a
    [node.invoke] call in its trace means the directory was loaded, the
    node option resolved to the id of one of its nodes, and the envelope
    carries that id, the command, the parameters and the idempotency key.
    No other gateway method than the two directory fetches is called, and
    [node.invoke] is called at most once. *)
Theorem invokeCanvas_invokes_only_resolved_nodes
  (callGateway : jsstring -> json -> exn + reply) (key : jsstring)
  (opts : CanvasOpts) (command : jsstring) (params : option json) :
  (forall method envelope,
      In (GatewayCall method envelope)
         (trace_of (invokeCanvas callGateway key opts command params)) ->
      method = js "node.list" \/ method = js "node.pair.list"
      \/ (method = js "node.invoke"
          /\ exists t nodes id n,
               loadNodes callGateway opts = (t, inr nodes)
               /\ resolveNodeId_in nodes (opt_node opts) = inr id
               /\ In n nodes /\ nodeId n = id
               /\ envelope = invoke_envelope key id command params))
  /\ (List.length
        (filter (fun ev => match ev with
                           | GatewayCall method _ =>
                               jsstring_eqb method (js "node.invoke")
                           | _ => false
                           end)
           (trace_of (invokeCanvas callGateway key opts command params)))
      <= 1)%nat.
Proof.
  rewrite invokeCanvas_unfold.
  pose proof (loadNodes_trace callGateway opts) as Hload.
  assert (Hnone : forall t,
             (forall method p, In (GatewayCall method p) t ->
                               method = js "node.list"
                               \/ method = js "node.pair.list") ->
             filter (fun ev => match ev with
                               | GatewayCall method _ =>
                                   jsstring_eqb method (js "node.invoke")
                               | _ => false
                               end) t = []).
  { intros t Ht. apply filter_none. intros [m p | | |] Hin; try reflexivity.
    destruct (Ht m p Hin) as [-> | ->]; reflexivity. }
  destruct (loadNodes callGateway opts) as [t [e | nodes]] eqn:El;
    unfold trace_of in *; simpl in Hload.
  - split; [|simpl; rewrite (Hnone t Hload); simpl; lia].
    intros method envelope Hin. simpl in Hin.
    destruct (Hload _ _ Hin); auto.
  - destruct (resolveNodeId_in nodes (opt_node opts)) as [e | id] eqn:Er.
    + split; [|simpl; rewrite (Hnone t Hload); simpl; lia].
      intros method envelope Hin. simpl in Hin.
      destruct (Hload _ _ Hin); auto.
    + split.
      * intros method envelope Hin. simpl in Hin. apply in_app_or in Hin.
        destruct Hin as [Hin | [Hin | []]];
          [destruct (Hload _ _ Hin); auto|].
        injection Hin as <- <-. right; right. split; [reflexivity|].
        destruct (resolveNodeId_in_inr _ _ _ Er) as (n & Hn & Hid & _).
        exists t, nodes, id, n. auto.
      * simpl. rewrite filter_app, (Hnone t Hload). simpl. lia.
Qed.

Lemma invokeCanvas_invokes_only_resolved_nodes_witness :
  let envelope :=
    invoke_envelope (js "key-1") (js "mac-123") (js "canvas.hide") None in
  In (GatewayCall (js "node.invoke") envelope)
     (trace_of (invokeCanvas pairing_gateway (js "key-1") plain_opts
                  (js "canvas.hide") None))
  /\ exists t nodes id n,
       loadNodes pairing_gateway plain_opts = (t, inr nodes)
       /\ resolveNodeId_in nodes (opt_node plain_opts) = inr id
       /\ In n nodes /\ nodeId n = id
       /\ envelope = invoke_envelope (js "key-1") id (js "canvas.hide") None.
Proof.
  intros envelope.
  assert (Hin : In (GatewayCall (js "node.invoke") envelope)
                  (trace_of (invokeCanvas pairing_gateway (js "key-1")
                               plain_opts (js "canvas.hide") None))).
  { right; right; left. reflexivity. }
  split; [exact Hin|].
  destruct (proj1 (invokeCanvas_invokes_only_resolved_nodes pairing_gateway
                     (js "key-1") plain_opts (js "canvas.hide") None)
              _ _ Hin) as [H | [H | [_ H]]];
    [vm_compute in H; discriminate H | vm_compute in H; discriminate H
    | exact H].
Defined.

(** ** The actions built on invokeCanvas alone *)

Lemma loadNodes_only_calls callGateway opts :
  forall ev, In ev (trace_of (loadNodes callGateway opts)) ->
             is_gateway_call ev = true.
Proof.
  intros ev.
  destruct (callGateway (js "node.list") (JObject [])) as [e | r] eqn:E.
  - rewrite (loadNodes_fallback _ _ _ E). simpl.
    intros [<- | [<- | []]]; reflexivity.
  - rewrite (loadNodes_primary _ _ _ E). simpl.
    intros [<- | []]; reflexivity.
Qed.

Lemma invokeCanvas_only_calls callGateway key opts command params :
  forall ev,
    In ev (trace_of (invokeCanvas callGateway key opts command params)) ->
    is_gateway_call ev = true.
Proof.
  intros ev. rewrite invokeCanvas_unfold.
  pose proof (loadNodes_only_calls callGateway opts) as Hl.
  destruct (loadNodes callGateway opts) as [t [e | nodes]];
    unfold trace_of in *; simpl in *; [apply Hl|].
  destruct (resolveNodeId_in nodes (opt_node opts)); simpl; [apply Hl|].
  intros H. apply in_app_or in H. destruct H as [H | [<- | []]];
    [now apply Hl | reflexivity].
Qed.

Lemma reported_invocation_outcome callGateway key name command params opts :
  reported_invocation callGateway key name command params opts
  = match invokeCanvas callGateway key opts command params with
    | (t, inr _) =>
        (t ++ (if opt_json opts then [] else [RuntimeLog (name ++ js " ok")]),
         inr tt)
    | (t, inl err) =>
        (t ++ [RuntimeError (name ++ js " failed: " ++ String_of_exn err);
               RuntimeExit 1],
         inr tt)
    end.
Proof.
  unfold reported_invocation, try_catch, bind, emit, ret.
  destruct (invokeCanvas callGateway key opts command params) as [t [e | []]];
    [reflexivity|].
  now destruct (opt_json opts).
Qed.

(** X11. The hide, navigate and a2ui reset actions never throw.  Each
    exits with status 1 exactly when its invocation failed, logs its ok
    line exactly when the invocation returned and [--json] is off, and
    makes no gateway call beyond those of the invocation. *)
Theorem simple_actions_report_the_invocation
  (callGateway : jsstring -> json -> exn + reply) (key : jsstring)
  (opts : CanvasOpts) (url : jsstring) :
  canvas_hide callGateway key opts
  = reported_invocation callGateway key (js "canvas hide") (js "canvas.hide")
      None opts
  /\ canvas_navigate callGateway key url opts
     = reported_invocation callGateway key (js "canvas navigate")
         (js "canvas.navigate") (Some (JObject [(js "url", JString url)])) opts
  /\ a2ui_reset callGateway key opts
     = reported_invocation callGateway key (js "canvas a2ui reset")
         (js "canvas.a2ui.reset") None opts
  /\ forall name command params,
       let invocation := invokeCanvas callGateway key opts command params in
       let run := reported_invocation callGateway key name command params opts in
       snd run = inr tt
       /\ (In (RuntimeExit 1) (fst run) <-> exists err, snd invocation = inl err)
       /\ (In (RuntimeLog (name ++ js " ok")) (fst run) <->
           snd invocation = inr tt /\ opt_json opts = false)
       /\ filter is_gateway_call (fst run) = fst invocation.
Proof.
  split; [reflexivity|]. split; [reflexivity|]. split; [reflexivity|].
  intros name command params invocation run. subst run.
  rewrite reported_invocation_outcome.
  pose proof (invokeCanvas_only_calls callGateway key opts command params) as Hc.
  fold invocation in Hc |- *. unfold trace_of in Hc.
  assert (Hf : filter is_gateway_call (fst invocation) = fst invocation).
  { clear - Hc. induction (fst invocation) as [|ev t IH]; simpl; [reflexivity|].
    rewrite (Hc ev (or_introl eq_refl)), IH; [reflexivity|].
    intros ev' H. apply Hc. now right. }
  assert (Hno : forall ev, is_gateway_call ev = false -> ~ In ev (fst invocation)).
  { intros ev Hev Hin. apply Hc in Hin. congruence. }
  destruct invocation as [t [err | []]]; simpl in *.
  - split; [reflexivity|]. split; [|split].
    + split; [eauto|]. intros _. apply in_or_app. right. right. now left.
    + split; [|intros [H _]; discriminate H].
      intros H. apply in_app_or in H.
      destruct H as [H | [H | [H | []]]]; try discriminate H.
      exfalso. eapply Hno; [|exact H]. reflexivity.
    + rewrite filter_app, Hf. simpl. apply app_nil_r.
  - split; [reflexivity|]. split; [|split].
    + split; [|intros [err H]; discriminate H].
      intros H. apply in_app_or in H. destruct H as [H | H].
      * exfalso. eapply Hno; [|exact H]. reflexivity.
      * destruct (opt_json opts); simpl in H;
          [destruct H | destruct H as [H | []]; discriminate H].
    + destruct (opt_json opts); simpl.
      * rewrite app_nil_r. split; [|intros [_ H]; discriminate H].
        intros H. exfalso. eapply Hno; [|exact H]. reflexivity.
      * split; [auto|]. intros _. apply in_or_app. right. now left.
    + rewrite filter_app, Hf. destruct (opt_json opts); simpl; apply app_nil_r.
Qed.

(** ** JSON.stringify followed by JSON.parse *)

Lemma hex_digit_value n : n < 16 -> hex_value (hex_digit n) = Some n.
Proof.
  intros H. unfold hex_digit, hex_value.
  destruct (N.ltb_spec n 10).
  - replace ((48 <=? 48 + n) && (48 + n <=? 57)) with true; [f_equal; lia|].
    symmetry. apply andb_true_iff. split; apply N.leb_le; lia.
  - replace ((48 <=? 87 + n) && (87 + n <=? 57)) with false.
    + replace ((97 <=? 87 + n) && (87 + n <=? 102)) with true; [f_equal; lia|].
      symmetry. apply andb_true_iff. split; apply N.leb_le; lia.
    + symmetry. apply andb_false_iff. right. apply N.leb_gt. lia.
Qed.

Lemma hex4_unicode_escape c :
  c < 65536 ->
  hex4 (hex_digit (c / 4096 mod 16)) (hex_digit (c / 256 mod 16))
       (hex_digit (c / 16 mod 16)) (hex_digit (c mod 16)) = Some c.
Proof.
  intros H. unfold hex4.
  rewrite !hex_digit_value by (apply N.mod_lt; discriminate).
  f_equal.
  pose proof (N.div_mod c 16 ltac:(discriminate)).
  pose proof (N.div_mod (c / 16) 16 ltac:(discriminate)).
  pose proof (N.div_mod (c / 16 / 16) 16 ltac:(discriminate)).
  rewrite !N.Div0.div_div in *. simpl (16 * 16) in *. simpl (256 * 16) in *.
  assert (c / 4096 < 16) by (apply N.Div0.div_lt_upper_bound; simpl; lia).
  rewrite (N.mod_small (c / 4096) 16) in * by assumption.
  lia.
Qed.

Lemma parse_escaped c q r rest :
  c < 65536 ->
  parse_string_body (q ++ 34 :: rest) = Some (r, rest) ->
  parse_string_body (unicode_escape c ++ q ++ 34 :: rest) = Some (c :: r, rest).
Proof.
  intros Hc Hq. unfold unicode_escape.
  change (js "\u") with [92; 117]. cbn [app]. simpl.
  now rewrite (hex4_unicode_escape c Hc), Hq.
Qed.

Lemma parse_raw c q r rest :
  (c =? 34) = false -> (c =? 92) = false -> (c <? 32) = false ->
  parse_string_body (q ++ 34 :: rest) = Some (r, rest) ->
  parse_string_body (c :: q ++ 34 :: rest) = Some (c :: r, rest).
Proof.
  intros E34 E92 E32 Hq. simpl. now rewrite E34, E92, E32, Hq.
Qed.

Lemma surrogate_is_raw c :
  is_lead_surrogate c = true \/ is_trail_surrogate c = true ->
  (c =? 34) = false /\ (c =? 92) = false /\ (c <? 32) = false /\ c < 65536.
Proof.
  unfold is_lead_surrogate, is_trail_surrogate.
  intros [H | H]; apply andb_true_iff in H; destruct H as [H1 H2];
    apply N.leb_le in H1, H2;
    (repeat split; [apply N.eqb_neq | apply N.eqb_neq | apply N.ltb_ge |]; lia).
Qed.

(** Decoding what QuoteJSONString wrote gives the string back. *)
Lemma parse_quote_units n :
  forall s rest,
    (List.length s <= n)%nat ->
    parse_string_body (quote_units s ++ 34 :: rest) = Some (s, rest).
Proof.
  induction n as [|n IH]; intros s rest Hn;
    (destruct s as [|c r]; [reflexivity|]); simpl in Hn; [lia|].
  assert (IHr : parse_string_body (quote_units r ++ 34 :: rest) = Some (r, rest))
    by (apply IH; lia).
  cbn [quote_units].
  destruct (c =? 8) eqn:E8.
  { apply N.eqb_eq in E8. subst c. change (js "\b") with [92; 98].
    cbn [app]. simpl. now rewrite IHr. }
  destruct (c =? 9) eqn:E9.
  { apply N.eqb_eq in E9. subst c. change (js "\t") with [92; 116].
    cbn [app]. simpl. now rewrite IHr. }
  destruct (c =? 10) eqn:E10.
  { apply N.eqb_eq in E10. subst c. change (js "\n") with [92; 110].
    cbn [app]. simpl. now rewrite IHr. }
  destruct (c =? 12) eqn:E12.
  { apply N.eqb_eq in E12. subst c. change (js "\f") with [92; 102].
    cbn [app]. simpl. now rewrite IHr. }
  destruct (c =? 13) eqn:E13.
  { apply N.eqb_eq in E13. subst c. change (js "\r") with [92; 114].
    cbn [app]. simpl. now rewrite IHr. }
  destruct (c =? 34) eqn:E34.
  { apply N.eqb_eq in E34. subst c. cbn [app]. simpl. now rewrite IHr. }
  destruct (c =? 92) eqn:E92.
  { apply N.eqb_eq in E92. subst c. cbn [app]. simpl. now rewrite IHr. }
  destruct (c <? 32) eqn:E32.
  { rewrite <- app_assoc. apply parse_escaped; [|exact IHr].
    apply N.ltb_lt in E32. lia. }
  destruct (is_lead_surrogate c) eqn:El.
  { destruct (surrogate_is_raw c (or_introl El)) as (_ & _ & _ & Hc).
    destruct r as [|d r'].
    - change (unicode_escape c ++ 34 :: rest)
        with (unicode_escape c ++ [] ++ 34 :: rest).
      now apply parse_escaped.
    - destruct (is_trail_surrogate d) eqn:Et.
      + destruct (surrogate_is_raw d (or_intror Et)) as (D34 & D92 & D32 & _).
        cbn [app]. apply (parse_raw c (d :: quote_units r')); try assumption.
        apply (parse_raw d (quote_units r')); try assumption.
        apply IH. simpl in Hn. lia.
      + rewrite <- app_assoc. now apply parse_escaped. }
  destruct (is_trail_surrogate c) eqn:Et.
  { destruct (surrogate_is_raw c (or_intror Et)) as (_ & _ & _ & Hc).
    rewrite <- app_assoc. now apply parse_escaped. }
  cbn [app]. now apply parse_raw.
Qed.

Lemma quote_units_printable s :
  Forall (fun c => 32 <= c) (quote_units s).
Proof.
  assert (Hesc : forall c, Forall (fun c => 32 <= c) (unicode_escape c)).
  { intros c. unfold unicode_escape, hex_digit.
    change (js "\u") with [92; 117]. cbn [app].
    assert (Hd : forall n, 32 <= (if n <? 10 then 48 + n else 87 + n))
      by (intros n; destruct (n <? 10); lia).
    repeat (apply Forall_cons; [first [lia | apply Hd]|]). constructor. }
  assert (H : forall n s, (List.length s <= n)%nat ->
                          Forall (fun c => 32 <= c) (quote_units s)).
  { induction n as [|n IH]; intros [|c r] Hn; simpl in Hn;
      try constructor; try lia.
    assert (IHr : Forall (fun c => 32 <= c) (quote_units r)) by (apply IH; lia).
    assert (Hpair : forall a b, 32 <= a -> 32 <= b ->
                      Forall (fun c => 32 <= c) ([a; b] ++ quote_units r))
      by (intros a b Ha Hb; cbn [app]; repeat (constructor; [assumption|]);
          exact IHr).
    cbn [quote_units].
    destruct (c =? 8); [change (js "\b") with [92; 98]; apply Hpair; lia|].
    destruct (c =? 9); [change (js "\t") with [92; 116]; apply Hpair; lia|].
    destruct (c =? 10); [change (js "\n") with [92; 110]; apply Hpair; lia|].
    destruct (c =? 12); [change (js "\f") with [92; 102]; apply Hpair; lia|].
    destruct (c =? 13); [change (js "\r") with [92; 114]; apply Hpair; lia|].
    destruct (c =? 34); [apply Hpair; lia|].
    destruct (c =? 92); [apply Hpair; lia|].
    destruct (c <? 32) eqn:E32; [apply Forall_app; auto|].
    apply N.ltb_ge in E32.
    destruct (is_lead_surrogate c).
    - destruct r as [|d r']; [apply Hesc|].
      destruct (is_trail_surrogate d) eqn:Et; [|apply Forall_app; auto].
      unfold is_trail_surrogate in Et. apply andb_true_iff in Et.
      destruct Et as [Et _]. apply N.leb_le in Et.
      constructor; [exact E32|]. constructor; [lia|].
      apply IH. simpl in Hn. lia.
    - destruct (is_trail_surrogate c); [apply Forall_app; auto|].
      constructor; assumption. }
  exact (H _ s (le_n _)).
Qed.

Lemma more_fuel_value f s r :
  parse_value f s = Some r ->
  forall f', (2 * List.length s <= f')%nat -> parse_value f' s = Some r.
Proof.
  destruct r as [v rest]. intros H f' Hf.
  destruct (proj1 (parse_fuel f) _ _ _ H) as [_ Hb]. apply Hb. lia.
Qed.

Lemma more_fuel_members f s r :
  parse_members f s = Some r ->
  forall f', (2 * List.length s <= f')%nat -> parse_members f' s = Some r.
Proof.
  destruct r as [v rest]. intros H f' Hf.
  destruct (proj1 (proj2 (parse_fuel f)) _ _ _ H) as [_ Hb]. apply Hb. lia.
Qed.

Lemma more_fuel_elements f s r :
  parse_elements f s = Some r ->
  forall f', (2 * List.length s <= f')%nat -> parse_elements f' s = Some r.
Proof.
  destruct r as [v rest]. intros H f' Hf.
  destruct (proj2 (proj2 (parse_fuel f)) _ _ _ H) as [_ Hb]. apply Hb. lia.
Qed.

Lemma JSON_quote_app k X :
  JSON_quote k ++ X = 34 :: quote_units k ++ 34 :: X.
Proof. unfold JSON_quote. cbn [app]. now rewrite <- app_assoc. Qed.

Lemma stringify_head v X :
  number_free v = true ->
  exists c tl, JSON_stringify v ++ X = c :: tl
               /\ is_json_ws c = false /\ (c =? 93) = false.
Proof.
  destruct v as [| [|] | lexeme | s | items | members]; intros H;
    try discriminate H; cbn [JSON_stringify].
  - exists 110, (js "ull" ++ X). repeat split.
  - exists 116, (js "rue" ++ X). repeat split.
  - exists 102, (js "alse" ++ X). repeat split.
  - exists 34, (quote_units s ++ 34 :: X). rewrite JSON_quote_app. repeat split.
  - exists 91, ((join (js ",") (List.map JSON_stringify items) ++ js "]") ++ X).
    repeat split.
  - eexists 123, _. repeat split.
Qed.

Lemma startsWith_nil s : startsWith s [] = true.
Proof. now destruct s. Qed.

Lemma reparses_scalar v :
  match v with JArray _ | JObject _ | JNumber _ => False | _ => True end ->
  reparses v.
Proof.
  intros Hv rest. exists 1%nat.
  destruct v as [| [|] | lexeme | s | items | members]; try destruct Hv;
    cbn [JSON_stringify].
  - change (js "null" ++ rest) with (110 :: 117 :: 108 :: 108 :: rest).
    simpl. unfold parse_scalar. simpl. now rewrite startsWith_nil.
  - change (js "true" ++ rest) with (116 :: 114 :: 117 :: 101 :: rest).
    simpl. unfold parse_scalar. simpl. now rewrite startsWith_nil.
  - change (js "false" ++ rest) with (102 :: 97 :: 108 :: 115 :: 101 :: rest).
    simpl. unfold parse_scalar. simpl. now rewrite startsWith_nil.
  - rewrite JSON_quote_app. simpl. unfold parse_scalar. simpl.
    now rewrite (parse_quote_units _ s rest (le_n _)).
Qed.

Lemma reparses_elements items :
  items <> [] ->
  Forall reparses items ->
  forall rest, exists f,
    parse_elements f
      (join (js ",") (List.map JSON_stringify items) ++ 93 :: rest)
    = Some (items, rest).
Proof.
  intros Hne Hall. induction Hall as [|v items Hv Hitems IH]; [congruence|].
  intros rest. destruct items as [|w items].
  - cbn [List.map join].
    set (s := JSON_stringify v ++ 93 :: rest).
    destruct (Hv (93 :: rest)) as [f0 Hf0]. fold s in Hf0.
    exists (S (2 * List.length s)). simpl parse_elements.
    rewrite (more_fuel_value _ _ _ Hf0) by lia. simpl. reflexivity.
  - cbn [List.map join]. cbn [List.map] in IH.
    rewrite <- !app_assoc. change (js "," ++ ?x) with (44 :: x).
    set (tail := join (js ",") (JSON_stringify w :: List.map JSON_stringify items)
                 ++ 93 :: rest).
    set (s := JSON_stringify v ++ 44 :: tail).
    destruct (Hv (44 :: tail)) as [f0 Hf0]. fold s in Hf0.
    destruct (IH ltac:(discriminate) rest) as [f1 Hf1]. fold tail in Hf1.
    exists (S (2 * List.length s)). simpl parse_elements.
    rewrite (more_fuel_value _ _ _ Hf0) by lia. simpl.
    rewrite (more_fuel_elements _ _ _ Hf1); [reflexivity|].
    subst s. rewrite length_app. simpl. lia.
Qed.

Lemma join_cons2 sep (a b : jsstring) l :
  join sep (a :: b :: l) = a ++ sep ++ join sep (b :: l).
Proof. reflexivity. Qed.

Lemma reparses_members members :
  members <> [] ->
  Forall (fun m => reparses (snd m)) members ->
  forall rest, exists f,
    parse_members f
      (join (js ",") (List.map member_text members) ++ 125 :: rest)
    = Some (members, rest).
Proof.
  intros Hne Hall. induction Hall as [|[k v] members Hv Hmembers IH];
    [congruence|].
  intros rest. simpl in Hv. destruct members as [|m members].
  - cbn [List.map join]. unfold member_text. cbn [fst snd].
    rewrite <- !app_assoc, JSON_quote_app. change (js ":" ++ ?x) with (58 :: x).
    destruct (Hv (125 :: rest)) as [f0 Hf0].
    remember (JSON_stringify v ++ 125 :: rest) as r2 eqn:Er2.
    remember (Nat.mul 2 (List.length (34 :: quote_units k ++ 34 :: 58 :: r2)))
      as F eqn:EF.
    assert (HF : (2 * List.length r2 <= F)%nat)
      by (rewrite EF; simpl; rewrite length_app; simpl; lia).
    exists (S F). simpl parse_members.
    rewrite (parse_quote_units _ k (58 :: r2) (le_n _)). simpl.
    rewrite (more_fuel_value _ _ _ Hf0 F HF). simpl. reflexivity.
  - cbn [List.map]. cbn [List.map] in IH. rewrite join_cons2.
    unfold member_text at 1. cbn [fst snd].
    rewrite <- !app_assoc, JSON_quote_app. change (js ":" ++ ?x) with (58 :: x).
    change (js "," ++ ?x) with (44 :: x).
    destruct (IH ltac:(discriminate) rest) as [f1 Hf1].
    remember (join (js ",") (member_text m :: List.map member_text members)
              ++ 125 :: rest) as tail eqn:Etail.
    destruct (Hv (44 :: tail)) as [f0 Hf0].
    remember (JSON_stringify v ++ 44 :: tail) as r2 eqn:Er2.
    remember (Nat.mul 2 (List.length (34 :: quote_units k ++ 34 :: 58 :: r2)))
      as F eqn:EF.
    assert (HF : (2 * List.length r2 <= F)%nat)
      by (rewrite EF; simpl; rewrite length_app; simpl; lia).
    assert (HF' : (2 * List.length tail <= F)%nat)
      by (rewrite Er2, length_app in HF; simpl in HF; lia).
    exists (S F). simpl parse_members.
    rewrite (parse_quote_units _ k (58 :: r2) (le_n _)). simpl.
    rewrite (more_fuel_value _ _ _ Hf0 F HF). simpl.
    now rewrite (more_fuel_members _ _ _ Hf1 F HF').
Qed.

Lemma stringify_reparses : forall v, number_free v = true -> reparses v.
Proof.
  fix IH 1. intros v Hnf.
  destruct v as [| b | lexeme | s | items | members];
    try (apply reparses_scalar; exact I); [discriminate Hnf | |].
  - assert (Hall : Forall reparses items).
    { cbn [number_free] in Hnf. revert Hnf.
      induction items as [|x items IHitems]; intros Hnf; constructor;
        apply andb_true_iff in Hnf; destruct Hnf as [Hx Hrest].
      - exact (IH x Hx).
      - exact (IHitems Hrest). }
    clear IH. intros rest. cbn [JSON_stringify].
    destruct items as [|x items].
    + exists 1%nat. reflexivity.
    + rewrite <- !app_assoc.
      change (js "[" ++ ?y) with (91 :: y). change (js "]" ++ ?y) with (93 :: y).
      destruct (reparses_elements (x :: items) ltac:(discriminate) Hall rest)
        as [f Hf].
      remember (join (js ",") (List.map JSON_stringify (x :: items)) ++ 93 :: rest)
        as r eqn:Er.
      assert (Hhead : exists c tl, r = c :: tl /\ is_json_ws c = false
                                   /\ (c =? 93) = false).
      { rewrite Er. cbn [List.map]. cbn [number_free forallb] in Hnf.
        apply andb_true_iff in Hnf. destruct Hnf as [Hx _].
        destruct items as [|y items].
        - cbn [List.map join]. now apply stringify_head.
        - cbn [List.map]. rewrite join_cons2, <- app_assoc.
          now apply stringify_head. }
      destruct Hhead as (c & tl & Hr & Hws & Hc).
      remember (Nat.mul 2 (List.length r)) as F eqn:EF.
      exists (S F). simpl parse_value.
      rewrite Hr. unfold skip_ws. cbn [dropWhile]. rewrite Hws, Hc.
      rewrite <- Hr, (more_fuel_elements _ _ _ Hf F) by lia.
      reflexivity.
  - assert (Hall : Forall (fun m => reparses (snd m)) members).
    { cbn [number_free] in Hnf. revert Hnf.
      induction members as [|m members IHmembers]; intros Hnf; constructor;
        apply andb_true_iff in Hnf; destruct Hnf as [Hx Hrest].
      - exact (IH (snd m) Hx).
      - exact (IHmembers Hrest). }
    clear IH. intros rest. cbn [JSON_stringify].
    destruct members as [|m members].
    + exists 1%nat. reflexivity.
    + rewrite <- !app_assoc.
      change (js "{" ++ ?y) with (123 :: y). change (js "}" ++ ?y) with (125 :: y).
      change (fun m0 : jsstring * json =>
                JSON_quote (fst m0) ++ js ":" ++ JSON_stringify (snd m0))
        with member_text.
      assert (Hgen : forall r,
                 r = join (js ",") (List.map member_text (m :: members))
                     ++ 125 :: rest ->
                 exists f, parse_value f (123 :: r)
                           = Some (JObject (m :: members), rest)).
      { intros r Er.
        destruct (reparses_members (m :: members) ltac:(discriminate) Hall rest)
          as [f Hf].
        rewrite <- Er in Hf.
        assert (Hhead : exists tl, r = 34 :: tl).
        { rewrite Er. cbn [List.map]. destruct members as [|y members].
          - cbn [List.map join]. unfold member_text.
            rewrite <- !app_assoc, JSON_quote_app. eauto.
          - cbn [List.map]. rewrite join_cons2. unfold member_text at 1.
            rewrite <- !app_assoc, JSON_quote_app. eauto. }
        destruct Hhead as (tl & Hr).
        remember (Nat.mul 2 (List.length r)) as F eqn:EF.
        exists (S F). simpl parse_value.
        rewrite Hr. unfold skip_ws. cbn [dropWhile]. simpl.
        rewrite <- Hr, (more_fuel_members _ _ _ Hf F) by lia.
        reflexivity. }
      exact (Hgen _ eq_refl).
Qed.

(** Parsing what [JSON.stringify] wrote gives the value back, for values
    without numbers. *)
Lemma JSON_parse_stringify v :
  number_free v = true -> JSON_parse (JSON_stringify v) = inr v.
Proof.
  intros H. destruct (stringify_reparses v H []) as [f Hf].
  rewrite app_nil_r in Hf. exact (JSON_parse_fuel_suffices _ _ _ _ Hf eq_refl).
Qed.

(** ** buildA2UITextJsonl *)

Lemma forallb_printable l :
  forallb (fun c => 32 <=? c) l = true -> Forall (fun c => 32 <= c) l.
Proof.
  intros H. apply Forall_forall. intros c Hin.
  rewrite forallb_forall in H. apply N.leb_le. now apply H.
Qed.

Lemma split_lines_printable l :
  Forall (fun c => 32 <= c) l -> l <> [] -> split_lines l = [l].
Proof.
  induction 1 as [|c r Hc Hr IH]; intros Hne; [congruence|].
  cbn [split_lines].
  destruct (N.eqb_spec c 10) as [-> | _]; [lia|].
  destruct r as [|d r']; [reflexivity|].
  replace ((c =? 13) && (d =? 10)) with false.
  - rewrite IH by discriminate. reflexivity.
  - symmetry. apply andb_false_iff. left. apply N.eqb_neq. lia.
Qed.

Lemma split_lines_two l1 l2 :
  Forall (fun c => 32 <= c) l1 -> l1 <> [] ->
  Forall (fun c => 32 <= c) l2 -> l2 <> [] ->
  split_lines (l1 ++ LF ++ l2) = [l1; l2].
Proof.
  intros H1 Hne1 H2 Hne2. unfold LF. cbn [app].
  induction H1 as [|c r Hc Hr IH]; [congruence|].
  cbn [app split_lines].
  destruct (N.eqb_spec c 10) as [-> | _]; [lia|].
  assert (E13 : ((c =? 13) && (10 =? 10)) = false)
    by (apply andb_false_iff; left; apply N.eqb_neq; lia).
  destruct r as [|d r'].
  - cbn [app]. rewrite E13. cbn [split_lines]. simpl (10 =? 10).
    cbv iota. now rewrite (split_lines_printable l2 H2 Hne2).
  - cbn [app].
    replace ((c =? 13) && (d =? 10)) with false
      by (symmetry; apply andb_false_iff; left; apply N.eqb_neq; lia).
    cbn [app] in IH. rewrite IH by discriminate. reflexivity.
Qed.

Lemma dropWhileEnd_app_last {A} (p : A -> bool) (l : list A) x :
  p x = false -> dropWhileEnd p (l ++ [x]) = l ++ [x].
Proof.
  intros Hx. induction l as [|y l IH]; simpl; [now rewrite Hx|].
  rewrite IH. destruct (l ++ [x]) eqn:E; [|reflexivity].
  now destruct l.
Qed.

Lemma trim_fixed c tl init x :
  is_js_space c = false -> is_js_space x = false ->
  c :: tl = init ++ [x] -> trim (c :: tl) = c :: tl.
Proof.
  intros Hc Hx E. unfold trim. cbn [dropWhile]. rewrite Hc, E.
  now apply dropWhileEnd_app_last.
Qed.

Lemma buildA2UITextJsonl_lines text :
  buildA2UITextJsonl text
  = JSON_stringify (text_payload_value text) ++ LF ++ text_second_line.
Proof. reflexivity. Qed.

Lemma text_line_shape text :
  JSON_stringify (text_payload_value text)
  = text_prefix ++ quote_units text ++ text_suffix.
Proof.
  unfold text_payload_value.
  cbn [List.map join JSON_stringify fst snd].
  unfold JSON_quote. rewrite <- !app_assoc. reflexivity.
Qed.

Lemma text_line_facts text :
  let line := JSON_stringify (text_payload_value text) in
  Forall (fun c => 32 <= c) line
  /\ line <> []
  /\ trim line = line
  /\ JSON_parse line = inr (text_payload_value text).
Proof.
  intros line. subst line.
  assert (Hp : Forall (fun c => 32 <= c)
                 (text_prefix ++ quote_units text ++ text_suffix)).
  { apply Forall_app. split; [apply forallb_printable; vm_compute; reflexivity|].
    apply Forall_app. split; [apply quote_units_printable|].
    apply forallb_printable. vm_compute. reflexivity. }
  rewrite text_line_shape at 1 2 3 4.
  split; [exact Hp|]. split; [discriminate|]. split.
  - change text_prefix with (123 :: tl text_prefix).
    cbn [app]. apply (trim_fixed _ _
      (123 :: tl text_prefix ++ quote_units text ++ text_suffix_init) 125);
      try reflexivity.
    unfold text_suffix. change (js "}") with [125]. cbn [app].
    now rewrite !app_assoc.
  - now apply JSON_parse_stringify.
Qed.

Lemma text_payload_validates_v0_8 text :
  validateA2UIJsonl (buildA2UITextJsonl text) = inr (v0_8, 2%nat).
Proof.
  destruct (text_line_facts text) as (Hp & Hne & Htrim & Hparse).
  set (line1 := JSON_stringify (text_payload_value text)) in *.
  assert (Hlines : split_lines (buildA2UITextJsonl text)
                   = [line1; text_second_line]).
  { rewrite buildA2UITextJsonl_lines. apply split_lines_two; trivial.
    - apply forallb_printable. vm_compute. reflexivity.
    - discriminate. }
  assert (Hw1 : well_formed_with line1 (js "surfaceUpdate")).
  { split; [now rewrite Htrim|]. rewrite Htrim, Hparse.
    eexists. split; reflexivity. }
  assert (Hw2 : well_formed_with text_second_line (js "beginRendering")).
  { split; [vm_compute; discriminate|].
    eexists. split; vm_compute; reflexivity. }
  apply validate_succeeds_on_well_formed; rewrite ?Hlines.
  - intros line [<- | [<- | []]] _; eauto.
  - unfold count_nonblank. cbn [filter].
    rewrite (proj2 (is_blank_false line1)) by now rewrite Htrim.
    rewrite (proj2 (is_blank_false text_second_line)) by apply Hw2.
    reflexivity.
  - lia.
  - intros line key [<- | [<- | []]] Hw.
    + now rewrite (well_formed_with_functional _ _ _ Hw Hw1).
    + now rewrite (well_formed_with_functional _ _ _ Hw Hw2).
Qed.

(** X12. The payload that [buildA2UITextJsonl] builds from any text has
    two lines, each of which parses back to the object it was written
    from, and it always validates as version v0.8 with two messages. *)
Theorem text_payload_is_always_valid (text : jsstring) :
  split_lines (buildA2UITextJsonl text)
  = [JSON_stringify (text_payload_value text); text_second_line]
  /\ JSON_parse (JSON_stringify (text_payload_value text))
     = inr (text_payload_value text)
  /\ validateA2UIJsonl (buildA2UITextJsonl text) = inr (v0_8, 2%nat).
Proof.
  destruct (text_line_facts text) as (Hp & Hne & _ & Hparse).
  split; [|split; [exact Hparse | apply text_payload_validates_v0_8]].
  rewrite buildA2UITextJsonl_lines. apply split_lines_two; trivial.
  - apply forallb_printable. vm_compute. reflexivity.
  - discriminate.
Qed.

(** ** The a2ui push action, case by case *)

Lemma a2ui_push_cases callGateway readFile key opts :
  a2ui_push callGateway readFile key opts
  = if Bool.eqb (has_jsonl opts) (has_text opts) then
      push_failure (Error (js "provide exactly one of --jsonl or --text"))
    else
      match push_payload readFile opts with
      | inl err => push_failure err
      | inr jsonl =>
          match validateA2UIJsonl jsonl with
          | inl err => push_failure err
          | inr (v0_9, _) => push_failure unsupported_version
          | inr (v0_8, messageCount) =>
              match invokeCanvas callGateway key opts
                      (js "canvas.a2ui.pushJSONL") (push_params jsonl) with
              | (t, inl err) =>
                  (t ++ [RuntimeError (js "canvas a2ui push failed: "
                                       ++ String_of_exn err);
                         RuntimeExit 1], inr tt)
              | (t, inr _) =>
                  (t ++ (if opt_json opts then []
                         else [RuntimeLog (push_ok_line messageCount)]),
                   inr tt)
              end
          end
      end.
Proof.
  unfold a2ui_push, has_jsonl, has_text, push_payload, push_failure,
    push_params, push_ok_line, try_catch, bind, throw, ret, emit, lift.
  destruct (Bool.eqb _ _); [reflexivity|].
  destruct (opt_text opts) as [text|];
    [|destruct (readFile _) as [err | jsonl]; [reflexivity|]];
    (match goal with
     | |- context [validateA2UIJsonl ?j] =>
         destruct (validateA2UIJsonl j) as [err' | [[|] messageCount]]
     end; [reflexivity | | reflexivity];
     match goal with
     | |- context [invokeCanvas ?a ?b ?c ?d ?e] =>
         destruct (invokeCanvas a b c d e) as [t [err' | []]]
     end; [reflexivity|];
     destruct (opt_json opts); simpl; now rewrite ?app_nil_r).
Qed.

(** X13. The push action needs exactly one payload source.  With neither
    [--jsonl] nor [--text], with both, or with [--text] missing and an empty
    [--jsonl] path, it reports [provide exactly one of --jsonl or --text]
    and exits with status 1; nothing is validated and the gateway is not
    called. *)
Theorem a2ui_push_needs_exactly_one_source
  (callGateway : jsstring -> json -> exn + reply)
  (readFile : jsstring -> exn + jsstring) (key : jsstring) (opts : CanvasOpts) :
  (opt_text opts = None /\ (opt_jsonl opts = None \/ opt_jsonl opts = Some []))
  \/ (exists text path,
         opt_text opts = Some text /\ opt_jsonl opts = Some path /\ path <> []) ->
  a2ui_push callGateway readFile key opts
  = ([RuntimeError
        (js "canvas a2ui push failed: Error: provide exactly one of --jsonl or --text");
      RuntimeExit 1], inr tt).
Proof.
  intros H. rewrite a2ui_push_cases.
  replace (Bool.eqb (has_jsonl opts) (has_text opts)) with true; [reflexivity|].
  unfold has_jsonl, has_text.
  destruct H as [[-> [-> | ->]] | (text & path & -> & -> & Hp)];
    try reflexivity.
  destruct path; [congruence | reflexivity].
Qed.

Lemma a2ui_push_needs_exactly_one_source_witness :
  a2ui_push dead_gateway (fun _ => inr stream_A) (js "key-1") plain_opts
  = ([RuntimeError
        (js "canvas a2ui push failed: Error: provide exactly one of --jsonl or --text");
      RuntimeExit 1], inr tt).
Proof.
  apply a2ui_push_needs_exactly_one_source.
  left. split; [reflexivity | now left].
Defined.

(** X14. The push action contacts the gateway only for a payload that
    validated as v0.8: a gateway call in its trace means the payload was
    obtained, validation succeeded with version v0.8, and any [node.invoke]
    envelope carries exactly that payload under the command
    [canvas.a2ui.pushJSONL]. *)
Theorem a2ui_push_forwards_only_valid_v0_8
  (callGateway : jsstring -> json -> exn + reply)
  (readFile : jsstring -> exn + jsstring) (key : jsstring) (opts : CanvasOpts)
  (method : jsstring) (envelope : json) :
  In (GatewayCall method envelope)
     (trace_of (a2ui_push callGateway readFile key opts)) ->
  exists jsonl messageCount,
    push_payload readFile opts = inr jsonl
    /\ validateA2UIJsonl jsonl = inr (v0_8, messageCount)
    /\ (method = js "node.invoke" ->
        exists id,
          envelope = invoke_envelope key id (js "canvas.a2ui.pushJSONL")
                       (push_params jsonl)).
Proof.
  rewrite a2ui_push_cases. unfold trace_of, push_failure.
  assert (Hfail : forall a b, ~ In (GatewayCall method envelope)
                                   [RuntimeError a; RuntimeExit b]).
  { intros a b [H | [H | []]]; discriminate H. }
  destruct (Bool.eqb _ _); [intros H; now apply Hfail in H|].
  destruct (push_payload readFile opts) as [err | jsonl];
    [intros H; now apply Hfail in H|].
  destruct (validateA2UIJsonl jsonl) as [err | [[|] messageCount]] eqn:Ev;
    try (intros H; now apply Hfail in H).
  intros Hin. exists jsonl, messageCount.
  split; [reflexivity|]. split; [exact Ev|]. intros ->.
  rewrite invokeCanvas_unfold in Hin.
  pose proof (loadNodes_trace callGateway opts) as Hl. unfold trace_of in Hl.
  assert (Hnot : forall t, (forall m p, In (GatewayCall m p) t ->
                              m = js "node.list" \/ m = js "node.pair.list") ->
                           ~ In (GatewayCall (js "node.invoke") envelope) t).
  { intros t Ht H. destruct (Ht _ _ H) as [E | E]; discriminate E. }
  destruct (loadNodes callGateway opts) as [t [err | nodes]]; simpl in Hl, Hin.
  - apply in_app_or in Hin. destruct Hin as [H | H];
      [now apply Hnot in H | now apply Hfail in H].
  - destruct (resolveNodeId_in nodes (opt_node opts)) as [err | id]; simpl in Hin.
    + apply in_app_or in Hin. destruct Hin as [H | H];
        [now apply Hnot in H | now apply Hfail in H].
    + exists id.
      assert (Hcall : In (GatewayCall (js "node.invoke") envelope)
                (t ++ [GatewayCall (js "node.invoke")
                         (invoke_envelope key id (js "canvas.a2ui.pushJSONL")
                            (push_params jsonl))])).
      { destruct (callGateway (js "node.invoke") _); simpl in Hin.
        - apply in_app_or in Hin. destruct Hin as [H | H];
            [exact H | now apply Hfail in H].
        - apply in_app_or in Hin. destruct Hin as [H | H]; [exact H|].
          destruct (opt_json opts); simpl in H;
            [destruct H | destruct H as [H | []]; discriminate H]. }
      apply in_app_or in Hcall. destruct Hcall as [H | [H | []]];
        [now apply Hnot in H|].
      now injection H as <-.
Qed.

Lemma a2ui_push_forwards_only_valid_v0_8_witness :
  exists jsonl messageCount,
    push_payload (fun _ => inr stream_A) push_file_opts = inr jsonl
    /\ validateA2UIJsonl jsonl = inr (v0_8, messageCount).
Proof.
  destruct (a2ui_push_forwards_only_valid_v0_8 studio_gateway
              (fun _ => inr stream_A) (js "key-1") push_file_opts
              (js "node.list") (JObject []))
    as (jsonl & n & Hp & Hv & _).
  - vm_compute. now left.
  - exists jsonl, n. split; assumption.
Defined.

(** X15. [canvas a2ui push --text] never fails validation: for every text
    the action goes on to invoke [canvas.a2ui.pushJSONL] with the payload
    built from the text, and on success logs the line for two v0.8
    messages. *)
Theorem a2ui_push_text_is_always_forwarded
  (callGateway : jsstring -> json -> exn + reply)
  (readFile : jsstring -> exn + jsstring) (key : jsstring) (opts : CanvasOpts)
  (text : jsstring) :
  opt_text opts = Some text ->
  opt_jsonl opts = None \/ opt_jsonl opts = Some [] ->
  a2ui_push callGateway readFile key opts
  = match invokeCanvas callGateway key opts (js "canvas.a2ui.pushJSONL")
            (push_params (buildA2UITextJsonl text)) with
    | (t, inl err) =>
        (t ++ [RuntimeError (js "canvas a2ui push failed: "
                             ++ String_of_exn err);
               RuntimeExit 1], inr tt)
    | (t, inr _) =>
        (t ++ (if opt_json opts then []
               else [RuntimeLog (js "canvas a2ui push ok (v0.8, 2 messages)")]),
         inr tt)
    end.
Proof.
  intros Ht Hj. rewrite a2ui_push_cases.
  replace (Bool.eqb (has_jsonl opts) (has_text opts)) with false
    by (unfold has_jsonl, has_text; rewrite Ht; destruct Hj as [-> | ->];
        reflexivity).
  unfold push_payload. rewrite Ht, text_payload_validates_v0_8.
  reflexivity.
Qed.

Lemma a2ui_push_text_is_always_forwarded_witness :
  a2ui_push studio_gateway (fun _ => inl (Error (js "no file"))) (js "key-1")
    push_text_opts
  = ([GatewayCall (js "node.list") (JObject []);
      GatewayCall (js "node.invoke")
        (invoke_envelope (js "key-1") (js "mac-123")
           (js "canvas.a2ui.pushJSONL")
           (push_params (buildA2UITextJsonl (js "hello"))));
      RuntimeLog (js "canvas a2ui push ok (v0.8, 2 messages)")],
     inr tt).
Proof.
  rewrite (a2ui_push_text_is_always_forwarded studio_gateway
             (fun _ => inl (Error (js "no file"))) (js "key-1") push_text_opts
             (js "hello") eq_refl (or_introl eq_refl)).
  vm_compute. reflexivity.
Defined.

(** ** validateA2UIJsonl: line endings *)

Lemma split_lines_single l : ~ In 10 l -> split_lines l = [l].
Proof.
  induction l as [|c r IH]; intros H; [reflexivity|].
  cbn [split_lines].
  destruct (N.eqb_spec c 10) as [-> | _]; [elim H; now left|].
  destruct r as [|d r']; [reflexivity|].
  replace ((c =? 13) && (d =? 10)) with false.
  - rewrite IH; [reflexivity|]. intros Hin. apply H. now right.
  - symmetry. apply andb_false_iff. right. apply N.eqb_neq.
    intros ->. apply H. right. now left.
Qed.

Lemma split_lines_at_crlf l rest :
  ~ In 10 l -> split_lines (l ++ CRLF ++ rest) = l :: split_lines rest.
Proof.
  unfold CRLF. cbn [app].
  induction l as [|c r IH]; intros H; [reflexivity|].
  cbn [app split_lines].
  destruct (N.eqb_spec c 10) as [-> | _]; [elim H; now left|].
  assert (Hr : ~ In 10 r) by (intros Hin; apply H; now right).
  destruct r as [|d r'].
  - cbn [app]. simpl (13 =? 10). rewrite andb_false_r.
    change (split_lines (13 :: 10 :: rest)) with ([] :: split_lines rest).
    reflexivity.
  - cbn [app].
    replace ((c =? 13) && (d =? 10)) with false.
    + cbn [app] in IH. rewrite (IH Hr). reflexivity.
    + symmetry. apply andb_false_iff. right. apply N.eqb_neq.
      intros ->. apply Hr. now left.
Qed.

Lemma split_lines_at_lf l rest :
  ~ In 10 l -> split_lines (l ++ LF ++ rest) = strip_cr l :: split_lines rest.
Proof.
  unfold LF. cbn [app].
  induction l as [|c r IH]; intros H; [reflexivity|].
  cbn [app split_lines].
  destruct (N.eqb_spec c 10) as [-> | _]; [elim H; now left|].
  assert (Hr : ~ In 10 r) by (intros Hin; apply H; now right).
  destruct r as [|d r'].
  - cbn [app strip_cr]. simpl (10 =? 10). rewrite andb_true_r.
    destruct (c =? 13); [reflexivity|].
    change (split_lines (10 :: rest)) with ([] :: split_lines rest).
    reflexivity.
  - cbn [app].
    replace ((c =? 13) && (d =? 10)) with false.
    + cbn [app] in IH. rewrite (IH Hr). reflexivity.
    + symmetry. apply andb_false_iff. right. apply N.eqb_neq.
      intros ->. apply Hr. now left.
Qed.

Lemma dropWhileEnd_app_dropped {A} (p : A -> bool) (l : list A) x :
  p x = true -> dropWhileEnd p (l ++ [x]) = dropWhileEnd p l.
Proof.
  intros Hx. induction l as [|y l IH]; simpl; [now rewrite Hx|].
  now rewrite IH.
Qed.

Lemma dropWhile_app_last {A} (p : A -> bool) (l : list A) x :
  p x = true ->
  dropWhile p (l ++ [x])
  = match dropWhile p l with
    | [] => []
    | u => u ++ [x]
    end.
Proof.
  intros Hx. induction l as [|y l IH]; simpl; [now rewrite Hx|].
  destruct (p y); [exact IH | reflexivity].
Qed.

Lemma trim_app_space l x : is_js_space x = true -> trim (l ++ [x]) = trim l.
Proof.
  intros Hx. unfold trim. rewrite (dropWhile_app_last _ _ _ Hx).
  destruct (dropWhile is_js_space l) as [|c u]; [reflexivity|].
  now apply dropWhileEnd_app_dropped.
Qed.

Lemma trim_strip_cr l : trim (strip_cr l) = trim l.
Proof.
  induction l as [|c r IH]; [reflexivity|].
  destruct r as [|d r'].
  - cbn [strip_cr]. destruct (N.eqb_spec c 13) as [-> | _]; reflexivity.
  - assert (E : strip_cr (c :: d :: r') = c :: d :: r'
                \/ c :: d :: r' = strip_cr (c :: d :: r') ++ [13]).
    { clear IH. revert c d. induction r' as [|e r'' IHr]; intros c d.
      - cbn [strip_cr]. destruct (N.eqb_spec d 13) as [-> | _]; auto.
      - destruct (IHr d e) as [E | E].
        + left. change (strip_cr (c :: d :: e :: r''))
            with (c :: strip_cr (d :: e :: r'')). now rewrite E.
        + right. change (strip_cr (c :: d :: e :: r''))
            with (c :: strip_cr (d :: e :: r'')).
          cbn [app]. now rewrite <- E. }
    destruct E as [-> | E]; [reflexivity|].
    rewrite E at 2. symmetry. now apply trim_app_space.
Qed.

Lemma visit_line_trim st l l' idx :
  trim l = trim l' -> visit_line st l idx = visit_line st l' idx.
Proof. unfold visit_line. now intros ->. Qed.

Lemma forEach_visit_line_trim ls ls' :
  Forall2 (fun l l' => trim l = trim l') ls ls' ->
  forall idx st,
    forEach visit_line ls idx st = forEach visit_line ls' idx st.
Proof.
  induction 1 as [|l l' ls ls' Hl _ IH]; intros idx st; [reflexivity|].
  cbn [forEach]. now rewrite (visit_line_trim _ _ _ _ Hl), IH.
Qed.

Lemma validate_by_trimmed_lines a b :
  Forall2 (fun l l' => trim l = trim l') (split_lines a) (split_lines b) ->
  validateA2UIJsonl a = validateA2UIJsonl b.
Proof.
  intros H. unfold validateA2UIJsonl, scan_lines.
  now rewrite (forEach_visit_line_trim _ _ H).
Qed.

Lemma split_join_crlf ls :
  ls <> [] -> Forall (fun l => ~ In 10 l) ls ->
  split_lines (join CRLF ls) = ls.
Proof.
  intros Hne H. induction H as [|l ls Hl Hls IH]; [congruence|].
  destruct ls as [|l' ls]; [cbn [join]; now apply split_lines_single|].
  change (join CRLF (l :: l' :: ls)) with (l ++ CRLF ++ join CRLF (l' :: ls)).
  rewrite (split_lines_at_crlf _ _ Hl), IH by discriminate. reflexivity.
Qed.

Lemma split_join_lf ls :
  ls <> [] -> Forall (fun l => ~ In 10 l) ls ->
  Forall2 (fun l l' => trim l = trim l') ls (split_lines (join LF ls)).
Proof.
  intros Hne H. induction H as [|l ls Hl Hls IH]; [congruence|].
  destruct ls as [|l' ls].
  - cbn [join]. rewrite (split_lines_single _ Hl). repeat constructor.
  - change (join LF (l :: l' :: ls)) with (l ++ LF ++ join LF (l' :: ls)).
    rewrite (split_lines_at_lf _ _ Hl). constructor.
    + symmetry. apply trim_strip_cr.
    + apply IH. discriminate.
Qed.

(** X16. Line endings do not matter: the same lines joined with carriage
    return and line feed, or with line feed alone, validate to the same
    result, violations and their line numbers included. *)
Theorem validate_ignores_line_ending_style (lines : list jsstring) :
  Forall (fun l => ~ In 10 l) lines ->
  validateA2UIJsonl (join CRLF lines) = validateA2UIJsonl (join LF lines).
Proof.
  intros H. destruct lines as [|l ls]; [reflexivity|].
  apply validate_by_trimmed_lines.
  rewrite split_join_crlf by (trivial; discriminate).
  apply split_join_lf; [discriminate | exact H].
Qed.

Lemma validate_ignores_line_ending_style_witness :
  validateA2UIJsonl (join CRLF sample_lines)
  = validateA2UIJsonl (join LF sample_lines).
Proof.
  apply validate_ignores_line_ending_style.
  repeat constructor; vm_compute; intuition discriminate.
Defined.

(** ** activeTaglines *)

(** X17. [activeTaglines] never returns an empty list.  With no tagline at
    all it returns the default one; when some tagline is active today it
    returns the active taglines, in their order, and nothing else; when
    none is active it falls back to all taglines. *)
Theorem activeTaglines_is_never_empty
  (Date : Type) (TAGLINES : list jsstring)
  (HOLIDAY_RULES : jsstring -> option (Date -> bool)) (today : Date) :
  let active := fun t => isTaglineActive Date HOLIDAY_RULES t today in
  activeTaglines Date TAGLINES HOLIDAY_RULES today <> []
  /\ (TAGLINES = [] ->
      activeTaglines Date TAGLINES HOLIDAY_RULES today = [DEFAULT_TAGLINE])
  /\ ((exists t, In t TAGLINES /\ active t = true) ->
      activeTaglines Date TAGLINES HOLIDAY_RULES today = filter active TAGLINES
      /\ forall t, In t (activeTaglines Date TAGLINES HOLIDAY_RULES today) ->
                   In t TAGLINES /\ active t = true)
  /\ (TAGLINES <> [] -> (forall t, In t TAGLINES -> active t = false) ->
      activeTaglines Date TAGLINES HOLIDAY_RULES today = TAGLINES).
Proof.
  intros active. unfold activeTaglines. fold active.
  destruct TAGLINES as [|t0 ts] eqn:ET.
  - split; [discriminate|]. split; [reflexivity|].
    split; [intros (t & [] & _) | congruence].
  - rewrite <- ET. replace (Nat.eqb (List.length TAGLINES) 0) with false
      by (rewrite ET; reflexivity).
    destruct (filter active TAGLINES) as [|a l] eqn:Ef.
    + simpl. split; [rewrite ET; discriminate|]. split; [congruence|].
      split; [|reflexivity].
      intros (t & Hin & Ht).
      assert (H : In t (filter active TAGLINES)) by (apply filter_In; auto).
      rewrite Ef in H. destruct H.
    + change (Nat.ltb 0 (List.length (a :: l))) with true. cbv iota.
      split; [discriminate|]. split; [congruence|].
      split.
      * intros _. split; [reflexivity|]. intros t Hin.
        rewrite <- Ef in Hin. now apply filter_In in Hin.
      * intros _ Hnone.
        assert (H : In a (filter active TAGLINES)) by (rewrite Ef; now left).
        apply filter_In in H. destruct H as [Hin Ha].
        rewrite (Hnone a Hin) in Ha. discriminate.
Qed.

Lemma activeTaglines_is_never_empty_witness :
  activeTaglines nat sample_taglines sample_rules 359%nat = sample_taglines
  /\ activeTaglines nat sample_taglines sample_rules 12%nat = [js "Claws out"].
Proof.
  split.
  - refine (proj1 (proj1 (proj2 (proj2
      (activeTaglines_is_never_empty nat sample_taglines sample_rules 359%nat)))
      _)).
    exists (js "Ho ho ho"). split; [now left | reflexivity].
  - refine (proj1 (proj1 (proj2 (proj2
      (activeTaglines_is_never_empty nat sample_taglines sample_rules 12%nat)))
      _)).
    exists (js "Claws out"). split; [right; now left | reflexivity].
Defined.

(** ** emitCliBanner *)

Section BannerProperties.

Variables (heading info muted accentDim : jsstring -> jsstring).

Let emit := emitCliBanner heading info muted accentDim.
Let run := emit_all heading info muted accentDim.
Let line := formatCliBannerLine heading info muted accentDim.

Lemma emitCliBanner_cases st c :
  emit st (call_env c) (call_version c) (call_options c)
  = if negb st && banner_allowed c
    then (Some (LF ++ line (call_env c) (call_version c) (call_options c)
                ++ LF ++ LF), true)
    else (None, st).
Proof.
  unfold emit, emitCliBanner, banner_allowed, line.
  destruct st; [reflexivity|]. simpl negb. cbv iota.
  destruct (env_isTTY (call_env c)); [|reflexivity]. simpl.
  destruct (hasJsonFlag _); [reflexivity|].
  now destruct (hasVersionFlag _).
Qed.

Lemma emit_all_emitted calls : run true calls = ([], true).
Proof.
  induction calls as [|c rest IH]; [reflexivity|].
  unfold run in *. cbn [emit_all]. fold emit.
  rewrite emitCliBanner_cases. simpl. now rewrite IH.
Qed.

Lemma emit_all_fresh calls :
  run false calls
  = match find banner_allowed calls with
    | Some c =>
        ([LF ++ line (call_env c) (call_version c) (call_options c)
          ++ LF ++ LF], true)
    | None => ([], false)
    end.
Proof.
  induction calls as [|c rest IH]; [reflexivity|].
  unfold run in *. cbn [emit_all find]. fold emit.
  rewrite emitCliBanner_cases. simpl negb. cbn [andb].
  destruct (banner_allowed c).
  - fold run. now rewrite emit_all_emitted.
  - rewrite IH. now destruct (find banner_allowed rest).
Qed.

End BannerProperties.

Lemma startsWith_prefix p :
  forall s, startsWith s p = true -> exists rest, s = p ++ rest.
Proof.
  induction p as [|a p IH]; intros s H.
  - exists s. reflexivity.
  - destruct s as [|b s]; [discriminate H|]. simpl in H.
    apply andb_true_iff in H. destruct H as [Hab Hs].
    apply N.eqb_eq in Hab. subst b.
    destruct (IH s Hs) as [rest ->]. now exists rest.
Qed.

(** X18. In one process the banner is written at most once: by the first
    call that runs on a terminal and sees neither [--json], nor an argument
    starting with [--json=], nor a version flag.  Calls that are not
    allowed to print leave the banner available, later calls print
    nothing, and an argument such as [--jsonl] is not a JSON flag. *)
Theorem banner_is_emitted_at_most_once
  (heading info muted accentDim : jsstring -> jsstring)
  (calls : list BannerCall) :
  emit_all heading info muted accentDim true calls = ([], true)
  /\ emit_all heading info muted accentDim false calls
     = match find banner_allowed calls with
       | Some c =>
           ([LF ++ formatCliBannerLine heading info muted accentDim
                     (call_env c) (call_version c) (call_options c)
             ++ LF ++ LF], true)
       | None => ([], false)
       end
  /\ (List.length (fst (emit_all heading info muted accentDim false calls))
      <= 1)%nat
  /\ (forall argv, hasJsonFlag argv = true ->
        exists arg, In arg argv
                    /\ (arg = js "--json"
                        \/ exists value, arg = js "--json=" ++ value)).
Proof.
  split; [apply emit_all_emitted|]. split; [apply emit_all_fresh|]. split.
  - rewrite emit_all_fresh. destruct (find banner_allowed calls); simpl; lia.
  - intros argv H. unfold hasJsonFlag in H. apply existsb_exists in H.
    destruct H as (arg & Hin & H). exists arg. split; [exact Hin|].
    apply orb_true_iff in H. destruct H as [H | H].
    + left. now apply jsstring_eqb_eq.
    + right. now apply startsWith_prefix.
Qed.

Lemma banner_is_emitted_at_most_once_witness :
  let plain := fun s : jsstring => s in
  emit_all plain plain plain plain false [json_call; plain_call; plain_call]
  = ([LF ++ formatCliBannerLine plain plain plain plain tty_env (js "1.2.3")
              no_banner_options ++ LF ++ LF], true)
  /\ exists arg, In arg [js "push"; js "--jsonl"; js "--json=1"]
                 /\ (arg = js "--json"
                     \/ exists value, arg = js "--json=" ++ value).
Proof.
  intros plain. split.
  - exact (proj1 (proj2 (banner_is_emitted_at_most_once plain plain plain plain
                           [json_call; plain_call; plain_call]))).
  - exact (proj2 (proj2 (proj2 (banner_is_emitted_at_most_once
                                  plain plain plain plain [])))
             [js "push"; js "--jsonl"; js "--json=1"] eq_refl).
Defined.

(** ** normalizeFormat *)

Lemma lower_unit_fixed c d : In d (lower_unit c) -> lower_unit d = [d].
Proof.
  unfold lower_unit.
  destruct ((65 <=? c) && (c <=? 90)) eqn:E1.
  { intros [<- | []]. apply andb_true_iff in E1. destruct E1 as [H1 H2].
    apply N.leb_le in H1, H2. split_ranges. }
  destruct (c =? 304) eqn:E2.
  { intros [<- | [<- | []]]; reflexivity. }
  destruct (c =? 8490) eqn:E3.
  { intros [<- | []]. reflexivity. }
  destruct ((192 <=? c) && (c <=? 222) && negb (c =? 215)) eqn:E4.
  { intros [<- | []]. apply andb_true_iff in E4. destruct E4 as [E4 _].
    apply andb_true_iff in E4. destruct E4 as [H1 H2].
    apply N.leb_le in H1, H2. split_ranges. }
  intros [<- | []]. now rewrite E1, E2, E3, E4.
Qed.

Lemma toLowerCase_idempotent s : toLowerCase (toLowerCase s) = toLowerCase s.
Proof.
  unfold toLowerCase.
  assert (H : forall l, (forall d, In d l -> lower_unit d = [d]) ->
                        flat_map lower_unit l = l).
  { induction l as [|d l IH]; intros Hl; [reflexivity|]. simpl.
    rewrite (Hl d (or_introl eq_refl)), IH; [reflexivity|].
    intros e He. apply Hl. now right. }
  apply H. intros d Hd. apply in_flat_map in Hd.
  destruct Hd as (c & _ & Hd). exact (lower_unit_fixed _ _ Hd).
Qed.

Lemma is_js_space_outside c :
  (33 <= c <= 159 \/ 161 <= c <= 5759)%N -> is_js_space c = false.
Proof.
  intros H. unfold is_js_space.
  repeat match goal with
    | |- context [N.eqb ?a ?b] =>
        replace (N.eqb a b) with false by (symmetry; apply N.eqb_neq; lia)
    | |- context [N.leb ?a ?b] =>
        first [ replace (N.leb a b) with false
                  by (symmetry; apply N.leb_gt; lia)
              | replace (N.leb a b) with true
                  by (symmetry; apply N.leb_le; lia) ]
    end.
  reflexivity.
Qed.

Lemma lower_unit_space c :
  lower_unit c <> []
  /\ forall d, In d (lower_unit c) -> is_js_space d = is_js_space c.
Proof.
  unfold lower_unit.
  destruct ((65 <=? c) && (c <=? 90)) eqn:E1.
  { split; [discriminate|]. intros d [<- | []].
    apply andb_true_iff in E1. destruct E1 as [H1 H2].
    apply N.leb_le in H1, H2.
    rewrite !is_js_space_outside by lia. reflexivity. }
  destruct (N.eqb_spec c 304) as [-> | _].
  { split; [discriminate|]. intros d [<- | [<- | []]]; reflexivity. }
  destruct (N.eqb_spec c 8490) as [-> | _].
  { split; [discriminate|]. intros d [<- | []]. reflexivity. }
  destruct ((192 <=? c) && (c <=? 222) && negb (c =? 215)) eqn:E4.
  { split; [discriminate|]. intros d [<- | []].
    apply andb_true_iff in E4. destruct E4 as [E4 _].
    apply andb_true_iff in E4. destruct E4 as [H1 H2].
    apply N.leb_le in H1, H2.
    rewrite !is_js_space_outside by lia. reflexivity. }
  split; [discriminate|]. now intros d [<- | []].
Qed.

Lemma trim_unchanged s :
  match s with [] => True | x :: _ => is_js_space x = false end ->
  s = [] \/ (exists init x, s = init ++ [x] /\ is_js_space x = false) ->
  trim s = s.
Proof.
  intros Hhead Hlast. unfold trim. rewrite (dropWhile_fixed _ _ Hhead).
  destruct Hlast as [-> | (init & x & -> & Hx)]; [reflexivity|].
  now apply dropWhileEnd_app_last.
Qed.

Lemma trim_ends s :
  match trim s with [] => True | x :: _ => is_js_space x = false end
  /\ (trim s = []
      \/ exists init x, trim s = init ++ [x] /\ is_js_space x = false).
Proof.
  split.
  - unfold trim. destruct (dropWhileEnd _ _) as [|x r] eqn:E; [exact I|].
    destruct (dropWhileEnd_head _ _ _ _ E) as [r0 Hu].
    exact (dropWhile_head_false _ _ _ _ Hu).
  - destruct (trim s) as [|c r] eqn:E; [now left|]. right.
    destruct (@exists_last _ (c :: r) ltac:(discriminate)) as (init & x & Hl).
    exists init, x. split; [exact Hl|].
    unfold trim in E. rewrite Hl in E. exact (dropWhileEnd_last _ _ _ _ E).
Qed.

Lemma toLowerCase_trimmed s : trim (toLowerCase (trim s)) = toLowerCase (trim s).
Proof.
  destruct (trim_ends s) as [Hhead Hlast].
  apply trim_unchanged.
  - destruct (trim s) as [|c r]; [exact I|]. unfold toLowerCase. simpl.
    destruct (lower_unit_space c) as [Hne Hsp].
    destruct (lower_unit c) as [|d ds]; [congruence|]. simpl.
    rewrite (Hsp d (or_introl eq_refl)). exact Hhead.
  - destruct Hlast as [-> | (init & x & -> & Hx)]; [now left|]. right.
    unfold toLowerCase. rewrite flat_map_app. simpl. rewrite app_nil_r.
    destruct (lower_unit_space x) as [Hne Hsp].
    destruct (@exists_last _ (lower_unit x) Hne) as (ds & z & Hz).
    exists (flat_map lower_unit init ++ ds), z.
    rewrite Hz, app_assoc. split; [reflexivity|].
    rewrite (Hsp z), Hx; [reflexivity|]. rewrite Hz. apply in_or_app.
    right. now left.
Qed.

(** X19. Whatever the engine's lower-casing does, [normalizeFormat] never
    returns [jpg], and it returns [jpeg] exactly for the formats that read
    [jpg] or [jpeg] once trimmed and lower-cased.  With a lower-casing that
    is idempotent, leaves a trimmed text trimmed and leaves [jpeg] as it is,
    [normalizeFormat] is idempotent. *)
Theorem normalizeFormat_idempotent
  (String_toLowerCase : jsstring -> jsstring) (format : jsstring) :
  let lower := String_toLowerCase in
  normalizeFormat lower format <> js "jpg"
  /\ (normalizeFormat lower format = js "jpeg" <->
      lower (trim format) = js "jpg" \/ lower (trim format) = js "jpeg")
  /\ ((forall s, lower (lower s) = lower s) ->
      (forall s, trim (lower (trim s)) = lower (trim s)) ->
      lower (js "jpeg") = js "jpeg" ->
      normalizeFormat lower (normalizeFormat lower format)
      = normalizeFormat lower format).
Proof.
  intros lower.
  assert (Hn : forall f, normalizeFormat lower f =
               if jsstring_eqb (lower (trim f)) (js "jpg")
               then js "jpeg" else lower (trim f))
    by reflexivity.
  rewrite !Hn.
  destruct (jsstring_eqb (lower (trim format)) (js "jpg")) eqn:E.
  - apply jsstring_eqb_eq in E.
    split; [discriminate|]. split; [split; auto|].
    intros _ _ Hjpeg.
    change (trim (js "jpeg")) with (js "jpeg"). now rewrite Hjpeg.
  - split; [now apply jsstring_eqb_neq|]. split.
    + apply jsstring_eqb_neq in E.
      split; [auto|]. intros [H | H]; [contradiction | exact H].
    + intros Hidem Htrim _. now rewrite Htrim, Hidem, E.
Qed.

Lemma normalizeFormat_idempotent_witness :
  normalizeFormat toLowerCase (js " JPG ") = js "jpeg"
  /\ normalizeFormat toLowerCase (normalizeFormat toLowerCase (js " Png"))
     = normalizeFormat toLowerCase (js " Png").
Proof.
  split.
  - apply (proj1 (proj2 (normalizeFormat_idempotent toLowerCase (js " JPG ")))).
    left. reflexivity.
  - exact (proj2 (proj2 (normalizeFormat_idempotent toLowerCase (js " Png")))
             toLowerCase_idempotent toLowerCase_trimmed eq_refl).
Defined.
